(** * A shallow embedding of the SAP commerce assistant backend (server.js)

    The development follows the source file by file and function by
    function.  JavaScript numbers are IEEE-754 binary64 values (the
    primitive floats of the kernel), JavaScript strings are sequences of
    UTF-16 code units, a JavaScript [Map] is an insertion-ordered
    association list, and everything that lives outside the process
    (the commerce platform behind axios, the language-model client, the
    clock, the random source) is a field of an environment record. *)

From Stdlib Require Import String Ascii DecimalString.
From Stdlib Require Import ZArith List Bool Lia Floats.
From Stdlib Require Import Permutation Sorted.
From Stdlib Require Uint63.
Import ListNotations.

Local Open Scope Z_scope.
#[local] Set Warnings "-register-all,-inexact-float".

(* ================================================================== *)
(** * Part I: definitions                                               *)
(* ================================================================== *)

(** ** JavaScript strings *)

(** A string is its sequence of UTF-16 code units; [charCodeAt i] is the
    [i]-th unit. *)
Definition jsstring := list Z.

Definition js (s : string) : jsstring :=
  map (fun c => Z.of_nat (nat_of_ascii c)) (list_ascii_of_string s).

Arguments js s%_string.

Definition jsstring_eq_dec : forall a b : jsstring, {a = b} + {a <> b} :=
  list_eq_dec Z.eq_dec.

Definition str_eqb (a b : jsstring) : bool :=
  if jsstring_eq_dec a b then true else false.

(** [n.toString()] for a non-negative integer [n]. *)
Definition toStringNat (n : Z) : jsstring :=
  js (NilZero.string_of_uint (N.to_uint (Z.to_N n))).

(** ** 32-bit integer arithmetic of the bitwise operators *)

(** [ToInt32]: wrap modulo 2^32 into the signed range. *)
Definition toInt32 (z : Z) : Z :=
  let m := z mod 2 ^ 32 in
  if m <? 2 ^ 31 then m else m - 2 ^ 32.

(** [x << n] on numbers holding integers. *)
Definition shl32 (x n : Z) : Z := toInt32 (Z.shiftl (toInt32 x) n).

(** [x & y] on numbers holding integers: both operands go through
    [ToInt32]; two's complement [Z.land] agrees with the 32-bit and. *)
Definition and32 (x y : Z) : Z := toInt32 (Z.land (toInt32 x) (toInt32 y)).

(** ** hashText (server.js, lines 54-63) *)

(** One turn of the loop body:
    [hash = ((hash << 5) - hash) + char; hash = hash & hash]. *)
Definition hashStep (hash char : Z) : Z :=
  let hash1 := (shl32 hash 5 - hash) + char in
  and32 hash1 hash1.

Definition hashLoop (text : jsstring) : Z := fold_left hashStep text 0.

Definition hashText (text : jsstring) : jsstring :=
  toStringNat (Z.abs (hashLoop text)).

(** ** The JavaScript [Map]: insertion-ordered entries *)

Module JsMap.
Section Ops.
Context {K V : Type}.
Variable keq : K -> K -> bool.

(** [m.get(k)]; [None] is [undefined]. *)
Fixpoint get (k : K) (m : list (K * V)) : option V :=
  match m with
  | [] => None
  | (k', v) :: r => if keq k' k then Some v else get k r
  end.

Definition has (k : K) (m : list (K * V)) : bool :=
  match get k m with Some _ => true | None => false end.

(** [m.set(k, v)]: a present key keeps its place and takes the new
    value; a new key goes to the end. *)
Fixpoint set (k : K) (v : V) (m : list (K * V)) : list (K * V) :=
  match m with
  | [] => [(k, v)]
  | (k', v') :: r =>
      if keq k' k then (k', v) :: r else (k', v') :: set k v r
  end.

(** [m.delete(k)]. *)
Fixpoint delete (k : K) (m : list (K * V)) : list (K * V) :=
  match m with
  | [] => []
  | (k', v') :: r => if keq k' k then r else (k', v') :: delete k r
  end.

(** [m.size]. *)
Definition size (m : list (K * V)) : Z := Z.of_nat (length m).

(** [m.keys().next().value]; [None] is [undefined] (empty map). *)
Definition firstKey (m : list (K * V)) : option K :=
  match m with
  | [] => None
  | (k, _) :: _ => Some k
  end.

Definition keys (m : list (K * V)) : list K := map fst m.
Definition values (m : list (K * V)) : list V := map snd m.
End Ops.
End JsMap.

Definition jsmap (K V : Type) := list (K * V).

(** ** The embedding cache (server.js, lines 47-78) *)

Definition embedding := list float.

Definition cache := jsmap jsstring embedding.

Definition embeddingCache_init : cache := [].

Definition MAX_CACHE_SIZE : Z := 100.

Definition getCachedEmbedding (text : jsstring) (c : cache) : option embedding :=
  let key := hashText text in
  JsMap.get str_eqb key c.

Definition setCachedEmbedding (text : jsstring) (e : embedding) (c : cache) : cache :=
  let c1 :=
    if MAX_CACHE_SIZE <=? JsMap.size c then
      match JsMap.firstKey c with
      | Some firstKey => JsMap.delete str_eqb firstKey c
      | None => c  (* delete(undefined) on an empty map *)
      end
    else c in
  let key := hashText text in
  JsMap.set str_eqb key e c1.

(** A sequence of cache operations, run from a given cache.  Reading
    returns a value and leaves the cache as it is. *)
Inductive cacheOp :=
| OpSet (text : jsstring) (e : embedding)
| OpGet (text : jsstring).

Definition runOp (c : cache) (op : cacheOp) : cache :=
  match op with
  | OpSet t e => setCachedEmbedding t e c
  | OpGet t => let _ := getCachedEmbedding t c in c
  end.

Definition runOps (ops : list cacheOp) (c : cache) : cache :=
  fold_left runOp ops c.

(** *** Insertion stamps (ghost state)

    To speak of "the oldest-inserted key" the entries are paired with
    the tick at which their key entered the map.  No operation reads a
    stamp; [erase] forgets them and gives back the cache of the code. *)
Record stamped := { born : nat; emb : embedding }.

Definition gcache := jsmap jsstring stamped.

Definition erase (g : gcache) : cache :=
  map (fun kv => (fst kv, emb (snd kv))) g.

Definition gset (clock : nat) (text : jsstring) (e : embedding) (g : gcache) : gcache :=
  let g1 :=
    if MAX_CACHE_SIZE <=? JsMap.size g then
      match JsMap.firstKey g with
      | Some firstKey => JsMap.delete str_eqb firstKey g
      | None => g
      end
    else g in
  let key := hashText text in
  match JsMap.get str_eqb key g1 with
  | Some old => JsMap.set str_eqb key {| born := born old; emb := e |} g1
  | None => JsMap.set str_eqb key {| born := clock; emb := e |} g1
  end.

Definition grunOp (st : nat * gcache) (op : cacheOp) : nat * gcache :=
  match op with
  | OpSet t e => (S (fst st), gset (fst st) t e (snd st))
  | OpGet t => st
  end.

Definition grunOps (ops : list cacheOp) (st : nat * gcache) : nat * gcache :=
  fold_left grunOp ops st.

(** ** cosineSimilarity (server.js, lines 127-147) *)

Module Num.
Local Open Scope float_scope.

(** JavaScript truthiness of a number: neither zero nor NaN. *)
Definition truthy (x : float) : bool := negb (is_zero x || is_nan x).

(** [v[i]] read as a number: a missing element is [undefined], which
    arithmetic turns into NaN. *)
Definition at_ (v : list float) (i : nat) : float := nth i v nan.

Record acc := { dotProduct : float; normA : float; normB : float }.

Definition loopBody (a b : list float) (s : acc) (i : nat) : acc :=
  {| dotProduct := dotProduct s + at_ a i * at_ b i;
     normA := normA s + at_ a i * at_ a i;
     normB := normB s + at_ b i * at_ b i |}.

Definition loop (a b : list float) : acc :=
  fold_left (loopBody a b) (seq 0 (length a))
    {| dotProduct := 0; normA := 0; normB := 0 |}.

Definition isEmpty (v : list float) : bool :=
  match v with [] => true | _ => false end.

Definition cosineSimilarity (a b : list float) : float :=
  if isEmpty a || isEmpty b then 0
  else
    let s := loop a b in
    let nA := sqrt (normA s) in
    let nB := sqrt (normB s) in
    if truthy nA && truthy nB then dotProduct s / (nA * nB) else 0.

(** The textbook quantities the specification speaks of, with the
    same left-to-right floating-point summation. *)
Definition dot (a b : list float) : float :=
  fold_left (fun s xy => s + fst xy * snd xy) (combine a b) 0.

Definition sumSquares (a : list float) : float :=
  fold_left (fun s x => s + x * x) a 0.

Definition norm (a : list float) : float := sqrt (sumSquares a).

Definition number (x : float) : Prop := is_nan x = false.
End Num.

(** ** JavaScript values *)

(** The values the server handles are those of JSON documents, plus
    [undefined].  An object is its list of own properties in property
    order. *)
Inductive value :=
| VUndefined
| VNull
| VBool (b : bool)
| VNum (n : float)
| VStr (s : jsstring)
| VArr (l : list value)
| VObj (o : list (jsstring * value)).

Definition obj := list (jsstring * value).

(** Truthiness ([!v], [v || w], [v ? a : b]). *)
Definition truthy (v : value) : bool :=
  match v with
  | VUndefined | VNull => false
  | VBool b => b
  | VNum n => Num.truthy n
  | VStr s => match s with [] => false | _ => true end
  | VArr _ | VObj _ => true
  end.

Definition nullish (v : value) : bool :=
  match v with VUndefined | VNull => true | _ => false end.

(** [v || w]. *)
Definition orElse (v w : value) : value := if truthy v then v else w.

(** Strict equality [===].  Two objects or arrays met here never share
    identity (each comes from its own parsed document), so they are
    never equal. *)
Definition strictEq (v w : value) : bool :=
  match v, w with
  | VUndefined, VUndefined => true
  | VNull, VNull => true
  | VBool a, VBool b => Bool.eqb a b
  | VNum a, VNum b => PrimFloat.eqb a b
  | VStr a, VStr b => str_eqb a b
  | _, _ => false
  end.

(** SameValueZero, the key equality of [Map]: as [===] except that NaN
    equals itself. *)
Definition sameValueZero (v w : value) : bool :=
  match v, w with
  | VNum a, VNum b => PrimFloat.eqb a b || (is_nan a && is_nan b)
  | _, _ => strictEq v w
  end.

(** Exceptions carry a message and, for a rejected HTTP call, the body
    of the error response ([error.response?.data]). *)
Record jserror := { message : jsstring; responseData : value }.

(** A [TypeError] raised by the engine; the engine's wording of the
    message is not modelled, the tag names the failed operation. *)
Definition typeError (what : string) : jserror :=
  {| message := js what; responseData := VUndefined |}.

Inductive outcome (A : Type) :=
| Ok (a : A)
| Throw (e : jserror).

Arguments Ok {A} a.
Arguments Throw {A} e.

Definition obind {A B} (x : outcome A) (f : A -> outcome B) : outcome B :=
  match x with
  | Ok a => f a
  | Throw e => Throw e
  end.

Fixpoint omap {A B} (f : A -> outcome B) (l : list A) : outcome (list B) :=
  match l with
  | [] => Ok []
  | x :: r => obind (f x) (fun y => obind (omap f r) (fun ys => Ok (y :: ys)))
  end.

(** *** Objects *)

Definition objGet (k : jsstring) (o : obj) : value :=
  match JsMap.get str_eqb k o with
  | Some v => v
  | None => VUndefined
  end.

(** Writing a property: a present key keeps its place. *)
Definition objSet (k : jsstring) (v : value) (o : obj) : obj :=
  JsMap.set str_eqb k v o.

(** The index keys ["0"], ["1"], ... of an array or a string. *)
Definition indexed (l : list value) : obj :=
  combine (map (fun i => toStringNat (Z.of_nat i)) (seq 0 (length l))) l.

(** Own enumerable properties copied by a spread [{...v}]; [null],
    [undefined], numbers and booleans contribute nothing. *)
Definition ownProps (v : value) : obj :=
  match v with
  | VObj o => o
  | VArr l => indexed l
  | VStr s => indexed (map (fun c => VStr [c]) s)
  | _ => []
  end.

(** [{...v}]: the properties are defined one by one on a fresh object. *)
Definition spread (v : value) : obj :=
  fold_left (fun acc kv => objSet (fst kv) (snd kv) acc) (ownProps v) [].

(** [v.k] for a non-index, non-[length] property name [k]: reading a
    property of [null] or [undefined] raises; primitives and arrays of
    documents have no such property. *)
Definition getProp (v : value) (k : jsstring) : outcome value :=
  match v with
  | VUndefined | VNull => Throw (typeError "Cannot read properties of undefined")
  | VObj o => Ok (objGet k o)
  | _ => Ok VUndefined
  end.

(** [v?.k]. *)
Definition optProp (v : value) (k : jsstring) : value :=
  match v with
  | VObj o => objGet k o
  | _ => VUndefined
  end.

(** [v[0]]. *)
Definition getFirst (v : value) : outcome value :=
  match v with
  | VUndefined | VNull => Throw (typeError "Cannot read properties of undefined")
  | VArr l => Ok (hd VUndefined l)
  | VStr s => Ok (match s with [] => VUndefined | c :: _ => VStr [c] end)
  | VObj o => Ok (objGet (js "0") o)
  | _ => Ok VUndefined
  end.

(** Destructuring one field out of a request body, [const { k } = body]. *)
Definition field (k : jsstring) (body : value) : value := optProp body k.

(** *** Strings *)

(** The code units [String.prototype.trim] removes: WhiteSpace and
    LineTerminator. *)
Definition isSpace (c : Z) : bool :=
  existsb (Z.eqb c)
    [9; 10; 11; 12; 13; 32; 160; 5760; 8232; 8233; 8239; 8287; 12288; 65279]
  || ((8192 <=? c) && (c <=? 8202)).

Fixpoint trimStart (s : jsstring) : jsstring :=
  match s with
  | c :: r => if isSpace c then trimStart r else s
  | [] => []
  end.

Definition trim (s : jsstring) : jsstring :=
  rev (trimStart (rev (trimStart s))).

Fixpoint startsWith (p s : jsstring) : option jsstring :=
  match p, s with
  | [], _ => Some s
  | a :: p', b :: s' => if a =? b then startsWith p' s' else None
  | _ :: _, [] => None
  end.

(** The longest run of units other than [']'] and what follows it. *)
Fixpoint spanNotBracket (s : jsstring) : jsstring * jsstring :=
  match s with
  | c :: r =>
      if c =? 93 then ([], s)
      else let (run, rest) := spanNotBracket r in (c :: run, rest)
  | [] => ([], [])
  end.

(** An attempt of the pattern [\[TAG: ([^\]]+)\]] at the start of [s];
    the result is the captured group. *)
Definition matchTagHere (tag s : jsstring) : option jsstring :=
  match startsWith (js "[" ++ tag ++ js ": ") s with
  | Some after =>
      match spanNotBracket after with
      | (c :: run, 93 :: _) => Some (c :: run)
      | _ => None
      end
  | None => None
  end.

(** [s.match(/\[TAG: ([^\]]+)\]/)]: the leftmost position at which the
    pattern matches; [None] is [null], [Some g] a match whose group 1 is
    [g]. *)
Fixpoint matchTag (tag s : jsstring) : option jsstring :=
  match matchTagHere tag s with
  | Some g => Some g
  | None =>
      match s with
      | [] => None
      | _ :: r => matchTag tag r
      end
  end.

(** ** The world outside and the state inside *)

Inductive httpMethod := GET | POST | PATCH | DELETE.

Record httpRequest := {
  method : httpMethod;
  url : jsstring;
  params : value;   (* query parameters *)
  payload : value   (* request body, [undefined] when there is none *)
}.

(** What the process asked of the outside, oldest first. *)
Inductive event :=
| EvHttp (r : httpRequest)
| EvEmbed (text : jsstring)
| EvGenerate (prompt : jsstring)
| EvUuid
| EvDate.

(** The environment: configuration, the remote services, and the
    library functions whose results are taken as given.  A remote
    service answers as a function of everything asked so far, so the
    same question may get different answers at different times. *)
Record Env := {
  SAP_OCC_BASE_URL : jsstring;
  SAP_SITE_ID : jsstring;
  GEMINI_MODEL : jsstring;
  (** [axios.get/post/patch/delete]: the [data] of the response, or a
      rejection. *)
  axios : list event -> httpRequest -> outcome value;
  (** [client.models.embedContent], read through
      [response.embedding?.values]: [Ok None] when that is missing,
      [Ok (Some vs)] when it is an array of numbers. *)
  embedContent : list event -> jsstring -> outcome (option embedding);
  (** [client.models.generateContent]: the response object. *)
  generateContent : list event -> jsstring -> outcome value;
  randomUUID : list event -> jsstring;
  newDate : list event -> value;
  (** [ToUint16(ToNumber(digits))] for a run of decimal digits whose
      value is 2^53 or more, where the rounding is the engine's. *)
  charCodeOfBig : Z -> Z;
  JSON_stringify : value -> jsstring;
  JSON_parse : jsstring -> outcome value;
  (** [ToString] of a value other than a string in a template literal. *)
  toStringOther : value -> jsstring;
  (** [ToNumber] of a string, array or object. *)
  toNumberOther : value -> float;
  (** [+] when an operand is not a number. *)
  addOther : value -> value -> value;
  parseFloat : value -> float;
  Math_round : float -> float;
  (** The number of a length. *)
  ofLength : nat -> float
}.

(** *** Server state (server.js, lines 17-21 and 51) *)

Module User.
Record t := {
  id : jsstring;
  email : value;
  password : value;
  firstName : value;
  lastName : value;
  createdAt : value
}.
End User.

Module Cart.
Record t := { items : list value; total : float }.
End Cart.

(** What express-session keeps per browser session; a field never
    written is [undefined]. *)
Module Session.
Record t := { userId : value; email : value; cartGuid : value }.

Definition empty : t :=
  {| userId := VUndefined; email := VUndefined; cartGuid := VUndefined |}.
End Session.

Definition user := User.t.
Definition cartRec := Cart.t.
Definition session := Session.t.

Record world := {
  embeddingCache : cache;
  users : jsmap value user;
  carts : jsmap value cartRec;
  orders : jsmap jsstring value;
  orderCounter : Z;
  sessions : jsmap jsstring session;
  log : list event
}.

Definition initialWorld : world :=
  {| embeddingCache := embeddingCache_init;
     users := [];
     carts := [];
     orders := [];
     orderCounter := 1000;
     sessions := [];
     log := [] |}.

Definition withCache (f : cache -> cache) (w : world) : world :=
  {| embeddingCache := f (embeddingCache w); users := users w; carts := carts w;
     orders := orders w; orderCounter := orderCounter w;
     sessions := sessions w; log := log w |}.

Definition withUsers (f : jsmap value user -> jsmap value user) (w : world) : world :=
  {| embeddingCache := embeddingCache w; users := f (users w); carts := carts w;
     orders := orders w; orderCounter := orderCounter w;
     sessions := sessions w; log := log w |}.

Definition withCarts (f : jsmap value cartRec -> jsmap value cartRec) (w : world) : world :=
  {| embeddingCache := embeddingCache w; users := users w; carts := f (carts w);
     orders := orders w; orderCounter := orderCounter w;
     sessions := sessions w; log := log w |}.

Definition withOrders (f : jsmap jsstring value -> jsmap jsstring value) (w : world) : world :=
  {| embeddingCache := embeddingCache w; users := users w; carts := carts w;
     orders := f (orders w); orderCounter := orderCounter w;
     sessions := sessions w; log := log w |}.

Definition withOrderCounter (f : Z -> Z) (w : world) : world :=
  {| embeddingCache := embeddingCache w; users := users w; carts := carts w;
     orders := orders w; orderCounter := f (orderCounter w);
     sessions := sessions w; log := log w |}.

Definition withSessions (f : jsmap jsstring session -> jsmap jsstring session) (w : world) : world :=
  {| embeddingCache := embeddingCache w; users := users w; carts := carts w;
     orders := orders w; orderCounter := orderCounter w;
     sessions := f (sessions w); log := log w |}.

Definition withLog (f : list event -> list event) (w : world) : world :=
  {| embeddingCache := embeddingCache w; users := users w; carts := carts w;
     orders := orders w; orderCounter := orderCounter w;
     sessions := sessions w; log := f (log w) |}.

(** *** Computations: state that survives an exception *)

Definition M (A : Type) := world -> outcome A * world.

Definition ret {A} (a : A) : M A := fun w => (Ok a, w).

Definition throw {A} (e : jserror) : M A := fun w => (Throw e, w).

Definition bind {A B} (m : M A) (f : A -> M B) : M B :=
  fun w =>
    match m w with
    | (Ok a, w') => f a w'
    | (Throw e, w') => (Throw e, w')
    end.

(** [try { m } catch (error) { h error }]. *)
Definition tryCatch {A} (m : M A) (h : jserror -> M A) : M A :=
  fun w =>
    match m w with
    | (Ok a, w') => (Ok a, w')
    | (Throw e, w') => h e w'
    end.

Definition lift {A} (x : outcome A) : M A := fun w => (x, w).

Definition gets {A} (f : world -> A) : M A := fun w => (Ok (f w), w).

Definition modify (f : world -> world) : M unit := fun w => (Ok tt, f w).

Declare Scope js_scope.
Delimit Scope js_scope with js.
Notation "x <- m ;; k" := (bind m (fun x => k))
  (at level 61, m at next level, right associativity) : js_scope.
Notation "m ;;; k" := (bind m (fun _ => k))
  (at level 61, right associativity) : js_scope.
Notation "s +++ t" := (@app Z s t)
  (at level 60, right associativity) : js_scope.

Fixpoint mapM {A B} (f : A -> M B) (l : list A) : M (list B) :=
  match l with
  | [] => ret []
  | x :: r => bind (f x) (fun y => bind (mapM f r) (fun ys => ret (y :: ys)))
  end.

(** Interpolation [`${v}`] and the numeric reading of a value. *)
Definition templ (env : Env) (v : value) : jsstring :=
  match v with
  | VStr s => s
  | _ => toStringOther env v
  end.

Definition toNumber (env : Env) (v : value) : float :=
  match v with
  | VNum n => n
  | VUndefined => nan
  | VNull => 0%float
  | VBool b => if b then 1%float else 0%float
  | _ => toNumberOther env v
  end.

(** [v + w]. *)
Definition jsAdd (env : Env) (v w : value) : value :=
  match v, w with
  | VNum a, VNum b => VNum (a + b)%float
  | _, _ => addOther env v w
  end.

(** ** Calls to the outside: each one is logged, answered or not *)

Definition record (ev : event) : world -> world := withLog (fun l => l ++ [ev]).

Definition call_axios (env : Env) (r : httpRequest) : M value :=
  fun w => (axios env (log w) r, record (EvHttp r) w).

Definition call_generateContent (env : Env) (prompt : jsstring) : M value :=
  fun w => (generateContent env (log w) prompt, record (EvGenerate prompt) w).

Definition call_randomUUID (env : Env) : M jsstring :=
  fun w => (Ok (randomUUID env (log w)), record EvUuid w).

Definition call_newDate (env : Env) : M value :=
  fun w => (Ok (newDate env (log w)), record EvDate w).

Definition str (s : string) : value := VStr (js s).
Arguments str s%_string.

Definition occ (env : Env) (path : jsstring) : jsstring :=
  (SAP_OCC_BASE_URL env ++ js "/" ++ SAP_SITE_ID env ++ path)%list.

(** ** stripHtml (server.js, lines 83-94) *)

(** [s.replace(/<[^>]*>/g, '')]: a ['<'] opens a tag when a ['>']
    follows somewhere; the tag runs to the first ['>']. *)
Fixpoint stripTags (inTag : bool) (s : jsstring) : jsstring :=
  match s with
  | [] => []
  | c :: r =>
      if inTag then
        if c =? 62 then stripTags false r else stripTags true r
      else if (c =? 60) && existsb (Z.eqb 62) r then stripTags true r
      else c :: stripTags false r
  end.

(** [s.replace(/pat/g, rep)] for a literal, non-empty [pat]; [skip]
    counts the units of a match still to be passed over. *)
Fixpoint replaceAll (pat rep : jsstring) (skip : nat) (s : jsstring) : jsstring :=
  match s with
  | [] => []
  | c :: r =>
      match skip with
      | S k => replaceAll pat rep k r
      | O =>
          match startsWith pat s with
          | Some _ => (rep ++ replaceAll pat rep (length pat - 1) r)%list
          | None => c :: replaceAll pat rep 0 r
          end
      end
  end.

Definition isDigit (c : Z) : bool := (48 <=? c) && (c <=? 57).

Fixpoint spanDigits (s : jsstring) : jsstring * jsstring :=
  match s with
  | c :: r =>
      if isDigit c then let (run, rest) := spanDigits r in (c :: run, rest)
      else ([], s)
  | [] => ([], [])
  end.

(** An attempt of [&#(\d+);] at the start of [s]: the digits. *)
Definition matchEntity (s : jsstring) : option jsstring :=
  match s with
  | 38 :: 35 :: r =>
      match spanDigits r with
      | (d :: ds, 59 :: _) => Some (d :: ds)
      | _ => None
      end
  | _ => None
  end.

Definition digitsValue (ds : jsstring) : Z :=
  fold_left (fun a c => 10 * a + (c - 48)) ds 0.

(** [String.fromCharCode(dec)] for a string of digits. *)
Definition fromCharCode (env : Env) (dec : jsstring) : Z :=
  let n := digitsValue dec in
  if n <? 2 ^ 53 then n mod 2 ^ 16 else charCodeOfBig env n.

(** [s.replace(/&#(\d+);/g, (match, dec) => String.fromCharCode(dec))]. *)
Fixpoint decodeEntities (env : Env) (skip : nat) (s : jsstring) : jsstring :=
  match s with
  | [] => []
  | c :: r =>
      match skip with
      | S k => decodeEntities env k r
      | O =>
          match matchEntity s with
          | Some dec =>
              fromCharCode env dec :: decodeEntities env (length dec + 2) r
          | None => c :: decodeEntities env 0 r
          end
      end
  end.

(** The chain of [replace] calls and the final [trim], on a string. *)
Definition stripHtmlText (env : Env) (html : jsstring) : jsstring :=
  trim
    (decodeEntities env 0
       (replaceAll (js "&gt;") (js ">") 0
          (replaceAll (js "&lt;") (js "<") 0
             (replaceAll (js "&amp;") (js "&") 0
                (replaceAll (js "&apos;") (js "'") 0
                   (replaceAll (js "&quot;") [34] 0
                      (stripTags false html))))))).

Definition stripHtml (env : Env) (html : value) : outcome value :=
  if negb (truthy html) then Ok (str "")
  else
    match html with
    | VStr s => Ok (VStr (stripHtmlText env s))
    | _ => Throw (typeError "html.replace is not a function")
    end.

(** ** getEmbedding (server.js, lines 99-125) *)

(** Up to its [await]: the cache is consulted and, on a miss, the
    request is sent; the answer is what the service will give. *)
Definition getEmbedding_request (env : Env) (text : jsstring)
  : M (embedding + outcome (option embedding)) :=
  fun w =>
    match getCachedEmbedding text (embeddingCache w) with
    | Some cached => (Ok (inl cached), w)
    | None => (Ok (inr (embedContent env (log w) text)), record (EvEmbed text) w)
    end.

(** After the [await]: [response.embedding?.values || []], cached when
    not empty; a failure is caught and gives [[]]. *)
Definition getEmbedding_settle (text : jsstring) (r : outcome (option embedding))
  : M embedding :=
  match r with
  | Throw _ => ret []
  | Ok values =>
      let embedding := match values with Some vs => vs | None => [] end in
      match embedding with
      | [] => ret embedding
      | _ :: _ =>
          bind (modify (withCache (setCachedEmbedding text embedding)))
               (fun _ => ret embedding)
      end
  end.

Definition getEmbedding (env : Env) (text : jsstring) : M embedding :=
  bind (getEmbedding_request env text)
       (fun r =>
          match r with
          | inl cached => ret cached
          | inr answer => getEmbedding_settle text answer
          end).

(** [await Promise.all(texts.map(async t => ... await getEmbedding(t) ...))]:
    every callback runs to its first [await] before any answer is
    handled, so all cache lookups come first; the answers are then
    handled, here in the order the requests were sent. *)
Definition getEmbeddings (env : Env) (texts : list jsstring) : M (list embedding) :=
  bind (mapM (getEmbedding_request env) texts)
       (fun rs =>
          mapM (fun tr =>
                  match snd tr with
                  | inl cached => ret cached
                  | inr answer => getEmbedding_settle (fst tr) answer
                  end)
               (combine texts rs)).

(** ** Array.prototype.sort, as the engine (V8) runs it

    A NaN from the comparator counts as [+0].  An array of fewer than
    64 elements is sorted as one run: the leading run is counted, and
    reversed when it is strictly descending, then each further element
    is put in its place by binary search.  With a consistent comparator
    this is the stable sort, which no algorithm changes.  With an
    inconsistent one (a score that is NaN) the result is what this
    procedure gives.  An array of 64 elements or more is cut by the
    engine into several such runs that are then merged; the runs are
    not cut here, so for such an array the definition gives the
    engine's result when the comparator is consistent. *)
Section Sort.
Context {A : Type}.
Variable comparefn : A -> A -> float.

Definition sortCompare (x y : A) : float :=
  let v := comparefn x y in
  if is_nan v then 0%float else v.

(** [order < 0] for [order = Compare(x, y)]. *)
Definition before (x y : A) : bool := (sortCompare x y <? 0)%float.

(** The loop of [CountAndMakeRun]: the run goes on while the order of
    the current element and the previous one is as it was at the
    start. *)
Fixpoint runFrom (descending : bool) (previous : A) (l : list A)
  : list A * list A :=
  match l with
  | [] => ([], [])
  | current :: r =>
      if Bool.eqb (before current previous) descending then
        let (run, rest) := runFrom descending current r in
        (current :: run, rest)
      else ([], l)
  end.

(** [CountAndMakeRun]: the leading run, made ascending, and the
    elements after it. *)
Definition countAndMakeRun (l : list A) : list A * list A :=
  match l with
  | elementHigh :: elementLow :: r =>
      let descending := before elementLow elementHigh in
      let (run, rest) := runFrom descending elementLow r in
      let whole := elementHigh :: elementLow :: run in
      (if descending then rev whole else whole, rest)
  | _ => (l, [])
  end.

(** The search loop of [BinaryInsertionSort]; [fuel] bounds the number
    of turns, and [right - left] turns are enough. *)
Fixpoint insertionPoint (fuel : nat) (pivot : A) (sorted : list A)
    (left right : nat) : nat :=
  match fuel with
  | O => left
  | S fuel' =>
      if (left <? right)%nat then
        let mid := (left + (right - left) / 2)%nat in
        if before pivot (nth mid sorted pivot)
        then insertionPoint fuel' pivot sorted left mid
        else insertionPoint fuel' pivot sorted (S mid) right
      else left
  end.

(** One turn of the outer loop of [BinaryInsertionSort]. *)
Definition binaryInsert (sorted : list A) (pivot : A) : list A :=
  let left := insertionPoint (length sorted) pivot sorted 0 (length sorted) in
  (firstn left sorted ++ pivot :: skipn left sorted)%list.

Definition sort (l : list A) : list A :=
  let (run, rest) := countAndMakeRun l in
  fold_left binaryInsert rest run.
End Sort.

(** ** searchSAPProducts (server.js, lines 152-217) *)

Definition searchFields : jsstring :=
  js "products(name,price(formattedValue),code,stock(stockLevelStatus),images(FULL),description)".

Definition searchRequest (env : Env) (query : jsstring) : httpRequest :=
  {| method := GET;
     url := occ env (js "/products/search");
     params := VObj [(js "query", VStr query);
                     (js "fields", VStr searchFields);
                     (js "pageSize", VNum 5%float)];
     payload := VUndefined |}.

(** [p.length === 0] for a truthy [p]. *)
Definition lengthIsZero (p : value) : bool :=
  match p with
  | VArr l => match l with [] => true | _ => false end
  | VStr s => match s with [] => true | _ => false end
  | VObj o => strictEq (objGet (js "length") o) (VNum 0%float)
  | _ => false
  end.

(** [p.map(f)]: only an array has [map]. *)
Definition arrayOf (p : value) : outcome (list value) :=
  match p with
  | VArr l => Ok l
  | _ => Throw (typeError "map is not a function")
  end.

(** [{ ...p, name: stripHtml(p.name),
       description: p.description ? stripHtml(p.description) : '' }]. *)
Definition cleanProduct (env : Env) (p : value) : outcome obj :=
  let copied := spread p in
  obind (getProp p (js "name")) (fun name =>
  obind (stripHtml env name) (fun name' =>
  obind (getProp p (js "description")) (fun description =>
  obind (if truthy description then stripHtml env description else Ok (str ""))
        (fun description' =>
  Ok (objSet (js "description") description'
        (objSet (js "name") name' copied)))))).

Definition productText (env : Env) (product : obj) : jsstring :=
  (templ env (objGet (js "name") product) ++ js " " ++
   templ env (objGet (js "description") product))%list.

(** [{ ...product, similarityScore: similarity }]. *)
Definition withScore (product : obj) (similarity : float) : obj :=
  objSet (js "similarityScore") (VNum similarity) (spread (VObj product)).

Definition similarityScore (env : Env) (o : obj) : float :=
  toNumber env (objGet (js "similarityScore") o).

(** [(a, b) => b.similarityScore - a.similarityScore]. *)
Definition byScoreDescending (env : Env) (a b : obj) : float :=
  (similarityScore env b - similarityScore env a)%float.

(** The properties of [o] other than [k]. *)
Definition dropKey (k : jsstring) (o : obj) : obj :=
  filter (fun kv => negb (str_eqb (fst kv) k)) o.

(** [({ similarityScore, ...product }) => product]. *)
Definition withoutScore (o : obj) : obj :=
  spread (VObj (dropKey (js "similarityScore") o)).

Definition products (l : list obj) : value := VArr (map VObj l).

Definition rank (env : Env) (queryEmbedding : embedding)
    (cleanedProducts : list obj) (productEmbeddings : list embedding) : list obj :=
  let productsWithScores :=
    map (fun pe => withScore (fst pe)
                     (Num.cosineSimilarity queryEmbedding (snd pe)))
        (combine cleanedProducts productEmbeddings) in
  map withoutScore
    (firstn 3 (sort (byScoreDescending env) productsWithScores)).

Definition searchSAPProducts (env : Env) (query : jsstring) : M jsstring :=
  tryCatch
    (bind (call_axios env (searchRequest env query)) (fun data =>
     bind (lift (getProp data (js "products"))) (fun ps =>
     if negb (truthy ps) || lengthIsZero ps then
       ret (js "No products found.")
     else
       bind (lift (obind (arrayOf ps) (omap (cleanProduct env))))
            (fun cleanedProducts =>
       if (length cleanedProducts <=? 2)%nat then
         ret (JSON_stringify env (products cleanedProducts))
       else
         bind (getEmbedding env query) (fun queryEmbedding =>
         match queryEmbedding with
         | [] =>
             ret (JSON_stringify env (products (firstn 3 cleanedProducts)))
         | _ :: _ =>
             bind (getEmbeddings env (map (productText env) cleanedProducts))
                  (fun productEmbeddings =>
             ret (JSON_stringify env
                    (products (rank env queryEmbedding cleanedProducts
                                 productEmbeddings))))
         end)))))
    (fun error => ret (js "Error connecting to SAP Commerce Cloud.")).

(** ** The command-line agent (the second source file): its own
    searchSAPProducts, lines 12-31 *)
Module Agent.

Definition searchRequest (env : Env) (query : jsstring) : httpRequest :=
  {| method := GET;
     url := occ env (js "/products/search");
     params := VObj [(js "query", VStr query);
                     (js "fields",
                      str "products(name,price(formattedValue),code,stock(stockLevelStatus))");
                     (js "pageSize", VNum 3%float)];
     payload := VUndefined |}.

Definition searchSAPProducts (env : Env) (query : jsstring) : M jsstring :=
  tryCatch
    (bind (call_axios env (searchRequest env query)) (fun data =>
     bind (lift (getProp data (js "products"))) (fun ps =>
     if negb (truthy ps) then ret (js "No products found.")
     else ret (JSON_stringify env ps))))
    (fun error => ret (js "Error connecting to SAP Commerce Cloud.")).

End Agent.

(** ** runAgent (server.js, lines 222-341) *)

Local Open Scope js_scope.

Definition quote : jsstring := [34].
Definition newline : jsstring := [10].

Definition systemPrompt : jsstring :=
  js "You are a helpful SAP Commerce assistant. When users ask about products, extract the search query and start your response with [SEARCH: <query>] to trigger a product search. For example:"
  +++ newline +++ js "- User: " +++ quote +++ js "I need a camera" +++ quote
  +++ newline +++ js "- You: " +++ quote
  +++ js "[SEARCH: camera] Let me find some cameras for you..." +++ quote
  +++ js "  " +++ newline +++ newline
  +++ js "If the user asks something that doesn't require a search, just respond normally without the [SEARCH] tag.".

Definition fullPrompt (userInput : jsstring) : jsstring :=
  systemPrompt +++ newline +++ newline +++ js "User: " +++ userInput
  +++ newline +++ newline +++ js "Assistant:".

Definition refinedPrompt (userInput sapResults : jsstring) : jsstring :=
  systemPrompt +++ newline +++ newline +++ js "User: " +++ userInput
  +++ newline +++ newline +++ js "SAP Products Found:" +++ newline +++ sapResults
  +++ newline +++ newline
  +++ js "Based on these products, provide a helpful response to the user:".

(** [response.candidates[0]?.content?.parts[0]?.text || "No response"]. *)
Definition responseText (response : value) : outcome value :=
  obind (getProp response (js "candidates")) (fun candidates =>
  obind (getFirst candidates) (fun candidate =>
  if nullish candidate then Ok (str "No response")
  else
    let content := optProp candidate (js "content") in
    if nullish content then Ok (str "No response")
    else
      obind (getFirst (optProp content (js "parts"))) (fun part =>
      Ok (orElse (optProp part (js "text")) (str "No response"))))).

(** [v.length] for a [v] that is neither [null] nor [undefined]. *)
Definition lengthOf (env : Env) (v : value) : value :=
  match v with
  | VArr l => VNum (ofLength env (length l))
  | VStr s => VNum (ofLength env (length s))
  | VObj o => objGet (js "length") o
  | _ => VUndefined
  end.

(** [reviews.length ? reviews.reduce((s, r) => s + (r.rating || 0), 0)
                       / reviews.length : 0], then the summary object. *)
Definition averageRating (env : Env) (reviews : value) : outcome float :=
  if truthy (lengthOf env reviews) then
    match reviews with
    | VArr l =>
        obind
          (fold_left
             (fun acc r =>
                obind acc (fun s =>
                obind (getProp r (js "rating")) (fun rating =>
                Ok (jsAdd env s (orElse rating (VNum 0%float))))))
             l (Ok (VNum 0%float)))
          (fun sum => Ok (toNumber env sum / toNumber env (lengthOf env reviews))%float)
    | _ => Throw (typeError "reviews.reduce is not a function")
    end
  else Ok 0%float.

Definition reviewsSummary (env : Env) (reviews : value) : outcome value :=
  obind (averageRating env reviews) (fun avg =>
  Ok (VObj [(js "count", lengthOf env reviews);
            (js "averageRating",
             VNum (Math_round env (avg * 100) / 100)%float)])).

Definition langCurr : value :=
  VObj [(js "lang", str "en"); (js "curr", str "USD")].

Definition reviewsRequest (env : Env) (code : jsstring) : httpRequest :=
  {| method := GET;
     url := occ env (js "/products/" +++ code +++ js "/reviews");
     params := langCurr;
     payload := VUndefined |}.

Definition viewFields : jsstring :=
  js "code,configurable,configuratorType,purchasable,name,summary,price(formattedValue,DEFAULT),images(galleryIndex,FULL),baseProduct,DEFAULT,averageRating,classifications,manufacturer,numberOfReviews,categories(FULL),baseOptions,variantOptions,variantType,stock(DEFAULT),description,availableForPickup,url,priceRange,multidimensional,tags,potentialPromotions(description),sapUnit".

Definition viewRequest (env : Env) (code : jsstring) : httpRequest :=
  {| method := GET;
     url := occ env (js "/products/" +++ code);
     params := VObj [(js "fields", VStr viewFields);
                     (js "lang", str "en"); (js "curr", str "USD")];
     payload := VUndefined |}.

Definition REVIEWS : jsstring := js "REVIEWS".
Definition VIEW : jsstring := js "VIEW".
Definition SEARCH : jsstring := js "SEARCH".

(** Lines 243-271. *)
Definition actOnReviews (env : Env) (assistantResponse code : jsstring) : M value :=
  tryCatch
    (data <- call_axios env (reviewsRequest env code) ;;
     let reviews := orElse (optProp data (js "reviews")) (VArr []) in
     summary <- lift (reviewsSummary env reviews) ;;
     ret (VObj [(js "response", VStr assistantResponse);
                (js "reviews", reviews);
                (js "reviewsSummary", summary)]))
    (fun err =>
       ret (VObj [(js "response",
                   VStr (assistantResponse +++ newline +++ newline
                         +++ js "(Unable to fetch reviews)"));
                  (js "reviews", VArr []);
                  (js "reviewsSummary",
                   VObj [(js "count", VNum 0%float);
                         (js "averageRating", VNum 0%float)]);
                  (js "error", VBool true)])).

(** Lines 275-301. *)
Definition actOnView (env : Env) (assistantResponse code : jsstring) : M value :=
  tryCatch
    (data <- call_axios env (viewRequest env code) ;;
     ret (VObj [(js "response", VStr assistantResponse);
                (js "viewed", VBool true);
                (js "product", data)]))
    (fun err =>
       ret (VObj [(js "response",
                   VStr (assistantResponse +++ newline +++ newline
                         +++ js "(Unable to fetch product details)"));
                  (js "viewed", VBool false);
                  (js "product", VNull);
                  (js "error", VBool true)])).

(** Lines 305-324. *)
Definition actOnSearch (env : Env) (userInput query : jsstring) : M value :=
  sapResults <- searchSAPProducts env query ;;
  refinedResponse <- call_generateContent env (refinedPrompt userInput sapResults) ;;
  text <- lift (responseText refinedResponse) ;;
  parsed <- lift (JSON_parse env sapResults) ;;
  ret (VObj [(js "response", text);
             (js "searched", VBool true);
             (js "products", parsed)]).

Definition runAgent (env : Env) (userInput : jsstring) : M value :=
  tryCatch
    (response <- call_generateContent env (fullPrompt userInput) ;;
     text <- lift (responseText response) ;;
     match text with
     | VStr assistantResponse =>
         match matchTag REVIEWS assistantResponse with
         | Some code => actOnReviews env assistantResponse (trim code)
         | None =>
             match matchTag VIEW assistantResponse with
             | Some code => actOnView env assistantResponse (trim code)
             | None =>
                 match matchTag SEARCH assistantResponse with
                 | Some query => actOnSearch env userInput query
                 | None =>
                     ret (VObj [(js "response", VStr assistantResponse);
                                (js "searched", VBool false);
                                (js "products", VArr [])])
                 end
             end
         end
     | _ => throw (typeError "assistantResponse.match is not a function")
     end)
    (fun error =>
       ret (VObj [(js "response", VStr (js "Error: " +++ message error));
                  (js "searched", VBool false);
                  (js "products", VArr []);
                  (js "error", VBool true)])).

(** ** HTTP endpoints (server.js, lines 343-799) *)

Record response := { status : Z; body : value }.

(** [res.json(v)] and [res.status(code).json(v)]. *)
Definition json (v : value) : response := {| status := 200; body := v |}.
Definition statusJson (code : Z) (v : value) : response :=
  {| status := code; body := v |}.

Definition errorBody (msg : string) : value := VObj [(js "error", str msg)].
Arguments errorBody msg%_string.

Inductive endpoint :=
| PostAuthRegister
| PostAuthLogin
| GetAuthLogout
| GetAuthMe
| GetProduct (code : jsstring)
| GetProductReviews (code : jsstring)
| GetCart
| PostCartAdd
| PostCartRemove
| PostCartUpdate
| PostSearch
| PostOrdersCreate
| GetOrder (orderId : jsstring)
| GetOrders.

Definition endpoint_eq_dec (a b : endpoint) : {a = b} + {a <> b}.
Proof. decide equality; apply jsstring_eq_dec. Defined.

(** A request: the session it belongs to (the session cookie), the
    route, and the parsed JSON body ([{}] when there is none). *)
Record request := { sid : jsstring; route : endpoint; reqBody : value }.

(** [req.session]: express-session hands every request a session
    object, a fresh one when the store has none for the cookie. *)
Definition sessionOf (sid : jsstring) (w : world) : session :=
  match JsMap.get str_eqb sid (sessions w) with
  | Some s => s
  | None => Session.empty
  end.

Definition getSession (sid : jsstring) : M session :=
  gets (sessionOf sid).

Definition setSession (sid : jsstring) (s : session) : M unit :=
  modify (withSessions (JsMap.set str_eqb sid s)).

(** [req.session.destroy()]. *)
Definition destroySession (sid : jsstring) : M unit :=
  modify (withSessions (JsMap.delete str_eqb sid)).

(** Lines 40-45. *)
Definition requireAuth (req : request) (next : M response) : M response :=
  s <- getSession (sid req) ;;
  if negb (truthy (Session.userId s)) then
    ret (statusJson 401 (errorBody "Authentication required"))
  else next.

(** [Array.from(users.values()).find(u => u.id === req.session.userId)]. *)
Definition findUser (userId : value) (us : jsmap value user) : option user :=
  find (fun u => strictEq (VStr (User.id u)) userId) (JsMap.values us).

(** Lines 348-378. *)
Definition postAuthRegister (env : Env) (req : request) : M response :=
  let email := field (js "email") (reqBody req) in
  let password := field (js "password") (reqBody req) in
  let firstName := field (js "firstName") (reqBody req) in
  let lastName := field (js "lastName") (reqBody req) in
  if negb (truthy email) || negb (truthy password) then
    ret (statusJson 400 (errorBody "Email and password required"))
  else
    us <- gets users ;;
    if JsMap.has sameValueZero email us then
      ret (statusJson 409 (errorBody "User already exists"))
    else
      userId <- call_randomUUID env ;;
      now <- call_newDate env ;;
      modify (withUsers (JsMap.set sameValueZero email
                {| User.id := userId; User.email := email;
                   User.password := password;
                   User.firstName := orElse firstName (str "");
                   User.lastName := orElse lastName (str "");
                   User.createdAt := now |})) ;;;
      s <- getSession (sid req) ;;
      setSession (sid req)
        {| Session.userId := VStr userId; Session.email := email;
           Session.cartGuid := Session.cartGuid s |} ;;;
      ret (json (VObj [(js "success", VBool true);
                       (js "message", str "Registration successful");
                       (js "userId", VStr userId);
                       (js "user", VObj [(js "email", email);
                                         (js "firstName", firstName);
                                         (js "lastName", lastName)])])).

(** Lines 380-401. *)
Definition postAuthLogin (env : Env) (req : request) : M response :=
  let email := field (js "email") (reqBody req) in
  let password := field (js "password") (reqBody req) in
  if negb (truthy email) || negb (truthy password) then
    ret (statusJson 400 (errorBody "Email and password required"))
  else
    us <- gets users ;;
    match JsMap.get sameValueZero email us with
    | Some u =>
        if negb (strictEq (User.password u) password) then
          ret (statusJson 401 (errorBody "Invalid credentials"))
        else
          s <- getSession (sid req) ;;
          setSession (sid req)
            {| Session.userId := VStr (User.id u); Session.email := email;
               Session.cartGuid := Session.cartGuid s |} ;;;
          ret (json (VObj [(js "success", VBool true);
                           (js "message", str "Login successful");
                           (js "userId", VStr (User.id u));
                           (js "user", VObj [(js "email", User.email u);
                                             (js "firstName", User.firstName u);
                                             (js "lastName", User.lastName u)])]))
    | None => ret (statusJson 401 (errorBody "Invalid credentials"))
    end.

(** Lines 403-406. *)
Definition getAuthLogout (req : request) : M response :=
  destroySession (sid req) ;;;
  ret (json (VObj [(js "success", VBool true); (js "message", str "Logged out")])).

(** Lines 408-424. *)
Definition getAuthMe (req : request) : M response :=
  s <- getSession (sid req) ;;
  if negb (truthy (Session.userId s)) then
    ret (statusJson 401 (errorBody "Not authenticated"))
  else
    us <- gets users ;;
    match findUser (Session.userId s) us with
    | None => ret (statusJson 404 (errorBody "User not found"))
    | Some u =>
        ret (json (VObj [(js "userId", VStr (User.id u));
                         (js "email", User.email u);
                         (js "firstName", User.firstName u);
                         (js "lastName", User.lastName u)]))
    end.

(** Lines 427-443. *)
Definition getProduct (env : Env) (code : jsstring) : M response :=
  tryCatch
    (data <- call_axios env
               {| method := GET;
                  url := occ env (js "/products/" +++ code);
                  params := VObj [(js "fields",
                    str "DEFAULT,images(FULL),price(FULL),stock(FULL),description,reviews,averageRating")];
                  payload := VUndefined |} ;;
     ret (json data))
    (fun error => ret (statusJson 500 (errorBody "Failed to fetch product details"))).

(** Lines 446-469. *)
Definition getProductReviews (env : Env) (code : jsstring) : M response :=
  tryCatch
    (data <- call_axios env (reviewsRequest env code) ;;
     let reviews := orElse (optProp data (js "reviews")) (VArr []) in
     summary <- lift (reviewsSummary env reviews) ;;
     ret (json (VObj [(js "reviews", reviews); (js "reviewsSummary", summary)])))
    (fun error => ret (statusJson 500 (errorBody "Failed to fetch product reviews"))).

(** *** Cart endpoints *)

Definition cartFields : jsstring :=
  js "DEFAULT,entries(totalPrice(formattedValue),product(images(FULL),stock(FULL),name),basePrice(formattedValue,value),quantity),totalPrice(formattedValue),totalItems,totalPriceWithTax(formattedValue),totalDiscounts(value,formattedValue),subTotal(formattedValue),totalUnitCount,deliveryItemsQuantity,deliveryCost(formattedValue),totalTax(formattedValue,value),pickupItemsQuantity,net,appliedVouchers,productDiscounts(formattedValue),user,appliedOrderPromotions,appliedProductPromotions,potentialOrderPromotions,potentialProductPromotions".

Definition cartParams : value :=
  VObj [(js "fields", VStr cartFields); (js "lang", str "en"); (js "curr", str "USD")].

(** [`${BASE}/${SITE}/users/anonymous/carts/${cartGuid}`]. *)
Definition cartUrl (env : Env) (cartGuid : value) : jsstring :=
  occ env (js "/users/anonymous/carts/" +++ templ env cartGuid).

Definition createCartRequest (env : Env) : httpRequest :=
  {| method := POST; url := occ env (js "/users/anonymous/carts");
     params := cartParams; payload := VObj [] |}.

Definition fetchCartRequest (env : Env) (cartGuid : value) : httpRequest :=
  {| method := GET; url := cartUrl env cartGuid;
     params := cartParams; payload := VUndefined |}.

Definition addEntryRequest (env : Env) (cartGuid productCode quantity : value)
  : httpRequest :=
  {| method := POST; url := cartUrl env cartGuid +++ js "/entries";
     params := langCurr;
     payload := VObj [(js "product", VObj [(js "code", productCode)]);
                      (js "quantity", quantity)] |}.

Definition removeEntryRequest (env : Env) (cartGuid itemId : value) : httpRequest :=
  {| method := DELETE;
     url := cartUrl env cartGuid +++ js "/entries/" +++ templ env itemId;
     params := langCurr; payload := VUndefined |}.

Definition updateEntryRequest (env : Env) (cartGuid itemId quantity : value)
  : httpRequest :=
  {| method := PATCH;
     url := cartUrl env cartGuid +++ js "/entries/" +++ templ env itemId;
     params := langCurr; payload := VObj [(js "quantity", quantity)] |}.

(** One element of [(data.entries || []).map(entry => ({ ... }))]. *)
Definition cartItem (env : Env) (entry : value) : outcome value :=
  obind (getProp entry (js "entryNumber")) (fun entryNumber =>
  obind (getProp (optProp entry (js "product")) (js "code")) (fun code =>
  obind (getProp (optProp entry (js "product")) (js "name")) (fun name =>
  Ok (VObj [(js "id", entryNumber);
            (js "productCode", code);
            (js "productName", name);
            (js "price",
             VNum (parseFloat env
                     (orElse (optProp (optProp entry (js "basePrice")) (js "value"))
                             (VNum 0%float))));
            (js "quantity", optProp entry (js "quantity"));
            (js "totalPrice",
             optProp (optProp entry (js "totalPrice")) (js "formattedValue"))])))).

(** The cart object sent to the browser, built from the platform's
    cart document (lines 488-503, 562-577, 619-634, 678-693).  Of the
    property names read in this file only [entries] names something an
    array inherits: there [data.entries] is a function, which is truthy
    and has no [map]. *)
Definition cartView (env : Env) (cartGuid data : value) : outcome value :=
  obind (match data with
         | VArr _ => Throw (typeError "map is not a function")
         | _ => getProp data (js "entries")
         end) (fun entries =>
  obind (arrayOf (orElse entries (VArr []))) (fun l =>
  obind (omap (cartItem env) l) (fun items =>
  Ok (VObj [(js "guid", cartGuid);
            (js "items", VArr items);
            (js "total",
             VNum (parseFloat env
                     (orElse (optProp (optProp data (js "subTotal")) (js "value"))
                             (VNum 0%float))));
            (js "subtotal",
             optProp (optProp data (js "subTotal")) (js "formattedValue"));
            (js "tax",
             optProp (optProp data (js "totalTax")) (js "formattedValue"));
            (js "totalPrice",
             optProp (optProp data (js "totalPrice")) (js "formattedValue"));
            (js "totalItems", optProp data (js "totalItems"))])))).

Definition emptyCart : value :=
  VObj [(js "items", VArr []); (js "total", VNum 0%float); (js "guid", VNull)].

(** Lines 472-508. *)
Definition getCart (env : Env) (req : request) : M response :=
  tryCatch
    (s <- getSession (sid req) ;;
     let cartGuid := Session.cartGuid s in
     if negb (truthy cartGuid) then ret (json emptyCart)
     else
       data <- call_axios env (fetchCartRequest env cartGuid) ;;
       cart <- lift (cartView env cartGuid data) ;;
       ret (json cart))
    (fun error => ret (json emptyCart)).

(** [v?.[0]]. *)
Definition optFirst (v : value) : value :=
  match getFirst v with
  | Ok x => x
  | Throw _ => VUndefined
  end.

(** [error.response?.data?.errors?.[0]?.message || error.message]. *)
Definition errorDetails (error : jserror) : value :=
  orElse (optProp (optFirst (optProp (responseData error) (js "errors")))
                  (js "message"))
         (VStr (message error)).

Definition cartFailure (msg : string) (error : jserror) : response :=
  statusJson 500 (VObj [(js "error", str msg); (js "details", errorDetails error)]).
Arguments cartFailure msg%_string error.

Definition cartSuccess (msg : string) (cart : value) : response :=
  json (VObj [(js "success", VBool true); (js "message", str msg); (js "cart", cart)]).
Arguments cartSuccess msg%_string cart.

(** Lines 510-591. *)
Definition postCartAdd (env : Env) (req : request) : M response :=
  let productCode := field (js "productCode") (reqBody req) in
  let quantity := field (js "quantity") (reqBody req) in
  if negb (truthy productCode) || negb (truthy quantity) then
    ret (statusJson 400 (errorBody "Product code and quantity required"))
  else
    tryCatch
      (s <- getSession (sid req) ;;
       cartGuid <-
         (if negb (truthy (Session.cartGuid s)) then
            created <- call_axios env (createCartRequest env) ;;
            guid <- lift (getProp created (js "guid")) ;;
            setSession (sid req)
              {| Session.userId := Session.userId s;
                 Session.email := Session.email s;
                 Session.cartGuid := guid |} ;;;
            ret guid
          else ret (Session.cartGuid s)) ;;
       added <- call_axios env (addEntryRequest env cartGuid productCode quantity) ;;
       (* the log line reads [entryResponse.data.entry?.entryNumber] *)
       _ <- lift (getProp added (js "entry")) ;;
       data <- call_axios env (fetchCartRequest env cartGuid) ;;
       cart <- lift (cartView env cartGuid data) ;;
       ret (cartSuccess "Item added to cart" cart))
      (fun error => ret (cartFailure "Failed to add item to cart" error)).

(** Lines 593-648. *)
Definition postCartRemove (env : Env) (req : request) : M response :=
  let itemId := field (js "itemId") (reqBody req) in
  s <- getSession (sid req) ;;
  let cartGuid := Session.cartGuid s in
  if negb (truthy cartGuid) then
    ret (statusJson 400 (errorBody "No cart found"))
  else
    tryCatch
      (_ <- call_axios env (removeEntryRequest env cartGuid itemId) ;;
       data <- call_axios env (fetchCartRequest env cartGuid) ;;
       cart <- lift (cartView env cartGuid data) ;;
       ret (cartSuccess "Item removed from cart" cart))
      (fun error => ret (cartFailure "Failed to remove item from cart" error)).

(** Lines 650-707. *)
Definition postCartUpdate (env : Env) (req : request) : M response :=
  let itemId := field (js "itemId") (reqBody req) in
  let quantity := field (js "quantity") (reqBody req) in
  s <- getSession (sid req) ;;
  let cartGuid := Session.cartGuid s in
  if negb (truthy cartGuid) then
    ret (statusJson 400 (errorBody "No cart found"))
  else
    tryCatch
      (_ <- call_axios env (updateEntryRequest env cartGuid itemId quantity) ;;
       data <- call_axios env (fetchCartRequest env cartGuid) ;;
       cart <- lift (cartView env cartGuid data) ;;
       ret (cartSuccess "Cart updated" cart))
      (fun error => ret (cartFailure "Failed to update cart" error)).

(** Lines 710-726. *)
Definition postSearch (env : Env) (req : request) : M response :=
  let query := field (js "query") (reqBody req) in
  if negb (truthy query) then
    ret (statusJson 400 (errorBody "Query is required"))
  else
    match query with
    | VStr q =>
        if str_eqb (trim q) [] then
          ret (statusJson 400 (errorBody "Query is required"))
        else
          tryCatch
            (result <- runAgent env q ;; ret (json result))
            (fun error =>
               ret (statusJson 500
                      (VObj [(js "error", VStr (message error));
                             (js "response",
                              str "An error occurred while processing your request")])))
    | _ => throw (typeError "query.trim is not a function")
    end.

(** *** Checkout and orders *)

(** Lines 729-774. *)
Definition postOrdersCreate (env : Env) (req : request) : M response :=
  requireAuth req
    (let shippingAddress := field (js "shippingAddress") (reqBody req) in
     let billingAddress := field (js "billingAddress") (reqBody req) in
     let paymentMethod := field (js "paymentMethod") (reqBody req) in
     s <- getSession (sid req) ;;
     cs <- gets carts ;;
     match JsMap.get sameValueZero (Session.userId s) cs with
     | None => ret (statusJson 400 (errorBody "Cart is empty"))
     | Some cart =>
         match Cart.items cart with
         | [] => ret (statusJson 400 (errorBody "Cart is empty"))
         | _ :: _ =>
             if negb (truthy shippingAddress) || negb (truthy billingAddress) then
               ret (statusJson 400
                      (errorBody "Shipping and billing addresses required"))
             else
               modify (withOrderCounter Z.succ) ;;;
               n <- gets orderCounter ;;
               let orderId := js "ORD-" +++ toStringNat n in
               us <- gets users ;;
               match findUser (Session.userId s) us with
               | None => throw (typeError "Cannot read properties of undefined")
               | Some u =>
                   createdAt <- call_newDate env ;;
                   updatedAt <- call_newDate env ;;
                   let subtotal := Cart.total cart in
                   let tax :=
                     (Math_round env (Cart.total cart * 0.08 * 100) / 100)%float in
                   let shipping :=
                     (if 100 <? Cart.total cart then 0 else 10)%float in
                   let order :=
                     VObj [(js "id", VStr orderId);
                           (js "userId", Session.userId s);
                           (js "userEmail", User.email u);
                           (js "userName",
                            VStr (templ env (User.firstName u) +++ js " "
                                  +++ templ env (User.lastName u)));
                           (js "items", VArr (Cart.items cart));
                           (js "subtotal", VNum subtotal);
                           (js "tax", VNum tax);
                           (js "shipping", VNum shipping);
                           (js "total", VNum (subtotal + tax + shipping)%float);
                           (js "shippingAddress", shippingAddress);
                           (js "billingAddress", billingAddress);
                           (js "paymentMethod", paymentMethod);
                           (js "status", str "PENDING");
                           (js "createdAt", createdAt);
                           (js "updatedAt", updatedAt)] in
                   modify (withOrders (JsMap.set str_eqb orderId order)) ;;;
                   modify (withCarts (JsMap.delete sameValueZero (Session.userId s))) ;;;
                   ret (json (VObj [(js "success", VBool true);
                                    (js "message", str "Order created successfully");
                                    (js "orderId", VStr orderId);
                                    (js "order", order)]))
               end
         end
     end).

(** Lines 776-788. *)
Definition getOrder (req : request) (orderId : jsstring) : M response :=
  requireAuth req
    (os <- gets orders ;;
     match JsMap.get str_eqb orderId os with
     | None => ret (statusJson 404 (errorBody "Order not found"))
     | Some order =>
         s <- getSession (sid req) ;;
         if negb (strictEq (optProp order (js "userId")) (Session.userId s)) then
           ret (statusJson 403 (errorBody "Unauthorized"))
         else ret (json order)
     end).

(** Lines 790-799. *)
Definition getOrders (env : Env) (req : request) : M response :=
  requireAuth req
    (os <- gets orders ;;
     s <- getSession (sid req) ;;
     let userOrders :=
       filter (fun order => strictEq (optProp order (js "userId")) (Session.userId s))
              (JsMap.values os) in
     ret (json (VObj [(js "orders", VArr userOrders);
                      (js "total", VNum (ofLength env (length userOrders)))]))).

(** *** The server *)

Definition handler (env : Env) (req : request) : M response :=
  match route req with
  | PostAuthRegister => postAuthRegister env req
  | PostAuthLogin => postAuthLogin env req
  | GetAuthLogout => getAuthLogout req
  | GetAuthMe => getAuthMe req
  | GetProduct code => getProduct env code
  | GetProductReviews code => getProductReviews env code
  | GetCart => getCart env req
  | PostCartAdd => postCartAdd env req
  | PostCartRemove => postCartRemove env req
  | PostCartUpdate => postCartUpdate env req
  | PostSearch => postSearch env req
  | PostOrdersCreate => postOrdersCreate env req
  | GetOrder orderId => getOrder req orderId
  | GetOrders => getOrders env req
  end.

(** One request, served from start to finish.  An exception that
    leaves a handler is answered by the framework with status 500. *)
Definition handle (env : Env) (req : request) (w : world) : response * world :=
  match handler env req w with
  | (Ok r, w') => (r, w')
  | (Throw e, w') => (statusJson 500 VUndefined, w')
  end.

(** A run of the server: the requests are served one after another. *)
Definition serve (env : Env) (reqs : list request) (w : world) : world :=
  fold_left (fun w r => snd (handle env r w)) reqs w.

Close Scope js_scope.

(** ** Notions used in the statements and proofs *)

(** A specification-level float of a given sign that is not NaN. *)
Definition sf_signed (s : bool) (x : spec_float) : Prop :=
  match x with
  | S754_nan => False
  | S754_zero s' | S754_infinity s' | S754_finite s' _ _ => s' = s
  end.

(** A key that orders the floats other than NaN as [SFcompare] does. *)
Definition orderKey (x : spec_float) : Z * (Z * Z) :=
  match x with
  | S754_nan => (3, (0, 0))
  | S754_infinity true => (-2, (0, 0))
  | S754_infinity false => (2, (0, 0))
  | S754_zero _ => (0, (0, 0))
  | S754_finite true m e => (-1, (- e, - Z.pos m))
  | S754_finite false m e => (1, (e, Z.pos m))
  end.

Definition lexlt (p q : Z * (Z * Z)) : Prop :=
  fst p < fst q \/
  (fst p = fst q /\
   (fst (snd p) < fst (snd q) \/
    (fst (snd p) = fst (snd q) /\ snd (snd p) < snd (snd q)))).

Definition lexle (p q : Z * (Z * Z)) : Prop :=
  fst p < fst q \/
  (fst p = fst q /\
   (fst (snd p) < fst (snd q) \/
    (fst (snd p) = fst (snd q) /\ snd (snd p) <= snd (snd q)))).

(** The signed mantissa of a finite float at a common exponent. *)
Definition aligned (s : bool) (m : positive) (e ez : Z) : Z :=
  cond_Zopp s (Z.pos (fst (shl_align m e ez))).

(** [y] is at most [x]: the order of a list sorted by descending score. *)
Definition fge (x y : float) : Prop := (y <=? x)%float = true.

(** A candidate with its score, and the comparator of the ranking read
    on such pairs. *)
Definition scoreOrder (a b : obj * float) : float := (snd b - snd a)%float.

Definition scoreKey : jsstring := js "similarityScore".

Definition hasKey (k : jsstring) (o : obj) : Prop := In k (JsMap.keys o).

Definition connectionError : jsstring := js "Error connecting to SAP Commerce Cloud.".
Definition noProducts : jsstring := js "No products found.".

Definition stamps (g : gcache) : list nat := map (fun kv => born (snd kv)) g.

(** The stamped cache of a reachable state: stamps grow along the
    entries, all lie in the past, and keys are distinct. *)
Record ginv (clock : nat) (g : gcache) : Prop := {
  ginv_sorted : StronglySorted lt (stamps g);
  ginv_past : Forall (fun n => n < clock)%nat (stamps g);
  ginv_nodup : NoDup (JsMap.keys g)
}.

(** *** What a computation may change *)

(** Every run of [m] relates the state before to the state after. *)
Definition effect {A} (R : world -> world -> Prop) (m : M A) : Prop :=
  forall w, R w (snd (m w)).

(** Only the embedding cache and the log differ. *)
Definition inside (w w' : world) : Prop :=
  users w' = users w /\ carts w' = carts w /\ orders w' = orders w /\
  orderCounter w' = orderCounter w /\ sessions w' = sessions w.

(** The log grew by events that all satisfy [P]. *)
Definition logGrows (P : event -> Prop) (w w' : world) : Prop :=
  exists evs, log w' = (log w ++ evs)%list /\ Forall P evs.

Definition isEmbed (ev : event) : Prop :=
  match ev with EvEmbed _ => True | _ => False end.

(** An HTTP call whose URL starts with [prefix]. *)
Definition addresses (prefix : jsstring) (ev : event) : Prop :=
  match ev with
  | EvHttp r => exists rest, url r = (prefix ++ rest)%list
  | _ => False
  end.

(** ** A concrete environment for examples

    The platform answers a product search with [searchData], creates
    carts with guid ["cart-1"], and the language model always answers
    [answer].  Texts embed as [[length; 1]], the text ["camera"] as
    [[1; 0]], and ["broken"] cannot be embedded. *)

Definition demoLength (n : nat) : float :=
  PrimFloat.of_uint63 (Uint63.of_Z (Z.of_nat n)).

Definition endsWith (suffix s : jsstring) : bool :=
  match startsWith (rev suffix) (rev s) with
  | Some _ => true
  | None => false
  end.

Definition demoAxios (searchData : value) (r : httpRequest) : outcome value :=
  match method r with
  | GET =>
      if endsWith (js "/products/search") (url r) then Ok searchData
      else if endsWith (js "/reviews") (url r) then
        Ok (VObj [(js "reviews", VArr [VObj [(js "rating", VNum 4%float)]])])
      else Ok (VObj [(js "entries", VArr [])])
  | POST =>
      if endsWith (js "/carts") (url r) then Ok (VObj [(js "guid", str "cart-1")])
      else Ok (VObj [(js "entry", VObj [(js "entryNumber", VNum 0%float)])])
  | _ => Ok (VObj [])
  end.

Definition demoAnswer (answer : jsstring) : value :=
  VObj [(js "candidates",
         VArr [VObj [(js "content",
                      VObj [(js "parts",
                             VArr [VObj [(js "text", VStr answer)]])])]])].

Definition demoCodes (v : value) : jsstring :=
  match v with
  | VArr l =>
      concat (map (fun p => match optProp p (js "code") with
                            | VStr c => (c ++ js ";")%list
                            | _ => js "?;"
                            end) l)
  | _ => []
  end.

Definition demoEnv (searchData : value) (answer : jsstring) : Env :=
  {| SAP_OCC_BASE_URL := js "https://occ.example/v2";
     SAP_SITE_ID := js "electronics";
     GEMINI_MODEL := js "gemini-2.5-flash-lite";
     axios := fun _ r => demoAxios searchData r;
     embedContent := fun _ text =>
       if str_eqb text (js "broken") then Throw (typeError "embedding failed")
       else if str_eqb text (js "camera") then Ok (Some [1; 0]%float)
       else Ok (Some [demoLength (length text); 1%float]);
     generateContent := fun _ _ => Ok (demoAnswer answer);
     randomUUID := fun l => (js "uuid-" ++ toStringNat (Z.of_nat (length l)))%list;
     newDate := fun l => VNum (demoLength (length l));
     charCodeOfBig := fun _ => 0;
     JSON_stringify := fun v => (js "[" ++ demoCodes v ++ js "]")%list;
     JSON_parse := fun s =>
       match s with
       | 91 :: _ => Ok (VArr [])
       | _ => Throw (typeError "Unexpected token")
       end;
     toStringOther := fun _ => js "?";
     toNumberOther := fun _ => nan;
     addOther := fun _ _ => VUndefined;
     parseFloat := fun v => match v with VNum n => n | _ => nan end;
     Math_round := fun x => x;
     ofLength := demoLength |}.

Definition demoProduct (code name description : string) : value :=
  VObj [(js "code", str code); (js "name", str name);
        (js "description", str description)].
Arguments demoProduct (code name description)%_string.

Definition demoCatalog : value :=
  VObj [(js "products",
         VArr [demoProduct "P1" "Lens" "50mm";
               demoProduct "P2" "Tripod" "carbon, light";
               demoProduct "P3" "Bag" "";
               demoProduct "P4" "Camera body" "full frame, 24MP"])].

Definition demoRequest (route : endpoint) (body : obj) : request :=
  {| sid := js "s1"; route := route; reqBody := VObj body |}.

(** The shop's own records are untouched. *)
Definition sameShop (w w' : world) : Prop :=
  carts w' = carts w /\ orders w' = orders w.

(** The session [sid] keeps the cart handle [g]. *)
Definition keepsCart (sid : jsstring) (g : value) (w w' : world) : Prop :=
  Session.cartGuid (sessionOf sid w) = g ->
  Session.cartGuid (sessionOf sid w') = g.

Definition demoTagged : jsstring :=
  js "[SEARCH: camera] see [VIEW: 300938] and [REVIEWS:  300938 ] too".

Definition demoRegister : request :=
  demoRequest PostAuthRegister
    [(js "email", str "ada@example.org"); (js "password", str "secret")].

Definition demoAdd : request :=
  demoRequest PostCartAdd
    [(js "productCode", str "P1"); (js "quantity", VNum 1%float)].

Definition sameSessions (w w' : world) : Prop := sessions w' = sessions w.

(** [n] distinct texts stored one after another. *)
Definition fillCache (n : nat) : list cacheOp :=
  map (fun i => OpSet (toStringNat (Z.of_nat i)) []) (seq 0 n).

(** The endpoints that never write a session. *)
Definition leavesSessions (r : endpoint) : bool :=
  match r with
  | PostAuthRegister | PostAuthLogin | GetAuthLogout | PostCartAdd => false
  | _ => true
  end.

(** What [response.embedding?.values || []] and the [catch] make of an
    answer of the embedding service. *)
Definition settled (r : outcome (option embedding)) : embedding :=
  match r with
  | Ok (Some vs) => vs
  | _ => []
  end.

(** [e] is the embedding [getEmbedding] gives for [text] against the
    cache [c]: the entry under the key of [text] when there is one,
    otherwise what the service answered when asked for [text]. *)
Definition embeddingFor (env : Env) (c : cache) (text : jsstring)
    (e : embedding) : Prop :=
  match getCachedEmbedding text c with
  | Some cached => e = cached
  | None => exists asked, e = settled (embedContent env asked text)
  end.

(** No ['<'] of [s] is followed, however far, by a ['>']: [s] holds no
    complete tag. *)
Definition tagFree (s : jsstring) : Prop :=
  forall before after, s = (before ++ 60 :: after)%list -> ~ In 62 after.


(** Every write of [ops] stores an embedding that is not empty. *)
Definition nonemptySets (ops : list cacheOp) : Prop :=
  Forall (fun op => match op with
                    | OpSet _ e => e <> []
                    | OpGet _ => True
                    end) ops.

(** The cache of [w'] is the cache of [w] after some writes of
    embeddings that are not empty. *)
Definition cacheRuns (w w' : world) : Prop :=
  exists ops,
    embeddingCache w' = runOps ops (embeddingCache w) /\ nonemptySets ops.

(** [text] has no entry in the cache [c]. *)
Definition isMiss (c : cache) (text : jsstring) : bool :=
  match getCachedEmbedding text c with
  | Some _ => false
  | None => true
  end.


(** A catalog whose platform order is already the order of the scores
    for the query ["camera"]. *)
Definition demoRankedCatalog : value :=
  VObj [(js "products",
         VArr [demoProduct "P4" "Camera body" "full frame, 24MP";
               demoProduct "P2" "Tripod" "carbon, light";
               demoProduct "P1" "Lens" "50mm";
               demoProduct "P3" "Bag" ""])].


(** The text of a directive, [[TAG: g]]. *)
Definition tagged (tag g : jsstring) : jsstring :=
  ((js "[" ++ tag ++ js ": ") ++ g ++ js "]")%list.

(** The object [runAgent] returns from its outer [catch]. *)
Definition errorReply (error : jserror) : value :=
  VObj [(js "response", VStr (js "Error: " ++ message error)%list);
        (js "searched", VBool false);
        (js "products", VArr []);
        (js "error", VBool true)].


(** *** What a computation may answer *)

(** Whatever the state, a result of [m] satisfies [P]; [m] may throw
    only where [onThrow] holds. *)
Definition answers {A} (P : A -> Prop) (onThrow : Prop) (m : M A) : Prop :=
  forall w,
    match fst (m w) with
    | Ok r => P r
    | Throw _ => onThrow
    end.

(** The status codes each endpoint answers with: those written in its
    handler and, where an exception can leave the handler, the 500 of
    the framework. *)
Definition statusesOf (r : endpoint) : list Z :=
  match r with
  | PostAuthRegister => [200; 400; 409]
  | PostAuthLogin => [200; 400; 401]
  | GetAuthLogout => [200]
  | GetAuthMe => [200; 401; 404]
  | GetProduct _ => [200; 500]
  | GetProductReviews _ => [200; 500]
  | GetCart => [200]
  | PostCartAdd => [200; 400; 500]
  | PostCartRemove => [200; 400; 500]
  | PostCartUpdate => [200; 400; 500]
  | PostSearch => [200; 400; 500]
  | PostOrdersCreate => [200; 400; 401; 500]
  | GetOrder _ => [200; 401; 403; 404]
  | GetOrders => [200; 401]
  end.

Definition demoSearch (query : value) : request :=
  {| sid := js "s1"; route := PostSearch;
     reqBody := VObj [(js "query", query)] |}.

(** The session [me] reads the same in [w'] as in [w]. *)
Definition keepsSession (me : jsstring) (w w' : world) : Prop :=
  sessionOf me w' = sessionOf me w.


(** The account [u] stays on record under [email]. *)
Definition keepsAccount (email : value) (u : user) (w w' : world) : Prop :=
  JsMap.get sameValueZero email (users w) = Some u ->
  JsMap.get sameValueZero email (users w') = Some u.

Definition sameUsers (w w' : world) : Prop := users w' = users w.

Definition demoLogin (session : string) (password : string) : request :=
  {| sid := js session; route := PostAuthLogin;
     reqBody := VObj [(js "email", str "ada@example.org");
                      (js "password", str password)] |}.
Arguments demoLogin (session password)%_string.


(** The session store keeps one entry per session id. *)
Definition distinctSessions (w w' : world) : Prop :=
  NoDup (JsMap.keys (sessions w)) -> NoDup (JsMap.keys (sessions w')).

Definition demoLogout : request :=
  {| sid := js "s1"; route := GetAuthLogout; reqBody := VObj [] |}.


Definition sameCounter (w w' : world) : Prop := orderCounter w' = orderCounter w.


(** ** The command-line agent: runAgent (the second source file,
    lines 42-87)

    The function returns nothing; what it prints as its answer is taken
    here as its result.  The trace lines of [searchSAPProducts] are
    left out. *)
Module Cli.

Local Open Scope js_scope.

(** [response.candidates[0]?.content?.parts[0]?.text], with no
    default. *)
Definition responseTextRaw (response : value) : outcome value :=
  obind (getProp response (js "candidates")) (fun candidates =>
  obind (getFirst candidates) (fun candidate =>
  if nullish candidate then Ok VUndefined
  else
    let content := optProp candidate (js "content") in
    if nullish content then Ok VUndefined
    else
      obind (getFirst (optProp content (js "parts"))) (fun part =>
      Ok (optProp part (js "text"))))).

(** [hay.includes(needle)]. *)
Fixpoint includes (needle hay : jsstring) : bool :=
  match startsWith needle hay with
  | Some _ => true
  | None =>
      match hay with
      | [] => false
      | _ :: r => includes needle r
      end
  end.

(** What is printed: [console.log("[Agent]:", text)], or
    [console.error("[Error]:", message)], followed by the advice about
    the API key when the message includes ["401"] or ["API"]. *)
Inductive printed :=
| AgentSays (text : value)
| ErrorSays (message : jsstring) (keyAdvice : bool).

Definition runAgent (env : Env) (userInput : jsstring) : M printed :=
  tryCatch
    (response <- call_generateContent env (fullPrompt userInput) ;;
     text <- lift (responseText response) ;;
     match text with
     | VStr assistantResponse =>
         match matchTag SEARCH assistantResponse with
         | Some query =>
             sapResults <- Agent.searchSAPProducts env query ;;
             refinedResponse <-
               call_generateContent env (refinedPrompt userInput sapResults) ;;
             refined <- lift (responseTextRaw refinedResponse) ;;
             ret (AgentSays refined)
         | None => ret (AgentSays (VStr assistantResponse))
         end
     | _ => throw (typeError "assistantResponse.match is not a function")
     end)
    (fun error =>
       ret (ErrorSays (message error)
              (includes (js "401") (message error)
               || includes (js "API") (message error)))).

End Cli.


Definition demoMe (session : string) : request :=
  {| sid := js session; route := GetAuthMe; reqBody := VObj [] |}.
Arguments demoMe session%_string.


(** ** An environment in which a score is not a number

    All embeddings are finite numbers, but the squared norm of the
    second product's embedding overflows, so that its cosine similarity
    is [Infinity / Infinity]. *)
Definition overflowCatalog : value :=
  VObj [(js "products",
         VArr [demoProduct "B" "b" ""; demoProduct "A" "a" "";
               demoProduct "C" "c" ""; demoProduct "D" "d" ""])].

Definition overflowEmbedding (text : jsstring) : embedding :=
  if str_eqb text (js "b ") then [1; 0]%float
  else if str_eqb text (js "a ") then [0x1p1023; 0x1p1023]%float
  else if str_eqb text (js "c ") then [1; 2]%float
  else [1; 1]%float.

Definition overflowEnv : Env :=
  let env := demoEnv overflowCatalog [] in
  {| SAP_OCC_BASE_URL := SAP_OCC_BASE_URL env;
     SAP_SITE_ID := SAP_SITE_ID env;
     GEMINI_MODEL := GEMINI_MODEL env;
     axios := axios env;
     embedContent := fun _ text => Ok (Some (overflowEmbedding text));
     generateContent := generateContent env;
     randomUUID := randomUUID env;
     newDate := newDate env;
     charCodeOfBig := charCodeOfBig env;
     JSON_stringify := JSON_stringify env;
     JSON_parse := JSON_parse env;
     toStringOther := toStringOther env;
     toNumberOther := toNumberOther env;
     addOther := addOther env;
     parseFloat := parseFloat env;
     Math_round := Math_round env;
     ofLength := ofLength env |}.

(* ================================================================== *)
(** * Part II: properties                                               *)
(* ================================================================== *)

(** ** The embedding cache *)

Lemma str_eqb_refl (a : jsstring) : str_eqb a a = true.
Proof. unfold str_eqb. destruct (jsstring_eq_dec a a); congruence. Qed.

Lemma str_eqb_eq (a b : jsstring) : str_eqb a b = true <-> a = b.
Proof.
  unfold str_eqb. destruct (jsstring_eq_dec a b); split; congruence.
Qed.

Lemma str_eqb_neq (a b : jsstring) : str_eqb a b = false <-> a <> b.
Proof.
  unfold str_eqb. destruct (jsstring_eq_dec a b); split; congruence.
Qed.

Example hashText_abc : hashText (js "abc") = js "96354".
Proof. vm_compute. reflexivity. Qed.

Section MapFacts.
Context {V : Type}.
Implicit Types (m : list (jsstring * V)) (k : jsstring) (v : V).

Lemma get_set_same k v m :
  JsMap.get str_eqb k (JsMap.set str_eqb k v m) = Some v.
Proof.
  induction m as [|[k' v'] r IH]; simpl.
  - now rewrite str_eqb_refl.
  - destruct (str_eqb k' k) eqn:E; simpl; rewrite E; auto.
Qed.

Lemma get_set_other k k' v m :
  k' <> k ->
  JsMap.get str_eqb k' (JsMap.set str_eqb k v m) = JsMap.get str_eqb k' m.
Proof.
  intros Hne. induction m as [|[k1 v1] r IH]; simpl.
  - destruct (str_eqb k k') eqn:E; auto.
    apply str_eqb_eq in E. congruence.
  - destruct (str_eqb k1 k) eqn:E; simpl.
    + apply str_eqb_eq in E. subst k1.
      destruct (str_eqb k k') eqn:E'; auto.
      apply str_eqb_eq in E'. congruence.
    + destruct (str_eqb k1 k'); auto.
Qed.

Lemma length_set_le k v m :
  (length (JsMap.set str_eqb k v m) <= S (length m))%nat.
Proof.
  induction m as [|[k' v'] r IH]; simpl; auto.
  destruct (str_eqb k' k); simpl; lia.
Qed.

Lemma keys_set k v m :
  JsMap.keys (JsMap.set str_eqb k v m) =
  if JsMap.has str_eqb k m then JsMap.keys m else JsMap.keys m ++ [k].
Proof.
  unfold JsMap.has, JsMap.keys.
  induction m as [|[k' v'] r IH]; simpl; auto.
  destruct (str_eqb k' k) eqn:E; simpl; auto.
  rewrite IH. destruct (JsMap.get str_eqb k r); reflexivity.
Qed.

Lemma get_None_notin k m :
  JsMap.get str_eqb k m = None <-> ~ In k (JsMap.keys m).
Proof.
  unfold JsMap.keys.
  induction m as [|[k' v'] r IH]; simpl.
  - tauto.
  - destruct (str_eqb k' k) eqn:E.
    + apply str_eqb_eq in E. split; [discriminate | tauto].
    + apply str_eqb_neq in E. rewrite IH. tauto.
Qed.

Lemma delete_head k v m :
  JsMap.delete str_eqb k ((k, v) :: m) = m.
Proof. simpl. now rewrite str_eqb_refl. Qed.

End MapFacts.

Lemma setCachedEmbedding_full t e k0 v0 rest :
  MAX_CACHE_SIZE <= JsMap.size ((k0, v0) :: rest) ->
  setCachedEmbedding t e ((k0, v0) :: rest) =
  JsMap.set str_eqb (hashText t) e rest.
Proof.
  intros H. unfold setCachedEmbedding.
  apply Z.leb_le in H. rewrite H.
  cbn [JsMap.firstKey]. now rewrite delete_head.
Qed.

Lemma setCachedEmbedding_room t e c :
  JsMap.size c < MAX_CACHE_SIZE ->
  setCachedEmbedding t e c = JsMap.set str_eqb (hashText t) e c.
Proof.
  intros H. unfold setCachedEmbedding.
  apply Z.leb_gt in H. now rewrite H.
Qed.

Lemma setCachedEmbedding_bound t e c :
  JsMap.size c <= MAX_CACHE_SIZE ->
  JsMap.size (setCachedEmbedding t e c) <= MAX_CACHE_SIZE.
Proof.
  intros H.
  destruct (Z_lt_le_dec (JsMap.size c) MAX_CACHE_SIZE) as [Hlt|Hge].
  - rewrite setCachedEmbedding_room by assumption.
    unfold JsMap.size in *.
    pose proof (length_set_le (hashText t) e c). lia.
  - destruct c as [|[k0 v0] rest].
    + unfold JsMap.size, MAX_CACHE_SIZE in Hge. simpl in Hge. lia.
    + rewrite setCachedEmbedding_full by assumption.
      unfold JsMap.size in *. simpl length in H.
      pose proof (length_set_le (hashText t) e rest). lia.
Qed.

Lemma runOps_snoc ops op c :
  runOps (ops ++ [op]) c = runOp (runOps ops c) op.
Proof. unfold runOps. now rewrite fold_left_app. Qed.

Lemma runOps_bounded (ops : list cacheOp) :
  JsMap.size (runOps ops embeddingCache_init) <= MAX_CACHE_SIZE.
Proof.
  induction ops as [|op ops IH] using rev_ind.
  - unfold runOps, JsMap.size, MAX_CACHE_SIZE. simpl. lia.
  - rewrite runOps_snoc. destruct op as [t e|t]; simpl.
    + now apply setCachedEmbedding_bound.
    + exact IH.
Qed.

(** C4. Starting from the empty cache, after any sequence of
    [setCachedEmbedding] and [getCachedEmbedding] calls, and hence after
    every prefix of it, the cache holds at most [MAX_CACHE_SIZE = 100]
    entries. *)
Theorem cache_size_bounded (ops : list cacheOp) (n : nat) :
  MAX_CACHE_SIZE = 100 /\
  JsMap.size (runOps (firstn n ops) embeddingCache_init) <= MAX_CACHE_SIZE.
Proof.
  split; [reflexivity|].
  apply runOps_bounded.
Qed.

(** C10. Reading a text back right after storing it returns the stored
    embedding: both operations use the key [hashText t]. *)
Theorem get_after_set (t : jsstring) (e : embedding) (c : cache) :
  getCachedEmbedding t (setCachedEmbedding t e c) = Some e.
Proof.
  unfold getCachedEmbedding, setCachedEmbedding.
  apply get_set_same.
Qed.

(** *** Insertion order *)



Lemma set_absent {V} (k : jsstring) (v : V) m :
  JsMap.get str_eqb k m = None -> JsMap.set str_eqb k v m = m ++ [(k, v)].
Proof.
  induction m as [|[k' v'] r IH]; simpl; auto.
  destruct (str_eqb k' k); [discriminate|].
  intros H. now rewrite IH.
Qed.

Lemma stamps_set_present k e old g :
  JsMap.get str_eqb k g = Some old ->
  stamps (JsMap.set str_eqb k {| born := born old; emb := e |} g) = stamps g.
Proof.
  induction g as [|[k' s'] r IH]; simpl; [discriminate|].
  destruct (str_eqb k' k); simpl.
  - intros [= ->]. reflexivity.
  - intros H. now rewrite IH.
Qed.

Lemma keys_set_present {V} k (v old : V) m :
  JsMap.get str_eqb k m = Some old ->
  JsMap.keys (JsMap.set str_eqb k v m) = JsMap.keys m.
Proof.
  intros H. rewrite keys_set. unfold JsMap.has. now rewrite H.
Qed.

Lemma StronglySorted_snoc (l : list nat) (c : nat) :
  StronglySorted lt l -> Forall (fun n => n < c)%nat l ->
  StronglySorted lt (l ++ [c]).
Proof.
  induction 1 as [|a l Hs IH Ha]; intros Hc; simpl.
  - repeat constructor.
  - inversion Hc; subst. constructor; auto.
    apply Forall_app. split; auto.
Qed.

Lemma ginv_tail clock kv g : ginv clock (kv :: g) -> ginv clock g.
Proof.
  intros [Hs Hp Hn]. simpl in *.
  inversion Hs; inversion Hp; inversion Hn; subst.
  now constructor.
Qed.

Lemma ginv_set clock k e g :
  ginv clock g ->
  ginv (S clock)
    match JsMap.get str_eqb k g with
    | Some old => JsMap.set str_eqb k {| born := born old; emb := e |} g
    | None => JsMap.set str_eqb k {| born := clock; emb := e |} g
    end.
Proof.
  intros [Hs Hp Hn].
  destruct (JsMap.get str_eqb k g) as [old|] eqn:G.
  - constructor.
    + now rewrite (stamps_set_present _ _ _ _ G).
    + rewrite (stamps_set_present _ _ _ _ G).
      eapply Forall_impl; [|exact Hp]. simpl. lia.
    + now rewrite (keys_set_present _ _ _ _ G).
  - rewrite (set_absent _ _ _ G). constructor.
    + unfold stamps. rewrite map_app. simpl.
      now apply StronglySorted_snoc.
    + unfold stamps. rewrite map_app. simpl.
      apply Forall_app. split.
      * eapply Forall_impl; [|exact Hp]. simpl. lia.
      * repeat constructor.
    + unfold JsMap.keys. rewrite map_app. simpl.
      apply NoDup_app.
      * exact Hn.
      * repeat constructor. simpl. tauto.
      * intros x Hx [<-|[]]. now apply get_None_notin in G.
Qed.

Lemma ginv_gset clock t e g :
  ginv clock g -> ginv (S clock) (gset clock t e g).
Proof.
  intros H. unfold gset.
  destruct (MAX_CACHE_SIZE <=? JsMap.size g).
  - destruct g as [|[k0 s0] rest]; simpl JsMap.firstKey; cbv iota.
    + now apply ginv_set.
    + rewrite delete_head. apply ginv_set. eapply ginv_tail; eauto.
  - now apply ginv_set.
Qed.

Lemma grunOps_snoc ops op st :
  grunOps (ops ++ [op]) st = grunOp (grunOps ops st) op.
Proof. unfold grunOps. now rewrite fold_left_app. Qed.

Lemma ginv_reachable ops :
  ginv (fst (grunOps ops (0%nat, []))) (snd (grunOps ops (0%nat, []))).
Proof.
  induction ops as [|op ops IH] using rev_ind.
  - simpl. repeat constructor.
  - rewrite grunOps_snoc. destruct op as [t e|t]; simpl.
    + now apply ginv_gset.
    + exact IH.
Qed.

(** Forgetting the stamps gives the cache the code computes. *)
Lemma erase_set k s g :
  erase (JsMap.set str_eqb k s g) = JsMap.set str_eqb k (emb s) (erase g).
Proof.
  induction g as [|[k' s'] r IH]; simpl; auto.
  destruct (str_eqb k' k); simpl; [reflexivity | now rewrite IH].
Qed.

Lemma erase_delete k g :
  erase (JsMap.delete str_eqb k g) = JsMap.delete str_eqb k (erase g).
Proof.
  induction g as [|[k' s'] r IH]; simpl; auto.
  destruct (str_eqb k' k); simpl; [reflexivity | now rewrite IH].
Qed.

Lemma erase_set_either clock k e g :
  erase match JsMap.get str_eqb k g with
        | Some old => JsMap.set str_eqb k {| born := born old; emb := e |} g
        | None => JsMap.set str_eqb k {| born := clock; emb := e |} g
        end
  = JsMap.set str_eqb k e (erase g).
Proof. destruct (JsMap.get str_eqb k g); now rewrite erase_set. Qed.

Lemma erase_gset clock t e g :
  erase (gset clock t e g) = setCachedEmbedding t e (erase g).
Proof.
  unfold gset, setCachedEmbedding.
  assert (Hsz : JsMap.size (erase g) = JsMap.size g).
  { unfold JsMap.size, erase. now rewrite length_map. }
  rewrite Hsz. cbv zeta.
  destruct (MAX_CACHE_SIZE <=? JsMap.size g).
  - destruct g as [|[k0 s0] r]; simpl JsMap.firstKey; cbv iota.
    + apply erase_set_either.
    + rewrite erase_set_either. now rewrite erase_delete.
  - apply erase_set_either.
Qed.

Lemma erase_grunOps ops :
  erase (snd (grunOps ops (0%nat, []))) = runOps ops embeddingCache_init.
Proof.
  induction ops as [|op ops IH] using rev_ind.
  - reflexivity.
  - rewrite grunOps_snoc, runOps_snoc. destruct op as [t e|t]; simpl.
    + now rewrite erase_gset, IH.
    + exact IH.
Qed.

(** C5. In any cache reached from the empty one, a call of
    [setCachedEmbedding] that finds the cache full removes exactly the
    first entry, whose key is the one that entered the map earliest among
    the keys present, and then writes the new key into what is left;
    reading never changes the order. *)
Theorem eviction_is_insertion_order (ops : list cacheOp) (t : jsstring) (e : embedding) :
  let c := runOps ops embeddingCache_init in
  let g := snd (grunOps ops (0%nat, [])) in
  MAX_CACHE_SIZE <= JsMap.size c ->
  exists k0 s0 rest,
    g = (k0, s0) :: rest /\ c = erase g /\
    JsMap.size c = MAX_CACHE_SIZE /\
    Forall (fun kv => born s0 < born (snd kv))%nat rest /\
    ~ In k0 (JsMap.keys (erase rest)) /\
    setCachedEmbedding t e c = JsMap.set str_eqb (hashText t) e (erase rest) /\
    (forall t', runOp c (OpGet t') = c).
Proof.
  intros c g Hfull.
  assert (Hc : c = erase g) by (symmetry; apply erase_grunOps).
  pose proof (ginv_reachable ops) as [Hs _ Hn]. fold g in Hs, Hn.
  pose proof (runOps_bounded ops) as Hb. fold c in Hb.
  destruct g as [|[k0 s0] rest] eqn:G.
  - rewrite Hc in Hfull. unfold JsMap.size, MAX_CACHE_SIZE in Hfull.
    simpl in Hfull. lia.
  - exists k0, s0, rest. repeat split; auto.
    + lia.
    + simpl in Hs. inversion Hs as [|? ? _ Hall]; subst.
      unfold stamps in Hall. rewrite Forall_map in Hall. exact Hall.
    + simpl in Hn. inversion Hn as [|? ? Hnot _]; subst.
      intros Hin. apply Hnot. unfold JsMap.keys, erase in *.
      rewrite map_map in Hin. simpl in Hin. exact Hin.
    + rewrite Hc. simpl erase. apply setCachedEmbedding_full.
      rewrite Hc in Hfull. exact Hfull.
Qed.

Lemma eviction_is_insertion_order_witness :
  exists k0 s0 rest,
    snd (grunOps (fillCache 100) (0%nat, [])) = (k0, s0) :: rest /\
    Forall (fun kv => born s0 < born (snd kv))%nat rest /\
    setCachedEmbedding (js "new") [] (runOps (fillCache 100) embeddingCache_init)
    = JsMap.set str_eqb (hashText (js "new")) [] (erase rest).
Proof.
  destruct (eviction_is_insertion_order (fillCache 100) (js "new") [])
    as (k0 & s0 & rest & Hg & _ & _ & Hold & _ & Hset & _).
  - vm_compute. discriminate.
  - exists k0, s0, rest. auto.
Defined.

Example eviction_demo :
  JsMap.firstKey (runOps (fillCache 100) embeddingCache_init)
    = Some (hashText (js "0")) /\
  JsMap.firstKey (runOps (fillCache 100 ++ [OpGet (js "0"); OpSet (js "new") []])
                    embeddingCache_init)
    = Some (hashText (js "1")) /\
  JsMap.size (runOps (fillCache 100 ++ [OpSet (js "new") []]) embeddingCache_init)
    = 100.
Proof. repeat split; vm_compute; reflexivity. Qed.

(** ** Floating-point facts

    The primitive operations are specified by [Prim2SF]; the lemmas
    below read off that specification what the ranking needs: squares
    and their sums are never NaN, and the sign of a difference agrees
    with the order of its operands. *)

Lemma iter_pos_inv {A} (P : A -> Prop) (f : A -> A) :
  (forall x, P x -> P (f x)) -> forall n x, P x -> P (iter_pos f n x).
Proof. intros Hf. induction n; simpl; auto. Qed.

Lemma shr_1_nonneg r : 0 <= shr_m r -> 0 <= shr_m (shr_1 r).
Proof.
  destruct r as [m r s]. simpl.
  destruct m as [|[p|p|]|p]; simpl; lia.
Qed.

Lemma shr_nonneg r e n : 0 <= shr_m r -> 0 <= shr_m (fst (shr r e n)).
Proof.
  intros H. destruct n; simpl; auto.
  apply iter_pos_inv; auto using shr_1_nonneg.
Qed.

Lemma shr_fexp_nonneg m e l :
  0 <= m -> 0 <= shr_m (fst (shr_fexp prec emax m e l)).
Proof.
  intros H. unfold shr_fexp. apply shr_nonneg.
  destruct l as [|[]]; simpl; auto.
Qed.

Lemma round_nearest_even_nonneg m l : 0 <= m -> 0 <= round_nearest_even m l.
Proof.
  intros H. destruct l as [|[]]; simpl; try lia.
  destruct (Z.even m); lia.
Qed.

Lemma binary_round_aux_signed s m e l :
  0 <= m -> sf_signed s (binary_round_aux prec emax s m e l).
Proof.
  intros H. unfold binary_round_aux.
  pose proof (shr_fexp_nonneg m e l H) as H1.
  destruct (shr_fexp prec emax m e l) as [mrs' e'] eqn:E1. simpl in H1.
  pose proof (shr_fexp_nonneg _ e' loc_Exact
                (round_nearest_even_nonneg _ (loc_of_shr_record mrs') H1)) as H2.
  destruct (shr_fexp prec emax _ e' loc_Exact) as [mrs'' e''] eqn:E2. simpl in H2.
  destruct (shr_m mrs''); simpl; auto; try lia.
  destruct (_ <=? _); simpl; auto.
Qed.

Lemma binary_round_signed s m e : sf_signed s (binary_round prec emax s m e).
Proof.
  unfold binary_round.
  destruct (shl_align m e _) as [mz ez].
  apply binary_round_aux_signed. lia.
Qed.

Lemma SFmul_square x : x <> S754_nan -> sf_signed false (SF64mul x x).
Proof.
  destruct x as [s|s| |s m e]; simpl; intros H; try congruence;
    try (now destruct s).
  replace false with (xorb s s) by (now destruct s).
  apply binary_round_aux_signed. lia.
Qed.

Lemma SFadd_nonneg x y :
  sf_signed false x -> sf_signed false y -> sf_signed false (SF64add x y).
Proof.
  destruct x as [sx|sx| |sx mx ex], y as [sy|sy| |sy my ey]; simpl;
    intros Hx Hy; subst; simpl; auto.
  unfold cond_Zopp. simpl.
  apply binary_round_signed.
Qed.

Lemma SFsqrt_nonneg x : sf_signed false x -> sf_signed false (SF64sqrt x).
Proof.
  destruct x as [s|s| |s m e]; simpl; intros H; subst; simpl; auto.
  unfold SF64sqrt, SFsqrt.
  destruct (SFsqrt_core_binary prec emax (Z.pos m) e) as [[mz ez] lz] eqn:E.
  apply binary_round_aux_signed.
  unfold SFsqrt_core_binary in E.
  destruct (Z.sqrtrem _) as [q r] eqn:Q in E.
  injection E as <- _ _.
  match type of Q with Z.sqrtrem ?m = _ =>
    pose proof (Z.sqrtrem_sqrt m) as Hq; rewrite Q in Hq; simpl in Hq;
    rewrite Hq; apply Z.sqrt_nonneg end.
Qed.

Lemma is_nan_spec x :
  is_nan x = match Prim2SF x with S754_nan => true | _ => false end.
Proof.
  unfold is_nan. rewrite eqb_spec. unfold SFeqb, SFcompare.
  destruct (Prim2SF x) as [s|s| |s m e]; try (destruct s); simpl; auto;
    rewrite Z.compare_refl, ?Pos.compare_cont_refl; reflexivity.
Qed.

Lemma nan_spec x : is_nan x = false <-> Prim2SF x <> S754_nan.
Proof. rewrite is_nan_spec. destruct (Prim2SF x); split; congruence. Qed.

Lemma signed_not_nan s x : sf_signed s (Prim2SF x) -> is_nan x = false.
Proof.
  intros H. apply nan_spec. intros E. rewrite E in H. exact H.
Qed.

(** *** Order *)

Lemma SFcompare_key x y :
  x <> S754_nan -> y <> S754_nan ->
  match SFcompare x y with
  | Some Lt => lexlt (orderKey x) (orderKey y)
  | Some Eq => orderKey x = orderKey y
  | Some Gt => lexlt (orderKey y) (orderKey x)
  | None => False
  end.
Proof.
  intros Hx Hy.
  destruct x as [sx|sx| |sx mx ex], y as [sy|sy| |sy my ey];
    try congruence; try destruct sx; try destruct sy; simpl;
    unfold lexlt; simpl; try lia; try reflexivity;
    destruct (Z.compare_spec ex ey); simpl; try lia;
    change (Pos.compare_cont Eq mx my) with (Pos.compare mx my);
    destruct (Pos.compare_spec mx my); simpl; subst; try lia; try reflexivity.
Qed.

Lemma lexlt_trans p q r : lexlt p q -> lexlt q r -> lexlt p r.
Proof. unfold lexlt. lia. Qed.

Lemma lexlt_irrefl p : ~ lexlt p p.
Proof. unfold lexlt. lia. Qed.

Lemma leb_key a b :
  is_nan a = false -> is_nan b = false ->
  (a <=? b)%float = true <-> lexle (orderKey (Prim2SF a)) (orderKey (Prim2SF b)).
Proof.
  intros Ha Hb. apply nan_spec in Ha, Hb.
  rewrite leb_spec. unfold SFleb.
  pose proof (SFcompare_key _ _ Ha Hb) as H. revert H.
  destruct (SFcompare (Prim2SF a) (Prim2SF b)) as [[]|];
    destruct (orderKey (Prim2SF a)) as [a1 [a2 a3]],
             (orderKey (Prim2SF b)) as [b1 [b2 b3]];
    unfold lexlt, lexle; simpl; intros H; split; intros H';
    try reflexivity; try discriminate; try lia; try tauto.
  injection H as -> -> ->. lia.
Qed.

Lemma ltb_key a b :
  is_nan a = false -> is_nan b = false ->
  (a <? b)%float = true <->
  lexlt (orderKey (Prim2SF a)) (orderKey (Prim2SF b)).
Proof.
  intros Ha Hb. apply nan_spec in Ha, Hb.
  rewrite ltb_spec. unfold SFltb.
  pose proof (SFcompare_key _ _ Ha Hb) as H. revert H.
  destruct (SFcompare (Prim2SF a) (Prim2SF b)) as [[]|];
    destruct (orderKey (Prim2SF a)) as [a1 [a2 a3]],
             (orderKey (Prim2SF b)) as [b1 [b2 b3]];
    unfold lexlt; simpl; intros H; split; intros H';
    try reflexivity; try discriminate; try lia; try tauto.
  injection H as -> -> ->. lia.
Qed.

Lemma fge_trans a b c :
  is_nan a = false -> is_nan b = false -> is_nan c = false ->
  fge a b -> fge b c -> fge a c.
Proof.
  unfold fge. intros Ha Hb Hc.
  rewrite !leb_key by assumption. unfold lexle. lia.
Qed.

Lemma ltb_fge a b :
  is_nan a = false -> is_nan b = false ->
  (a <? b)%float = true -> fge b a.
Proof.
  unfold fge. intros Ha Hb. rewrite ltb_key, leb_key by assumption.
  unfold lexlt, lexle. lia.
Qed.

Lemma not_ltb_fge a b :
  is_nan a = false -> is_nan b = false ->
  (a <? b)%float = false -> fge a b.
Proof.
  unfold fge. intros Ha Hb H.
  apply leb_key; auto.
  assert (Hn : ~ lexlt (orderKey (Prim2SF a)) (orderKey (Prim2SF b))).
  { rewrite <- ltb_key by assumption. congruence. }
  revert Hn. unfold lexlt, lexle. lia.
Qed.

(** *** The sign of a difference *)

Lemma digits2_pos_bounds p :
  2 ^ (Z.pos (digits2_pos p) - 1) <= Z.pos p < 2 ^ Z.pos (digits2_pos p).
Proof.
  induction p as [p IH|p IH|]; simpl digits2_pos.
  - rewrite Pos2Z.inj_succ.
    replace (Z.succ (Z.pos (digits2_pos p)) - 1)
      with (Z.succ (Z.pos (digits2_pos p) - 1)) by lia.
    rewrite !Z.pow_succ_r by lia. lia.
  - rewrite Pos2Z.inj_succ.
    replace (Z.succ (Z.pos (digits2_pos p)) - 1)
      with (Z.succ (Z.pos (digits2_pos p) - 1)) by lia.
    rewrite !Z.pow_succ_r by lia. lia.
  - simpl. lia.
Qed.

Lemma shr_1_pow k r :
  0 <= k -> 2 ^ (k + 1) <= shr_m r -> 2 ^ k <= shr_m (shr_1 r).
Proof.
  intros Hk. destruct r as [m r s]. simpl.
  rewrite Z.pow_add_r by lia. change (2 ^ 1) with 2.
  assert (0 < 2 ^ k) by (apply Z.pow_pos_nonneg; lia).
  destruct m as [|[p|p|]|p]; simpl; lia.
Qed.

Lemma iter_shr_1_pow n : forall k r,
  0 <= k -> 2 ^ (k + Z.pos n) <= shr_m r ->
  2 ^ k <= shr_m (iter_pos shr_1 n r).
Proof.
  induction n as [n IH|n IH|]; intros k r Hk H; simpl.
  - apply IH; auto. apply IH; [lia|].
    apply shr_1_pow; [lia|].
    replace (k + Z.pos n + Z.pos n + 1) with (k + Z.pos n~1) by lia. exact H.
  - apply IH; auto. apply IH; [lia|].
    replace (k + Z.pos n + Z.pos n) with (k + Z.pos n~0) by lia. exact H.
  - apply shr_1_pow; auto.
Qed.

Lemma shr_fexp_pos m e l :
  0 < m -> emin <= e ->
  0 < shr_m (fst (shr_fexp prec emax m e l)) /\
  emin <= snd (shr_fexp prec emax m e l).
Proof.
  intros Hm He. unfold shr_fexp.
  destruct m as [|p|p]; try lia. simpl Zdigits2.
  pose proof (digits2_pos_bounds p) as [Hlo _].
  set (d := Z.pos (digits2_pos p)) in *.
  assert (Hsm : shr_m (shr_record_of_loc (Z.pos p) l) = Z.pos p)
    by (destruct l as [|[]]; reflexivity).
  unfold fexp. unfold emin, prec, emax in *.
  remember (Z.max (d + e - 53) (3 - 1024 - 53) - e) as n eqn:En.
  destruct n as [|n|n]; simpl.
  - rewrite Hsm. lia.
  - split; [|lia].
    assert (H : 2 ^ 0 <= shr_m (iter_pos shr_1 n (shr_record_of_loc (Z.pos p) l))).
    { apply iter_shr_1_pow; [lia|]. rewrite Hsm.
      eapply Z.le_trans; [|exact Hlo].
      apply Z.pow_le_mono_r; lia. }
    simpl in H. lia.
  - rewrite Hsm. lia.
Qed.

Lemma binary_round_aux_nonzero s m e l s' :
  0 < m -> emin <= e -> binary_round_aux prec emax s m e l <> S754_zero s'.
Proof.
  intros Hm He. unfold binary_round_aux.
  pose proof (shr_fexp_pos m e l Hm He) as [H1 H1'].
  destruct (shr_fexp prec emax m e l) as [mrs' e']. simpl in H1, H1'.
  assert (Hr : 0 < round_nearest_even (shr_m mrs') (loc_of_shr_record mrs')).
  { destruct (loc_of_shr_record mrs') as [|[]]; simpl; try lia.
    destruct (Z.even _); lia. }
  pose proof (shr_fexp_pos _ e' loc_Exact Hr H1') as [H2 _].
  destruct (shr_fexp prec emax _ e' loc_Exact) as [mrs'' e'']. simpl in H2.
  destruct (shr_m mrs''); try lia.
  destruct (_ <=? _); discriminate.
Qed.

Lemma binary_round_nonzero s m e s' :
  emin <= e -> binary_round prec emax s m e <> S754_zero s'.
Proof.
  intros He. unfold binary_round.
  destruct (shl_align m e _) as [mz ez] eqn:E.
  apply binary_round_aux_nonzero; [lia|].
  unfold shl_align in E.
  destruct (_ - e) eqn:D in E; injection E as <- <-; auto.
  unfold fexp, emin, prec, emax. lia.
Qed.

Lemma shl_align_value m e ez :
  ez <= e -> Z.pos (fst (shl_align m e ez)) = Z.pos m * 2 ^ (e - ez).
Proof.
  intros H. unfold shl_align.
  destruct (ez - e) as [|d|d] eqn:D; simpl.
  - replace (e - ez) with 0 by lia. simpl. lia.
  - lia.
  - replace (e - ez) with (Z.pos d) by lia.
    change (Pos.iter xO m d) with (shift_pos d m).
    rewrite shift_pos_correct. change (Z.pow_pos 2 d) with (2 ^ Z.pos d).
    apply Z.mul_comm.
Qed.

Lemma bounded_facts m e :
  bounded prec emax m e = true ->
  emin <= e /\ Z.pos (digits2_pos m) <= prec /\
  (emin < e -> Z.pos (digits2_pos m) = prec).
Proof.
  unfold bounded, canonical_mantissa, fexp.
  rewrite andb_true_iff, Z.eqb_eq, Z.leb_le.
  unfold emin, prec, emax. lia.
Qed.

Lemma bounded_lt mx ex my ey :
  bounded prec emax mx ex = true -> bounded prec emax my ey = true ->
  ex < ey -> Z.pos mx < Z.pos my * 2 ^ (ey - ex).
Proof.
  intros Hx Hy Hlt.
  apply bounded_facts in Hx as (Hex & Hdx & _).
  apply bounded_facts in Hy as (Hey & _ & Hdy).
  specialize (Hdy ltac:(lia)).
  pose proof (digits2_pos_bounds mx) as [_ Hmx].
  pose proof (digits2_pos_bounds my) as [Hmy _].
  rewrite Hdy in Hmy.
  assert (Z.pos mx < 2 ^ prec).
  { eapply Z.lt_le_trans; [exact Hmx|]. apply Z.pow_le_mono_r; lia. }
  assert (2 ^ 1 <= 2 ^ (ey - ex)) by (apply Z.pow_le_mono_r; lia).
  change (2 ^ 1) with 2 in *.
  assert (Hp : 2 ^ prec = 2 ^ (prec - 1) * 2) by reflexivity.
  assert (0 < 2 ^ (prec - 1)) by reflexivity.
  nia.
Qed.

Lemma SFcompare_aligned sx mx ex sy my ey :
  bounded prec emax mx ex = true -> bounded prec emax my ey = true ->
  SFcompare (S754_finite sx mx ex) (S754_finite sy my ey) =
  Some (Z.compare (aligned sx mx ex (Z.min ex ey))
                  (aligned sy my ey (Z.min ex ey))).
Proof.
  intros Hx Hy. unfold aligned.
  rewrite !shl_align_value by lia.
  assert (Hpx : 0 < Z.pos mx * 2 ^ (ex - Z.min ex ey)).
  { apply Z.mul_pos_pos; [lia|]. apply Z.pow_pos_nonneg; lia. }
  assert (Hpy : 0 < Z.pos my * 2 ^ (ey - Z.min ex ey)).
  { apply Z.mul_pos_pos; [lia|]. apply Z.pow_pos_nonneg; lia. }
  simpl SFcompare.
  destruct (Z.compare_spec ex ey) as [He|He|He].
  - subst ey. rewrite Z.min_id, Z.sub_diag in *. simpl (2 ^ 0) in *.
    rewrite !Z.mul_1_r.
    change (Pos.compare_cont Eq mx my) with (Pos.compare mx my).
    destruct sx, sy; simpl; reflexivity.
  - pose proof (bounded_lt _ _ _ _ Hx Hy He) as Hlt.
    rewrite Z.min_l in * by lia. rewrite Z.sub_diag in *.
    simpl (2 ^ 0) in *. rewrite Z.mul_1_r in *.
    destruct sx, sy; unfold cond_Zopp; f_equal; symmetry.
    + apply Z.compare_gt_iff. lia.
    + apply Z.compare_lt_iff. lia.
    + apply Z.compare_gt_iff. lia.
    + apply Z.compare_lt_iff. lia.
  - pose proof (bounded_lt _ _ _ _ Hy Hx He) as Hlt.
    rewrite Z.min_r in * by lia. rewrite Z.sub_diag in *.
    simpl (2 ^ 0) in *. rewrite Z.mul_1_r in *.
    destruct sx, sy; unfold cond_Zopp; f_equal; symmetry.
    + apply Z.compare_lt_iff. lia.
    + apply Z.compare_lt_iff. lia.
    + apply Z.compare_gt_iff. lia.
    + apply Z.compare_gt_iff. lia.
Qed.

Lemma binary_normalize_sign d e :
  emin <= e ->
  SFltb (S754_zero false) (binary_normalize prec emax d e false) = (0 <? d).
Proof.
  intros He. destruct d as [|p|p]; simpl.
  - reflexivity.
  - pose proof (binary_round_signed false p e) as Hs.
    pose proof (binary_round_nonzero false p e false He) as Hz.
    destruct (binary_round prec emax false p e) as [s|s| |s m' e'];
      simpl in Hs; subst; try tauto; try congruence; reflexivity.
  - pose proof (binary_round_signed true p e) as Hs.
    destruct (binary_round prec emax true p e) as [s|s| |s m' e'];
      simpl in Hs; subst; try tauto; reflexivity.
Qed.

Lemma SFsub_sign x y :
  valid_binary x = true -> valid_binary y = true ->
  x <> S754_nan -> y <> S754_nan ->
  SFltb (S754_zero false) (SF64sub y x) = SFltb x y.
Proof.
  intros Vx Vy Hx Hy.
  destruct x as [sx|sx| |sx mx ex], y as [sy|sy| |sy my ey];
    try congruence;
    try (destruct sx; try destruct sy; reflexivity);
    try (destruct sy; reflexivity).
  simpl in Vx, Vy.
  unfold SF64sub, SFsub.
  pose proof (bounded_facts _ _ Vx) as (Hex & _).
  pose proof (bounded_facts _ _ Vy) as (Hey & _).
  rewrite binary_normalize_sign by lia.
  unfold SFltb. rewrite (SFcompare_aligned _ _ _ _ _ _ Vx Vy).
  unfold aligned. rewrite (Z.min_comm ey ex).
  set (X := cond_Zopp sx _). set (Y := cond_Zopp sy _).
  destruct (Z.compare_spec X Y); destruct (Z.ltb_spec 0 (Y - X)); auto; lia.
Qed.

Lemma Prim2SF_zero : Prim2SF 0 = S754_zero false.
Proof. reflexivity. Qed.

(** For numbers [a] and [b], [b - a > 0] exactly when [a < b]. *)
Lemma sub_sign a b :
  is_nan a = false -> is_nan b = false ->
  (0 <? b - a)%float = (a <? b)%float.
Proof.
  intros Ha Hb. rewrite !ltb_spec, sub_spec, Prim2SF_zero.
  apply SFsub_sign; auto using Prim2SF_valid; now apply nan_spec.
Qed.

Lemma ltb_nan_r a b : is_nan b = true -> (a <? b)%float = false.
Proof.
  rewrite is_nan_spec, ltb_spec. unfold SFltb, SFcompare.
  destruct (Prim2SF b); try discriminate.
  destruct (Prim2SF a); reflexivity.
Qed.

(** ** cosineSimilarity *)

Section Cosine.
Import Num.
Local Open Scope float_scope.

Lemma loop_from (a b pa pb : list float) (s : acc) :
  length a = length b -> length pa = length pb ->
  fold_left (loopBody (pa ++ a) (pb ++ b)) (seq (length pa) (length a)) s =
  {| dotProduct := fold_left (fun s xy => s + fst xy * snd xy) (combine a b)
                     (dotProduct s);
     normA := fold_left (fun s x => s + x * x) a (normA s);
     normB := fold_left (fun s x => s + x * x) b (normB s) |}.
Proof.
  revert b pa pb s.
  induction a as [|x a IH]; intros [|y b] pa pb s Hab Hp;
    try discriminate; simpl.
  - now destruct s.
  - injection Hab as Hab.
    replace (pa ++ x :: a) with ((pa ++ [x]) ++ a)
      by (now rewrite <- app_assoc).
    replace (pb ++ y :: b) with ((pb ++ [y]) ++ b)
      by (now rewrite <- app_assoc).
    replace (S (length pa)) with (length (pa ++ [x]))
      by (rewrite length_app; simpl; lia).
    rewrite IH; auto.
    + unfold loopBody, at_. simpl.
      rewrite <- !app_assoc. simpl.
      rewrite nth_middle. rewrite Hp, nth_middle. reflexivity.
    + rewrite !length_app. simpl. lia.
Qed.

(** The loop of the code computes the three textbook sums. *)
Lemma loop_sums (a b : list float) :
  length a = length b ->
  loop a b =
  {| dotProduct := dot a b; normA := sumSquares a; normB := sumSquares b |}.
Proof.
  intros H. unfold loop.
  exact (loop_from a b [] [] {| dotProduct := 0; normA := 0; normB := 0 |}
           H eq_refl).
Qed.

Lemma sumSquares_from_signed (a : list float) (s : float) :
  Forall number a -> sf_signed false (Prim2SF s) ->
  sf_signed false (Prim2SF (fold_left (fun s x => s + x * x) a s)).
Proof.
  revert s. induction a as [|x a IH]; intros s Ha Hs; simpl; auto.
  inversion Ha as [|? ? Hx Ha']; subst.
  apply IH; auto.
  rewrite add_spec, mul_spec.
  apply SFadd_nonneg; auto.
  apply SFmul_square. now apply nan_spec.
Qed.

(** The norm of a vector of numbers is a number: it is never NaN. *)
Lemma norm_number (a : list float) : Forall number a -> number (norm a).
Proof.
  intros Ha. unfold number, norm, sumSquares.
  apply (signed_not_nan false). rewrite sqrt_spec.
  apply SFsqrt_nonneg, sumSquares_from_signed; auto.
  rewrite Prim2SF_zero. reflexivity.
Qed.

Lemma truthy_number (x : float) : number x -> truthy x = negb (is_zero x).
Proof. unfold number, truthy. intros ->. now rewrite orb_false_r. Qed.

(** C3. For equal-length vectors of numbers, [cosineSimilarity a b] is
    0 when either vector is empty or has norm 0, and otherwise the dot
    product divided by the product of the Euclidean norms. *)
Theorem cosineSimilarity_spec (a b : list float) :
  length a = length b -> Forall number a -> Forall number b ->
  (a = [] \/ b = [] \/ is_zero (norm a) = true \/ is_zero (norm b) = true ->
   cosineSimilarity a b = 0) /\
  (a <> [] -> b <> [] ->
   is_zero (norm a) = false -> is_zero (norm b) = false ->
   cosineSimilarity a b = dot a b / (norm a * norm b)).
Proof.
  intros Hlen Ha Hb.
  pose proof (truthy_number _ (norm_number a Ha)) as Ta.
  pose proof (truthy_number _ (norm_number b Hb)) as Tb.
  unfold cosineSimilarity. rewrite (loop_sums a b Hlen). cbn [normA normB dotProduct].
  fold (norm a) (norm b). rewrite Ta, Tb.
  split.
  - intros [->|[->|[H|H]]].
    + reflexivity.
    + now rewrite orb_true_r.
    + rewrite H. simpl. now destruct (isEmpty a || isEmpty b).
    + rewrite H. rewrite andb_false_r. now destruct (isEmpty a || isEmpty b).
  - intros Hna Hnb Hza Hzb. rewrite Hza, Hzb.
    destruct a; [congruence|]. destruct b; [congruence|]. reflexivity.
Qed.

Lemma cosineSimilarity_witness :
  cosineSimilarity [3; 4] [4; 3] = dot [3; 4] [4; 3] / (norm [3; 4] * norm [4; 3]).
Proof.
  apply (cosineSimilarity_spec [3; 4] [4; 3]);
    try reflexivity; try discriminate;
    repeat constructor.
Defined.

(** A vector holding NaN has a NaN norm, which is falsy: the result is
    0 and not the quotient. *)
Example cosineSimilarity_nan :
  cosineSimilarity [nan] [1] = 0 /\ dot [nan] [1] / (norm [nan] * norm [1]) = nan.
Proof. split; reflexivity. Qed.

(** A candidate vector shorter than the query reads [undefined], hence
    NaN, and scores 0. *)
Example cosineSimilarity_short : cosineSimilarity [1; 2] [1] = 0.
Proof. reflexivity. Qed.

End Cosine.

(** For numbers [a] and [b], [b - a < 0] exactly when [b < a]. *)
Lemma binary_normalize_negative d e :
  emin <= e ->
  SFltb (binary_normalize prec emax d e false) (S754_zero false) = (d <? 0).
Proof.
  intros He. destruct d as [|p|p]; simpl.
  - reflexivity.
  - pose proof (binary_round_signed false p e) as Hs.
    destruct (binary_round prec emax false p e) as [s|s| |s m' e'];
      simpl in Hs; subst; try tauto; reflexivity.
  - pose proof (binary_round_signed true p e) as Hs.
    pose proof (binary_round_nonzero true p e true He) as Hz.
    destruct (binary_round prec emax true p e) as [s|s| |s m' e'];
      simpl in Hs; subst; try tauto; try congruence; reflexivity.
Qed.

Lemma SFsub_negative x y :
  valid_binary x = true -> valid_binary y = true ->
  x <> S754_nan -> y <> S754_nan ->
  SFltb (SF64sub y x) (S754_zero false) = SFltb y x.
Proof.
  intros Vx Vy Hx Hy.
  destruct x as [sx|sx| |sx mx ex], y as [sy|sy| |sy my ey];
    try congruence;
    try (destruct sx; try destruct sy; reflexivity);
    try (destruct sy; reflexivity).
  simpl in Vx, Vy.
  unfold SF64sub, SFsub.
  pose proof (bounded_facts _ _ Vx) as (Hex & _).
  pose proof (bounded_facts _ _ Vy) as (Hey & _).
  rewrite binary_normalize_negative by lia.
  unfold SFltb. rewrite (SFcompare_aligned _ _ _ _ _ _ Vy Vx).
  unfold aligned. rewrite (Z.min_comm ey ex).
  set (X := cond_Zopp sx _). set (Y := cond_Zopp sy _).
  destruct (Z.compare_spec Y X); destruct (Z.ltb_spec (Y - X) 0); auto; lia.
Qed.

Lemma sub_negative a b :
  is_nan a = false -> is_nan b = false ->
  (b - a <? 0)%float = (b <? a)%float.
Proof.
  intros Ha Hb. rewrite !ltb_spec, sub_spec, Prim2SF_zero.
  apply SFsub_negative; auto using Prim2SF_valid; now apply nan_spec.
Qed.

Lemma fge_not_ltb a b :
  is_nan a = false -> is_nan b = false -> fge a b -> (a <? b)%float = false.
Proof.
  unfold fge. intros Ha Hb H.
  apply (leb_key b a Hb Ha) in H.
  destruct (a <? b)%float eqn:E; auto.
  apply (ltb_key a b Ha Hb) in E.
  revert H E. unfold lexle, lexlt. lia.
Qed.

(** ** Sorting by descending score *)

Lemma StronglySorted_app_inv {A} (R : A -> A -> Prop) (l1 l2 : list A) :
  StronglySorted R (l1 ++ l2) ->
  StronglySorted R l1 /\ StronglySorted R l2 /\
  (forall a b, In a l1 -> In b l2 -> R a b).
Proof.
  induction l1 as [|x l1 IH]; simpl; intros H.
  - repeat split; auto. constructor. intros ? ? [].
  - inversion H as [|? ? Hs Hall]; subst.
    destruct (IH Hs) as (H1 & H2 & H3).
    rewrite Forall_app in Hall. destruct Hall as [Ha1 Ha2].
    repeat split; auto.
    + now constructor.
    + intros a b [<-|Ha] Hb; auto.
      rewrite Forall_forall in Ha2. auto.
Qed.

Lemma StronglySorted_app {A} (R : A -> A -> Prop) (l1 l2 : list A) :
  StronglySorted R l1 -> StronglySorted R l2 ->
  (forall a b, In a l1 -> In b l2 -> R a b) ->
  StronglySorted R (l1 ++ l2).
Proof.
  intros H1 H2 H. induction H1 as [|x l1 Hs IH Hx]; simpl; auto.
  constructor.
  - apply IH. intros a b Ha Hb. apply H; simpl; auto.
  - apply Forall_app. split; auto.
    apply Forall_forall. intros b Hb. apply H; simpl; auto.
Qed.

Lemma StronglySorted_rev {A} (R : A -> A -> Prop) (l : list A) :
  StronglySorted (fun a b => R b a) l -> StronglySorted R (rev l).
Proof.
  induction 1 as [|x l Hs IH Hx]; simpl; [constructor|].
  apply StronglySorted_app; auto.
  - repeat constructor.
  - intros a b Ha [<-|[]]. rewrite Forall_forall in Hx.
    apply Hx. now apply in_rev.
Qed.

Section SortPermutation.
Context {A : Type}.
Variable c : A -> A -> float.

Lemma runFrom_split descending : forall l previous run rest,
  runFrom c descending previous l = (run, rest) -> l = (run ++ rest)%list.
Proof.
  induction l as [|x l IH]; simpl; intros previous run rest H.
  - now injection H as <- <-.
  - destruct (Bool.eqb _ _).
    + destruct (runFrom c descending x l) as [run' rest'] eqn:E.
      injection H as <- <-. simpl. f_equal. eauto.
    + now injection H as <- <-.
Qed.

Lemma countAndMakeRun_perm (l run rest : list A) :
  countAndMakeRun c l = (run, rest) -> Permutation (run ++ rest) l.
Proof.
  unfold countAndMakeRun.
  destruct l as [|x [|y r]]; try (intros [= <- <-]; now rewrite app_nil_r).
  destruct (runFrom c (before c y x) y r) as [run' rest'] eqn:E.
  apply runFrom_split in E. subst r.
  intros [= <- <-].
  destruct (before c y x).
  - change (x :: y :: run' ++ rest')%list
      with ((x :: y :: run') ++ rest')%list.
    apply Permutation_app_tail. symmetry. apply Permutation_rev.
  - reflexivity.
Qed.

Lemma binaryInsert_perm (sorted : list A) (x : A) :
  Permutation (binaryInsert c sorted x) (x :: sorted).
Proof.
  unfold binaryInsert.
  rewrite <- Permutation_middle. now rewrite firstn_skipn.
Qed.

Lemma binaryInserts_perm (rest run : list A) :
  Permutation (fold_left (binaryInsert c) rest run) (run ++ rest).
Proof.
  revert run. induction rest as [|x rest IH]; intros run; simpl.
  - now rewrite app_nil_r.
  - rewrite IH, binaryInsert_perm. apply Permutation_middle.
Qed.

Lemma sort_perm (l : list A) : Permutation (sort c l) l.
Proof.
  unfold sort. destruct (countAndMakeRun c l) as [run rest] eqn:E.
  rewrite binaryInserts_perm. now apply countAndMakeRun_perm.
Qed.

(** The search loop has turns enough: more fuel changes nothing. *)
Lemma insertionPoint_fuel pivot sorted : forall fuel fuel' left right,
  (right - left <= fuel)%nat -> (right - left <= fuel')%nat ->
  insertionPoint c fuel pivot sorted left right
  = insertionPoint c fuel' pivot sorted left right.
Proof.
  induction fuel as [|fuel IH]; intros fuel' left right H H'.
  - assert (Hlr : (left <? right)%nat = false) by (apply Nat.ltb_ge; lia).
    destruct fuel'; cbn [insertionPoint]; [reflexivity | now rewrite Hlr].
  - destruct fuel' as [|fuel'].
    + assert (Hlr : (left <? right)%nat = false) by (apply Nat.ltb_ge; lia).
      cbn [insertionPoint]. now rewrite Hlr.
    + cbn [insertionPoint].
      destruct (left <? right)%nat eqn:Hlr; [|reflexivity].
      apply Nat.ltb_lt in Hlr.
      assert (Hmid : (left <= left + (right - left) / 2 < right)%nat).
      { split; [lia|].
        assert ((right - left) / 2 < right - left)%nat
          by (apply Nat.div_lt; lia).
        lia. }
      destruct (before c pivot _); apply IH; lia.
Qed.

End SortPermutation.

Lemma skipn_nth {A} (d : A) : forall n l,
  (n < length l)%nat -> skipn n l = nth n l d :: skipn (S n) l.
Proof.
  induction n as [|n IH]; intros [|x l] H; simpl in *; try lia; auto.
  apply IH. lia.
Qed.

Lemma firstn_S_nth {A} (d : A) : forall n l,
  (n < length l)%nat -> firstn (S n) l = (firstn n l ++ [nth n l d])%list.
Proof.
  induction n as [|n IH]; intros [|x l] H; simpl in *; try lia; auto.
  f_equal. apply IH. lia.
Qed.

Section SortFacts.
Context {A : Type}.
Variable key : A -> float.

(** The comparator [(a, b) => key b - key a]. *)
Let cmp (a b : A) : float := (key b - key a)%float.

Let desc (a b : A) : Prop := fge (key a) (key b).

Let number (a : A) : Prop := is_nan (key a) = false.

(** On numbers the order of the engine is the comparison of keys. *)
Lemma before_key (x y : A) :
  number x -> number y -> before cmp x y = (key y <? key x)%float.
Proof.
  intros Hx Hy. unfold before, sortCompare, cmp.
  rewrite <- (sub_negative (key x) (key y)) by assumption.
  destruct (is_nan (key y - key x)) eqn:E; auto.
  rewrite is_nan_spec in E. rewrite !ltb_spec.
  destruct (Prim2SF (key y - key x)); try discriminate. reflexivity.
Qed.

Lemma desc_trans (a b d : A) :
  number a -> number b -> number d -> desc a b -> desc b d -> desc a d.
Proof. unfold desc. intros. eapply fge_trans with (b := key b); eauto. Qed.

(** An ascending run of the engine is in descending order of keys. *)
Lemma runFrom_sorted : forall l previous run rest,
  number previous -> Forall number l ->
  runFrom cmp false previous l = (run, rest) ->
  StronglySorted desc (previous :: run).
Proof.
  induction l as [|x l IH]; simpl; intros previous run rest Hp Hl H.
  - injection H as <- <-. repeat constructor.
  - inversion Hl as [|? ? Hx Hl']; subst.
    destruct (Bool.eqb (before cmp x previous) false) eqn:E.
    + destruct (runFrom cmp false x l) as [run' rest'] eqn:R.
      injection H as <- <-.
      pose proof (IH x run' rest' Hx Hl' R) as Hs.
      apply Bool.eqb_prop in E. rewrite before_key in E by assumption.
      assert (Hpx : desc previous x) by (apply not_ltb_fge; assumption).
      constructor; auto. constructor; auto.
      inversion Hs as [|? ? _ Hall]; subst.
      assert (Hn : Forall number run').
      { apply runFrom_split in R. subst l.
        apply Forall_app in Hl'. tauto. }
      rewrite Forall_forall in *. intros z Hz.
      apply desc_trans with (b := x); auto.
    + injection H as <- <-. repeat constructor.
Qed.

(** A descending run of the engine is in strictly ascending order of
    keys. *)
Lemma runFrom_reversed : forall l previous run rest,
  number previous -> Forall number l ->
  runFrom cmp true previous l = (run, rest) ->
  StronglySorted (fun a b => desc b a) (previous :: run).
Proof.
  induction l as [|x l IH]; simpl; intros previous run rest Hp Hl H.
  - injection H as <- <-. repeat constructor.
  - inversion Hl as [|? ? Hx Hl']; subst.
    destruct (Bool.eqb (before cmp x previous) true) eqn:E.
    + destruct (runFrom cmp true x l) as [run' rest'] eqn:R.
      injection H as <- <-.
      pose proof (IH x run' rest' Hx Hl' R) as Hs.
      apply Bool.eqb_prop in E. rewrite before_key in E by assumption.
      assert (Hpx : desc x previous) by (apply ltb_fge; assumption).
      constructor; auto. constructor; auto.
      inversion Hs as [|? ? _ Hall]; subst.
      assert (Hn : Forall number run').
      { apply runFrom_split in R. subst l.
        apply Forall_app in Hl'. tauto. }
      rewrite Forall_forall in *. intros z Hz.
      apply desc_trans with (b := x); auto.
    + injection H as <- <-. repeat constructor.
Qed.

Lemma countAndMakeRun_sorted (l run rest : list A) :
  Forall number l ->
  countAndMakeRun cmp l = (run, rest) -> StronglySorted desc run.
Proof.
  intros Hl. unfold countAndMakeRun.
  destruct l as [|x [|y r]]; try (intros [= <- <-]; repeat constructor).
  inversion Hl as [|? ? Hx Hl']; subst.
  inversion Hl' as [|? ? Hy Hr]; subst.
  destruct (before cmp y x) eqn:B;
    destruct (runFrom cmp _ y r) as [run' rest'] eqn:R;
    intros [= <- <-];
    rewrite before_key in B by assumption.
  - pose proof (runFrom_reversed r y run' rest' Hy Hr R) as Hs.
    change ((rev run' ++ [y]) ++ [x])%list with (rev (x :: y :: run')).
    apply StronglySorted_rev.
    assert (Hyx : desc y x) by (apply ltb_fge; assumption).
    constructor; auto. constructor; auto.
    inversion Hs as [|? ? _ Hall]; subst.
    assert (Hn : Forall number run').
    { apply runFrom_split in R. subst r. apply Forall_app in Hr. tauto. }
    rewrite Forall_forall in *. intros z Hz.
    apply desc_trans with (b := y); auto.
  - pose proof (runFrom_sorted r y run' rest' Hy Hr R) as Hs.
    assert (Hxy : desc x y) by (apply not_ltb_fge; assumption).
    constructor; auto. constructor; auto.
    inversion Hs as [|? ? _ Hall]; subst.
    assert (Hn : Forall number run').
    { apply runFrom_split in R. subst r. apply Forall_app in Hr. tauto. }
    rewrite Forall_forall in *. intros z Hz.
    apply desc_trans with (b := y); auto.
Qed.

(** The invariants of the search loop: the pivot is not above what lies
    left of [left] and is above what lies from [right] on. *)
Lemma insertionPoint_place pivot sorted :
  number pivot -> Forall number sorted -> StronglySorted desc sorted ->
  forall fuel left right,
    (right - left <= fuel)%nat -> (left <= right <= length sorted)%nat ->
    Forall (fun m => desc m pivot) (firstn left sorted) ->
    Forall (fun m => desc pivot m) (skipn right sorted) ->
    let i := insertionPoint cmp fuel pivot sorted left right in
    (i <= length sorted)%nat /\
    Forall (fun m => desc m pivot) (firstn i sorted) /\
    Forall (fun m => desc pivot m) (skipn i sorted).
Proof.
  intros Hp Hn Hs.
  induction fuel as [|fuel IH]; intros left right Hf Hlr Hleft Hright;
    cbn [insertionPoint].
  - assert (left = right) by lia. subst right. repeat split; auto; lia.
  - destruct (left <? right)%nat eqn:E.
    2:{ apply Nat.ltb_ge in E. assert (left = right) by lia. subst right.
        repeat split; auto; lia. }
    apply Nat.ltb_lt in E.
    set (mid := (left + (right - left) / 2)%nat).
    assert (Hmid : (left <= mid < right)%nat).
    { unfold mid. split; [lia|].
      assert ((right - left) / 2 < right - left)%nat
        by (apply Nat.div_lt; lia).
      lia. }
    assert (Hsplit : sorted = (firstn mid sorted ++
                               nth mid sorted pivot :: skipn (S mid) sorted)%list).
    { rewrite <- (firstn_skipn mid sorted) at 1. f_equal.
      apply skipn_nth. lia. }
    set (m := nth mid sorted pivot) in *.
    assert (Hm : number m).
    { rewrite Forall_forall in Hn. apply Hn. unfold m. apply nth_In. lia. }
    pose proof Hs as Hs'. rewrite Hsplit in Hs'.
    apply StronglySorted_app_inv in Hs' as (_ & Htail & Hcross).
    inversion Htail as [|? ? _ Hafter]; subst.
    assert (Hnum : forall z, In z sorted -> number z)
      by (now apply Forall_forall).
    rewrite before_key by assumption.
    destruct (key m <? key pivot)%float eqn:B.
    + (* the pivot is above [m], hence above all from [mid] on *)
      assert (Hpm : desc pivot m) by (apply ltb_fge; assumption).
      apply IH; auto; try lia.
      assert (Hskip : skipn mid sorted = m :: skipn (S mid) sorted)
        by (apply skipn_nth; lia).
      rewrite Hskip. constructor; auto.
      rewrite Forall_forall in *. intros z Hz.
      apply desc_trans with (b := m); auto.
      apply Hnum. rewrite Hsplit. apply in_or_app. right. now right.
    + (* the pivot is not above [m], hence not above any up to [mid] *)
      assert (Hmp : desc m pivot) by (apply not_ltb_fge; assumption).
      apply IH; auto; try lia.
      assert (Hfirst : firstn (S mid) sorted = (firstn mid sorted ++ [m])%list)
        by (apply firstn_S_nth; lia).
      rewrite Hfirst. apply Forall_app. split; [|repeat constructor; auto].
      apply Forall_forall. intros z Hz.
      apply desc_trans with (b := m); auto.
      * apply Hnum. rewrite Hsplit. apply in_or_app. now left.
      * apply Hcross; simpl; auto.
Qed.

Lemma binaryInsert_sorted (sorted : list A) (pivot : A) :
  number pivot -> Forall number sorted -> StronglySorted desc sorted ->
  StronglySorted desc (binaryInsert cmp sorted pivot).
Proof.
  intros Hp Hn Hs. unfold binaryInsert.
  destruct (insertionPoint_place pivot sorted Hp Hn Hs
              (length sorted) 0 (length sorted)) as (Hi & Hleft & Hright);
    try lia; try (simpl; constructor).
  { rewrite skipn_all. constructor. }
  set (i := insertionPoint cmp _ pivot sorted 0 _) in *.
  pose proof Hs as Hs'. rewrite <- (firstn_skipn i sorted) in Hs'.
  apply StronglySorted_app_inv in Hs' as (H1 & H2 & H3).
  apply StronglySorted_app; auto.
  - constructor; auto.
  - intros a b Ha [<-|Hb]; auto.
    rewrite Forall_forall in Hleft. auto.
Qed.

Lemma binaryInserts_sorted (rest : list A) : forall run,
  Forall number rest -> Forall number run -> StronglySorted desc run ->
  StronglySorted desc (fold_left (binaryInsert cmp) rest run).
Proof.
  induction rest as [|x rest IH]; intros run Hr Hn Hs; simpl; auto.
  inversion Hr; subst.
  apply IH; auto.
  - rewrite Forall_forall in *. intros z Hz.
    apply (Permutation_in _ (binaryInsert_perm cmp run x)) in Hz.
    destruct Hz as [<-|Hz]; auto.
  - apply binaryInsert_sorted; auto.
Qed.

(** With numbers as keys the result is ordered by descending key. *)
Lemma sort_sorted (l : list A) :
  Forall (fun y => is_nan (key y) = false) l ->
  StronglySorted desc (sort cmp l).
Proof.
  intros H. unfold sort.
  destruct (countAndMakeRun cmp l) as [run rest] eqn:E.
  pose proof (countAndMakeRun_perm cmp l run rest E) as Hperm.
  assert (Hall : Forall number (run ++ rest)).
  { rewrite Forall_forall in *. intros z Hz. apply H.
    now apply (Permutation_in _ Hperm). }
  apply Forall_app in Hall as [Hrun Hrest].
  apply binaryInserts_sorted; auto.
  exact (countAndMakeRun_sorted l run rest H E).
Qed.

(** A list already in descending order of keys is one ascending run of
    the engine and comes back as it is: ties are not reordered. *)
Lemma runFrom_whole : forall l previous,
  number previous -> Forall number l ->
  StronglySorted desc (previous :: l) ->
  runFrom cmp false previous l = (l, []).
Proof.
  induction l as [|x l IH]; simpl; intros previous Hp Hl Hs; auto.
  inversion Hl as [|? ? Hx Hl']; subst.
  inversion Hs as [|? ? Hs' Hall]; subst.
  inversion Hall as [|? ? Hpx _]; subst.
  rewrite before_key by assumption.
  rewrite (fge_not_ltb _ _ Hp Hx Hpx). simpl.
  now rewrite IH.
Qed.

Lemma sort_ordered (l : list A) :
  Forall (fun y => is_nan (key y) = false) l ->
  StronglySorted desc l -> sort cmp l = l.
Proof.
  intros Hl Hs. unfold sort, countAndMakeRun.
  destruct l as [|x [|y r]]; try reflexivity.
  inversion Hl as [|? ? Hx Hl']; subst.
  inversion Hl' as [|? ? Hy Hr]; subst.
  inversion Hs as [|? ? Hs' Hall]; subst.
  inversion Hall as [|? ? Hxy _]; subst.
  rewrite before_key by assumption.
  rewrite (fge_not_ltb _ _ Hx Hy Hxy).
  now rewrite runFrom_whole.
Qed.

End SortFacts.

Section SortMap.
Context {A B : Type}.
Variable f : A -> B.
Variable c : A -> A -> float.
Variable c' : B -> B -> float.
Hypothesis respects : forall a b, c' (f a) (f b) = c a b.

Lemma before_map (x y : A) : before c' (f x) (f y) = before c x y.
Proof. unfold before, sortCompare. now rewrite respects. Qed.

Lemma runFrom_map descending : forall l previous,
  runFrom c' descending (f previous) (map f l)
  = (map f (fst (runFrom c descending previous l)),
     map f (snd (runFrom c descending previous l))).
Proof.
  induction l as [|x l IH]; intros previous; simpl; auto.
  rewrite before_map.
  destruct (Bool.eqb _ _); [|reflexivity].
  rewrite IH. destruct (runFrom c descending x l). reflexivity.
Qed.

Lemma countAndMakeRun_map (l : list A) :
  countAndMakeRun c' (map f l)
  = (map f (fst (countAndMakeRun c l)), map f (snd (countAndMakeRun c l))).
Proof.
  unfold countAndMakeRun.
  destruct l as [|x [|y r]]; try reflexivity.
  cbn [map]. rewrite before_map, runFrom_map.
  destruct (runFrom c (before c y x) y r) as [run rest]. cbn [fst snd].
  destruct (before c y x); cbn [fst snd]; [|reflexivity].
  f_equal. change (f x :: f y :: map f run) with (map f (x :: y :: run)).
  now rewrite map_rev.
Qed.

Lemma insertionPoint_map pivot sorted : forall fuel left right,
  insertionPoint c' fuel (f pivot) (map f sorted) left right
  = insertionPoint c fuel pivot sorted left right.
Proof.
  induction fuel as [|fuel IH]; intros left right; cbn [insertionPoint]; auto.
  destruct (left <? right)%nat; [|reflexivity].
  rewrite map_nth, before_map.
  destruct (before c pivot _); apply IH.
Qed.

Lemma binaryInsert_map sorted pivot :
  binaryInsert c' (map f sorted) (f pivot) = map f (binaryInsert c sorted pivot).
Proof.
  unfold binaryInsert. rewrite length_map, insertionPoint_map.
  rewrite map_app. cbn [map]. now rewrite firstn_map, skipn_map.
Qed.

(** Sorting commutes with a map that respects the comparators. *)
Lemma sort_map_respects (l : list A) : sort c' (map f l) = map f (sort c l).
Proof.
  unfold sort. rewrite countAndMakeRun_map.
  destruct (countAndMakeRun c l) as [run rest]. cbn [fst snd].
  revert run. induction rest as [|x rest IH]; intros run; simpl; auto.
  rewrite binaryInsert_map. apply IH.
Qed.

End SortMap.

Lemma sort_map {A B} (f : A -> B) (c : A -> A -> float) (c' : B -> B -> float)
    (l : list A) :
  (forall a b, c' (f a) (f b) = c a b) ->
  sort c' (map f l) = map f (sort c l).
Proof. intros H. now apply sort_map_respects. Qed.

(** ** Product search *)

Example stripHtml_demo :
  stripHtml (demoEnv demoCatalog [])
    (str " <b>Tom &amp;amp; Jerry</b> &lt;3 &#65;&#66; a < b <i ")
  = Ok (str "Tom &amp; Jerry <3 AB a < b <i").
Proof. vm_compute. reflexivity. Qed.

Example search_demo :
  fst (searchSAPProducts (demoEnv demoCatalog []) (js "camera") initialWorld)
  = Ok (js "[P4;P2;P1;]").
Proof. vm_compute. reflexivity. Qed.

Example search_demo_embedding_fails :
  fst (searchSAPProducts (demoEnv demoCatalog []) (js "broken") initialWorld)
  = Ok (js "[P1;P2;P3;]").
Proof. vm_compute. reflexivity. Qed.

Example search_demo_cached :
  map fst (embeddingCache
             (snd (searchSAPProducts (demoEnv demoCatalog []) (js "camera")
                     initialWorld)))
  = map hashText [js "camera"; js "Lens 50mm"; js "Tripod carbon, light";
                  js "Bag "; js "Camera body full frame, 24MP"].
Proof. vm_compute. reflexivity. Qed.

(** *** Objects *)

Lemma objSet_keys_nodup k v (o : obj) :
  NoDup (JsMap.keys o) -> NoDup (JsMap.keys (objSet k v o)).
Proof.
  intros H. unfold objSet. rewrite keys_set. unfold JsMap.has.
  destruct (JsMap.get str_eqb k o) eqn:G; auto.
  apply get_None_notin in G.
  apply NoDup_app; auto.
  - repeat constructor. intros [].
  - intros x Hx [<-|[]]. contradiction.
Qed.

Lemma spread_from_nodup (l acc : obj) :
  NoDup (JsMap.keys acc) ->
  NoDup (JsMap.keys (fold_left (fun a kv => objSet (fst kv) (snd kv) a) l acc)).
Proof.
  revert acc. induction l as [|[k v] l IH]; intros acc H; simpl; auto.
  apply IH. now apply objSet_keys_nodup.
Qed.

Lemma spread_nodup (v : value) : NoDup (JsMap.keys (spread v)).
Proof. unfold spread. apply spread_from_nodup. constructor. Qed.

Lemma spread_from_id (l acc : obj) :
  NoDup (JsMap.keys (acc ++ l)) ->
  fold_left (fun a kv => objSet (fst kv) (snd kv) a) l acc = acc ++ l.
Proof.
  revert acc. induction l as [|[k v] l IH]; intros acc H; simpl.
  - now rewrite app_nil_r.
  - assert (Hk : JsMap.get str_eqb k acc = None).
    { apply get_None_notin. unfold JsMap.keys in *.
      rewrite map_app in H. simpl in H.
      apply NoDup_remove_2 in H. intros Hin. apply H.
      apply in_or_app. now left. }
    unfold objSet at 2. rewrite (set_absent _ _ _ Hk).
    rewrite IH; rewrite <- app_assoc; auto.
Qed.

(** Copying an object with distinct keys gives the same properties. *)
Lemma spread_id (o : obj) : NoDup (JsMap.keys o) -> spread (VObj o) = o.
Proof. intros H. unfold spread. simpl. now apply spread_from_id. Qed.

Lemma dropKey_keys_nodup k (o : obj) :
  NoDup (JsMap.keys o) -> NoDup (JsMap.keys (dropKey k o)).
Proof.
  unfold dropKey, JsMap.keys.
  induction o as [|[k' v'] r IH]; simpl; intros H; auto.
  inversion H as [|? ? Hn Hr]; subst.
  destruct (negb (str_eqb k' k)); simpl; auto.
  constructor; auto.
  intros Hin. apply Hn.
  apply in_map_iff in Hin as ([k2 v2] & <- & Hin).
  apply filter_In in Hin as [Hin _].
  apply in_map_iff. now exists (k2, v2).
Qed.

Lemma dropKey_absent k (o : obj) : ~ hasKey k (dropKey k o).
Proof.
  unfold hasKey, dropKey, JsMap.keys. intros Hin.
  apply in_map_iff in Hin as ([k' v'] & <- & Hin).
  apply filter_In in Hin as [_ Hne]. simpl in Hne.
  now rewrite str_eqb_refl in Hne.
Qed.

Lemma dropKey_set k v (o : obj) : dropKey k (objSet k v o) = dropKey k o.
Proof.
  unfold dropKey, objSet.
  induction o as [|[k' v'] r IH]; simpl.
  - now rewrite str_eqb_refl.
  - destruct (str_eqb k' k) eqn:E; simpl; rewrite E; simpl; auto.
    now rewrite IH.
Qed.

(** Adding the score and taking it away again leaves the product
    without any [similarityScore] property. *)
Lemma withoutScore_withScore (p : obj) (s : float) :
  NoDup (JsMap.keys p) ->
  withoutScore (withScore p s) = dropKey scoreKey p.
Proof.
  intros H. unfold withoutScore, withScore.
  rewrite (spread_id p H).
  change (js "similarityScore") with scoreKey.
  rewrite dropKey_set. apply spread_id. now apply dropKey_keys_nodup.
Qed.

Lemma similarityScore_withScore env (p : obj) (s : float) :
  similarityScore env (withScore p s) = s.
Proof.
  unfold similarityScore, withScore, objGet, objSet.
  now rewrite get_set_same.
Qed.

Lemma cleanProduct_nodup env p o :
  cleanProduct env p = Ok o -> NoDup (JsMap.keys o).
Proof.
  unfold cleanProduct, obind. intros H.
  destruct (getProp p (js "name")); try discriminate.
  destruct (stripHtml env a); try discriminate.
  destruct (getProp p (js "description")); try discriminate.
  destruct (if truthy a1 then _ else _); try discriminate.
  injection H as <-.
  apply objSet_keys_nodup, objSet_keys_nodup, spread_nodup.
Qed.

Lemma omap_Forall {A B} (f : A -> outcome B) (P : B -> Prop) l l' :
  (forall x y, f x = Ok y -> P y) ->
  omap f l = Ok l' -> Forall P l'.
Proof.
  intros Hf. revert l'. induction l as [|x l IH]; simpl; intros l' H.
  - injection H as <-. constructor.
  - unfold obind in H.
    destruct (f x) as [y|] eqn:Fx; try discriminate.
    destruct (omap f l) as [ys|]; try discriminate.
    injection H as <-. constructor; eauto.
Qed.

Lemma omap_length {A B} (f : A -> outcome B) l l' :
  omap f l = Ok l' -> length l' = length l.
Proof.
  revert l'. induction l as [|x l IH]; simpl; intros l' H.
  - now injection H as <-.
  - unfold obind in H.
    destruct (f x) as [y|]; try discriminate.
    destruct (omap f l) as [ys|]; try discriminate.
    injection H as <-. simpl. f_equal. now apply IH.
Qed.

(** *** Embedding requests *)

Lemma getEmbedding_settle_ok text r w :
  exists e, fst (getEmbedding_settle text r w) = Ok e.
Proof.
  unfold getEmbedding_settle.
  destruct r as [[[|x vs]|]|]; simpl; eauto.
Qed.

Lemma mapM_ok {A B} (f : A -> M B) (l : list A) :
  (forall x w, exists y, fst (f x w) = Ok y) ->
  forall w, exists ys, fst (mapM f l w) = Ok ys /\ length ys = length l.
Proof.
  intros Hf. induction l as [|x l IH]; intros w; simpl.
  - exists []. auto.
  - unfold bind. destruct (Hf x w) as [y Hy].
    destruct (f x w) as [o w1]. simpl in Hy. subst o.
    destruct (IH w1) as (ys & Hys & Hlen).
    destruct (mapM f l w1) as [o w2]. simpl in Hys. subst o.
    exists (y :: ys). simpl. auto.
Qed.

(** [getEmbeddings] never fails and answers every text. *)
Lemma getEmbeddings_ok env texts w :
  exists es, fst (getEmbeddings env texts w) = Ok es /\
             length es = length texts.
Proof.
  unfold getEmbeddings, bind.
  destruct (mapM_ok (getEmbedding_request env) texts) with (w := w)
    as (rs & Hrs & Hlen).
  { intros x w0. unfold getEmbedding_request.
    destruct (getCachedEmbedding x (embeddingCache w0)); simpl; eauto. }
  destruct (mapM (getEmbedding_request env) texts w) as [o w1].
  simpl in Hrs. subst o.
  match goal with |- context [mapM ?f ?l w1] =>
    destruct (mapM_ok f l) with (w := w1) as (es & Hes & Hlen') end.
  { intros [t [c|a]] w0; simpl; eauto using getEmbedding_settle_ok. }
  exists es. split; auto.
  rewrite Hlen', length_combine, Hlen. lia.
Qed.

(** *** searchSAPProducts *)


Ltac search_start :=
  cbv beta iota delta [searchSAPProducts Agent.searchSAPProducts
                       tryCatch bind call_axios lift ret].

Lemma getEmbedding_settle_value text r w :
  fst (getEmbedding_settle text r w) = Ok (settled r).
Proof. destruct r as [[[|x vs]|]|]; reflexivity. Qed.

Lemma getEmbedding_embeddingFor env text w :
  exists e, fst (getEmbedding env text w) = Ok e /\
            embeddingFor env (embeddingCache w) text e.
Proof.
  unfold getEmbedding, bind, getEmbedding_request, embeddingFor.
  destruct (getCachedEmbedding text (embeddingCache w)) as [cached|].
  - exists cached. auto.
  - eexists. split; [apply getEmbedding_settle_value|]. eauto.
Qed.

(** The requests of [getEmbeddings]: the cache is only read. *)
Lemma requests_embeddingFor env texts : forall w,
  exists rs w',
    mapM (getEmbedding_request env) texts w = (Ok rs, w') /\
    embeddingCache w' = embeddingCache w /\
    Forall2 (fun text r =>
               embeddingFor env (embeddingCache w) text
                 match r with inl cached => cached | inr a => settled a end)
            texts rs.
Proof.
  induction texts as [|t texts IH]; intros w; simpl.
  - exists [], w. repeat split; auto.
  - unfold bind at 1.
    assert (H : exists r w1,
               getEmbedding_request env t w = (Ok r, w1) /\
               embeddingCache w1 = embeddingCache w /\
               embeddingFor env (embeddingCache w) t
                 match r with inl cached => cached | inr a => settled a end).
    { unfold getEmbedding_request, embeddingFor.
      destruct (getCachedEmbedding t (embeddingCache w)) as [cached|].
      - exists (inl cached), w. auto.
      - eexists (inr _), _. repeat split. eauto. }
    destruct H as (r & w1 & Hr & Hc & He). rewrite Hr.
    destruct (IH w1) as (rs & w' & Hrs & Hc' & Hall).
    unfold bind. rewrite Hrs. simpl.
    exists (r :: rs), w'. repeat split; [congruence|].
    constructor; auto. now rewrite <- Hc.
Qed.

Lemma mapM_values {A B} (f : A -> M B) (v : A -> B) (l : list A) :
  (forall x w, fst (f x w) = Ok (v x)) ->
  forall w, fst (mapM f l w) = Ok (map v l).
Proof.
  intros Hf. induction l as [|x l IH]; intros w; simpl; auto.
  unfold bind. specialize (Hf x w).
  destruct (f x w) as [o w1]. simpl in Hf. subst o.
  specialize (IH w1).
  destruct (mapM f l w1) as [o w2]. simpl in IH. subst o. reflexivity.
Qed.

Lemma settles_values (l : list (jsstring * (embedding + outcome (option embedding)))) :
  forall w,
    fst (mapM (fun tr => match snd tr with
                         | inl cached => ret cached
                         | inr answer => getEmbedding_settle (fst tr) answer
                         end) l w)
    = Ok (map (fun tr => match snd tr with
                         | inl cached => cached
                         | inr a => settled a
                         end) l).
Proof.
  apply mapM_values. intros [t [c|a]] w; simpl.
  - reflexivity.
  - apply getEmbedding_settle_value.
Qed.

(** Every candidate text gets its embedding against the cache as it
    was before the first answer arrived. *)
Lemma getEmbeddings_embeddingFor env texts w es w' :
  getEmbeddings env texts w = (Ok es, w') ->
  Forall2 (embeddingFor env (embeddingCache w)) texts es.
Proof.
  unfold getEmbeddings, bind. intros H.
  destruct (requests_embeddingFor env texts w) as (rs & w1 & Hrs & _ & Hall).
  rewrite Hrs in H.
  pose proof (settles_values (combine texts rs) w1) as Hv.
  rewrite H in Hv. simpl in Hv. injection Hv as ->.
  clear H Hrs. induction Hall as [|t r texts rs Hh Ht IH]; simpl.
  - constructor.
  - constructor; auto.
Qed.

Lemma omap_nonempty {A B} (f : A -> outcome B) l l' :
  omap f l = Ok l' -> l' <> [] -> l <> [].
Proof. intros H Hn ->. simpl in H. injection H as <-. now apply Hn. Qed.

(** C2. When the cleaned candidate list (which exists once the product
    list has passed the emptiness check) has at most two products, the
    search returns the serialization of that list as it is; the only
    thing asked of the outside is the search request itself, so no
    embedding is requested, and the embedding cache is left untouched. *)
Theorem search_skips_ranking env query w data ps cleanedProducts :
  axios env (log w) (searchRequest env query) = Ok data ->
  getProp data (js "products") = Ok (VArr ps) ->
  lengthIsZero (VArr ps) = false ->
  omap (cleanProduct env) ps = Ok cleanedProducts ->
  (length cleanedProducts <= 2)%nat ->
  let result := searchSAPProducts env query w in
  fst result = Ok (JSON_stringify env (products cleanedProducts)) /\
  embeddingCache (snd result) = embeddingCache w /\
  log (snd result) = (log w ++ [EvHttp (searchRequest env query)])%list.
Proof.
  intros Hax Hps Hne Hclean Hlen.
  search_start. rewrite Hax. cbv beta iota. rewrite Hps. cbv beta iota.
  rewrite Hne. cbn [truthy negb orb arrayOf obind].
  rewrite Hclean.
  apply Nat.leb_le in Hlen. rewrite Hlen.
  cbv beta iota zeta. cbn [fst snd]. auto.
Qed.

Lemma search_skips_ranking_witness :
  fst (searchSAPProducts
         (demoEnv (VObj [(js "products", VArr [demoProduct "P1" "Lens" "50mm"])]) [])
         (js "lens") initialWorld)
  = Ok (js "[P1;]").
Proof.
  refine (proj1 (search_skips_ranking
    (demoEnv (VObj [(js "products", VArr [demoProduct "P1" "Lens" "50mm"])]) [])
    (js "lens") initialWorld _ _ _ eq_refl eq_refl eq_refl eq_refl _)).
  simpl. lia.
Defined.




Lemma getEmbedding_ok env text w :
  exists e, fst (getEmbedding env text w) = Ok e.
Proof.
  unfold getEmbedding, bind, getEmbedding_request.
  destruct (getCachedEmbedding text (embeddingCache w)); simpl; eauto.
  apply getEmbedding_settle_ok.
Qed.

(** The search always returns a string. *)
Lemma searchSAPProducts_ok env query w :
  exists r w', searchSAPProducts env query w = (Ok r, w').
Proof.
  search_start.
  destruct (axios env (log w) (searchRequest env query)) as [data|e];
    [|eauto].
  cbv beta iota.
  destruct (getProp data (js "products")) as [ps|e]; [|eauto].
  cbv beta iota.
  destruct (negb (truthy ps) || lengthIsZero ps); [eauto|].
  destruct (obind (arrayOf ps) (omap (cleanProduct env)))
    as [cleanedProducts|e]; [|eauto].
  destruct (length cleanedProducts <=? 2)%nat; [eauto|].
  set (w0 := record _ w).
  destruct (getEmbedding_ok env query w0) as [qe Hqe].
  destruct (getEmbedding env query w0) as [o w1]. simpl in Hqe. subst o.
  destruct qe as [|q0 qs]; [eauto|].
  destruct (getEmbeddings_ok env (map (productText env) cleanedProducts) w1)
    as (es & Hes & _).
  destruct (getEmbeddings env _ w1) as [o w2]. simpl in Hes. subst o.
  eauto.
Qed.

(** What [rank] returns are candidates without their score. *)
Lemma rank_members env queryEmbedding cleanedProducts productEmbeddings :
  Forall (fun c => NoDup (JsMap.keys c)) cleanedProducts ->
  Forall (fun o => exists c, In c cleanedProducts /\ o = dropKey scoreKey c)
         (rank env queryEmbedding cleanedProducts productEmbeddings).
Proof.
  intros Hnd. unfold rank. apply Forall_forall. intros o Ho.
  apply in_map_iff in Ho as (so & <- & Hso).
  assert (Hso' : In so (sort (byScoreDescending env)
                    (map (fun pe => withScore (fst pe)
                            (Num.cosineSimilarity queryEmbedding (snd pe)))
                         (combine cleanedProducts productEmbeddings)))).
  { rewrite <- (firstn_skipn 3 (sort _ _)). apply in_or_app. now left. }
  apply (Permutation_in _ (sort_perm _ _)) in Hso'.
  apply in_map_iff in Hso' as ([c e] & <- & Hce).
  apply in_combine_l in Hce. simpl.
  exists c. split; auto.
  apply withoutScore_withScore.
  rewrite Forall_forall in Hnd. auto.
Qed.

(** C6, as amended.  Neither version of [searchSAPProducts] ever
    throws.  The server's version returns ["No products found."] when
    the response has no products or an empty product list, the
    connection-error string when the HTTP call fails or when handling
    the response raises (the body is [null], the products are not an
    array, a product is [null] or has a name or description that is
    truthy and not a string), and otherwise the serialization of a list
    of cleaned products (some with the score property dropped).  The
    command-line agent returns ["No products found."] when the products
    are missing or falsy, the error string when the call fails or the
    body is [null], and the serialized products when they are a truthy
    value other than an empty list. *)
Theorem searchSAPProducts_outcomes env query w :
  (exists r w',
     searchSAPProducts env query w = (Ok r, w') /\
     match axios env (log w) (searchRequest env query) with
     | Throw _ => r = connectionError
     | Ok data =>
         match getProp data (js "products") with
         | Throw _ => r = connectionError
         | Ok ps =>
             if negb (truthy ps) || lengthIsZero ps then r = noProducts
             else
               match obind (arrayOf ps) (omap (cleanProduct env)) with
               | Throw _ => r = connectionError
               | Ok cleanedProducts =>
                   exists l,
                     r = JSON_stringify env (products l) /\
                     Forall (fun o => exists c, In c cleanedProducts /\
                                        (o = c \/ o = dropKey scoreKey c)) l
               end
         end
     end) /\
  (exists r w',
     Agent.searchSAPProducts env query w = (Ok r, w') /\
     match axios env (log w) (Agent.searchRequest env query) with
     | Throw _ => r = connectionError
     | Ok data =>
         match getProp data (js "products") with
         | Throw _ => r = connectionError
         | Ok ps =>
             if negb (truthy ps) then r = noProducts
             else lengthIsZero ps = false -> r = JSON_stringify env ps
         end
     end).
Proof.
  split.
  - search_start.
    destruct (axios env (log w) (searchRequest env query)) as [data|e];
      [|eauto].
    cbv beta iota.
    destruct (getProp data (js "products")) as [ps|e]; [|eauto].
    cbv beta iota.
    destruct (negb (truthy ps) || lengthIsZero ps); [eauto|].
    destruct (obind (arrayOf ps) (omap (cleanProduct env)))
      as [cleanedProducts|e] eqn:Hclean; [|eauto].
    assert (Hnd : Forall (fun c => NoDup (JsMap.keys c)) cleanedProducts).
    { unfold obind in Hclean. destruct (arrayOf ps); [|discriminate].
      eapply omap_Forall; eauto using cleanProduct_nodup. }
    destruct (length cleanedProducts <=? 2)%nat.
    { do 2 eexists. split; [reflexivity|].
      exists cleanedProducts. split; auto.
      apply Forall_forall. eauto. }
    set (w0 := record _ w).
    destruct (getEmbedding_ok env query w0) as [qe Hqe].
    destruct (getEmbedding env query w0) as [o w1]. simpl in Hqe. subst o.
    destruct qe as [|q0 qs].
    { do 2 eexists. split; [reflexivity|].
      exists (firstn 3 cleanedProducts). split; auto.
      apply Forall_forall. intros o Ho. exists o. split; auto.
      rewrite <- (firstn_skipn 3 cleanedProducts). apply in_or_app. now left. }
    destruct (getEmbeddings_ok env (map (productText env) cleanedProducts) w1)
      as (es & Hes & _).
    destruct (getEmbeddings env _ w1) as [o w2]. simpl in Hes. subst o.
    do 2 eexists. split; [reflexivity|].
    eexists. split; [reflexivity|].
    eapply Forall_impl; [|apply rank_members; exact Hnd].
    intros o (c & Hc & ->). eauto.
  - search_start.
    destruct (axios env (log w) (Agent.searchRequest env query)) as [data|e];
      [|eauto].
    cbv beta iota.
    destruct (getProp data (js "products")) as [ps|e]; [|eauto].
    cbv beta iota.
    destruct (negb (truthy ps)); eauto.
Qed.

(** The catch-all at work: here the HTTP call succeeds and the product
    list is not empty, yet the result is the connection-error string,
    which is no serialization of products. *)
Lemma searchSAPProducts_error_without_failure :
  let data := VObj [(js "products",
                     VArr [VObj [(js "code", str "P1"); (js "name", VNum 5%float)]])] in
  let env := demoEnv data [] in
  axios env (log initialWorld) (searchRequest env (js "lens")) = Ok data /\
  getProp data (js "products")
    = Ok (VArr [VObj [(js "code", str "P1"); (js "name", VNum 5%float)]]) /\
  fst (searchSAPProducts env (js "lens") initialWorld) = Ok connectionError /\
  connectionError <> noProducts /\
  (forall v, JSON_stringify env v <> connectionError).
Proof.
  repeat split; try (vm_compute; reflexivity); try discriminate.
Qed.

(** The command-line agent serializes an empty product list where the
    server answers ["No products found."]. *)
Example agent_search_empty_list :
  let env := demoEnv (VObj [(js "products", VArr [])]) [] in
  fst (Agent.searchSAPProducts env (js "lens") initialWorld) = Ok (js "[]") /\
  fst (searchSAPProducts env (js "lens") initialWorld) = Ok noProducts.
Proof. split; vm_compute; reflexivity. Qed.

(** ** Effects of computations *)

Section Effects.
Variable R : world -> world -> Prop.
Hypothesis R_refl : forall w, R w w.
Hypothesis R_trans : forall w1 w2 w3, R w1 w2 -> R w2 w3 -> R w1 w3.

Lemma effect_ret {A} (a : A) : effect R (ret a).
Proof. intros w. apply R_refl. Qed.

Lemma effect_throw {A} (e : jserror) : effect R (@throw A e).
Proof. intros w. apply R_refl. Qed.

Lemma effect_lift {A} (x : outcome A) : effect R (lift x).
Proof. intros w. apply R_refl. Qed.

Lemma effect_gets {A} (f : world -> A) : effect R (gets f).
Proof. intros w. apply R_refl. Qed.

Lemma effect_bind {A B} (m : M A) (f : A -> M B) :
  effect R m -> (forall a, effect R (f a)) -> effect R (bind m f).
Proof.
  intros Hm Hf w. unfold bind. specialize (Hm w).
  destruct (m w) as [[a|e] w1]; simpl in *; auto.
  eapply R_trans; [exact Hm | apply Hf].
Qed.

Lemma effect_tryCatch {A} (m : M A) (h : jserror -> M A) :
  effect R m -> (forall e, effect R (h e)) -> effect R (tryCatch m h).
Proof.
  intros Hm Hh w. unfold tryCatch. specialize (Hm w).
  destruct (m w) as [[a|e] w1]; simpl in *; auto.
  eapply R_trans; [exact Hm | apply Hh].
Qed.

Lemma effect_mapM {A B} (f : A -> M B) (l : list A) :
  (forall x, effect R (f x)) -> effect R (mapM f l).
Proof.
  intros Hf. induction l as [|x l IH]; simpl.
  - apply effect_ret.
  - apply effect_bind; auto. intros y.
    apply effect_bind; auto using effect_ret.
Qed.

End Effects.

(** Structural steps of an effect proof; the leaves are left to the
    hint database. *)
Ltac effect_step :=
  intros;
  match goal with
  | |- effect _ (bind _ _) => apply effect_bind
  | |- effect _ (tryCatch _ _) => apply effect_tryCatch
  | |- effect _ (ret _) => apply effect_ret
  | |- effect _ (throw _) => apply effect_throw
  | |- effect _ (lift _) => apply effect_lift
  | |- effect _ (gets _) => apply effect_gets
  | |- effect _ (getSession _) => apply effect_gets
  | |- effect _ (mapM _ _) => apply effect_mapM
  | |- effect _ (if ?b then _ else _) => destruct b
  | |- effect _ (match ?x with _ => _ end) => destruct x
  end.

Create HintDb effects.

Ltac effects := repeat effect_step; eauto 4 with effects.

(** *** Only the cache and the log *)

Lemma inside_refl w : inside w w.
Proof. unfold inside. auto. Qed.

Lemma inside_trans w1 w2 w3 : inside w1 w2 -> inside w2 w3 -> inside w1 w3.
Proof. unfold inside. intuition congruence. Qed.

#[local] Hint Resolve inside_refl inside_trans : core.

Lemma inside_withCache f : effect inside (modify (withCache f)).
Proof. intros w. unfold inside. simpl. auto. Qed.

Lemma inside_call_axios env r : effect inside (call_axios env r).
Proof. intros w. unfold inside. simpl. auto. Qed.

Lemma inside_call_generateContent env p :
  effect inside (call_generateContent env p).
Proof. intros w. unfold inside. simpl. auto. Qed.

Lemma inside_getEmbedding_request env t :
  effect inside (getEmbedding_request env t).
Proof.
  intros w. unfold getEmbedding_request.
  destruct (getCachedEmbedding t (embeddingCache w)); unfold inside; simpl; auto.
Qed.

#[local] Hint Resolve inside_withCache inside_call_axios
  inside_call_generateContent inside_getEmbedding_request : effects.

Lemma inside_getEmbedding_settle t r : effect inside (getEmbedding_settle t r).
Proof. unfold getEmbedding_settle. effects. Qed.

#[local] Hint Resolve inside_getEmbedding_settle : effects.

Lemma inside_getEmbedding env t : effect inside (getEmbedding env t).
Proof. unfold getEmbedding. effects. Qed.

Lemma inside_getEmbeddings env ts : effect inside (getEmbeddings env ts).
Proof. unfold getEmbeddings. effects. Qed.

#[local] Hint Resolve inside_getEmbedding inside_getEmbeddings : effects.

Lemma inside_searchSAPProducts env q : effect inside (searchSAPProducts env q).
Proof. unfold searchSAPProducts. effects. Qed.

#[local] Hint Resolve inside_searchSAPProducts : effects.

Lemma inside_runAgent env input : effect inside (runAgent env input).
Proof.
  unfold runAgent, actOnReviews, actOnView, actOnSearch. effects.
Qed.

#[local] Hint Resolve inside_runAgent : effects.

(** *** Growth of the log *)

Lemma logGrows_refl P w : logGrows P w w.
Proof. exists []. rewrite app_nil_r. auto. Qed.

Lemma logGrows_trans P w1 w2 w3 :
  logGrows P w1 w2 -> logGrows P w2 w3 -> logGrows P w1 w3.
Proof.
  intros (e1 & H1 & F1) (e2 & H2 & F2). exists (e1 ++ e2)%list.
  rewrite H2, H1, app_assoc. split; auto. apply Forall_app. auto.
Qed.

#[local] Hint Resolve logGrows_refl logGrows_trans : core.

Lemma logGrows_nothing w w' :
  logGrows (fun _ => False) w w' -> log w' = log w.
Proof.
  intros (evs & H & F). destruct evs as [|ev evs].
  - now rewrite app_nil_r in H.
  - inversion F; contradiction.
Qed.

Lemma logGrows_record (P : event -> Prop) ev w : P ev -> logGrows P w (record ev w).
Proof. intros H. exists [ev]. simpl. auto. Qed.

Lemma logGrows_withCache P f : effect (logGrows P) (modify (withCache f)).
Proof. intros w. exists []. simpl. rewrite app_nil_r. auto. Qed.

Lemma logGrows_withSessions P f : effect (logGrows P) (modify (withSessions f)).
Proof. intros w. exists []. simpl. rewrite app_nil_r. auto. Qed.

Lemma logGrows_setSession P sid s : effect (logGrows P) (setSession sid s).
Proof. apply logGrows_withSessions. Qed.

#[local] Hint Resolve logGrows_withCache logGrows_withSessions
  logGrows_setSession : effects.

Lemma embed_getEmbedding_request env t :
  effect (logGrows isEmbed) (getEmbedding_request env t).
Proof.
  intros w. unfold getEmbedding_request.
  destruct (getCachedEmbedding t (embeddingCache w)); simpl; auto.
  apply logGrows_record. exact I.
Qed.

#[local] Hint Resolve embed_getEmbedding_request : effects.

Lemma embed_getEmbedding_settle t r :
  effect (logGrows isEmbed) (getEmbedding_settle t r).
Proof. unfold getEmbedding_settle. effects. Qed.

#[local] Hint Resolve embed_getEmbedding_settle : effects.

Lemma embed_getEmbedding env t : effect (logGrows isEmbed) (getEmbedding env t).
Proof. unfold getEmbedding. effects. Qed.

Lemma embed_getEmbeddings env ts :
  effect (logGrows isEmbed) (getEmbeddings env ts).
Proof. unfold getEmbeddings. effects. Qed.

#[local] Hint Resolve embed_getEmbedding embed_getEmbeddings : effects.

(** A guarded computation that starts with an HTTP call: the call is
    logged, and the rest runs on its answer. *)
Lemma call_axios_first {A} env r (f : value -> M A) h w :
  tryCatch (bind (call_axios env r) f) h w =
  tryCatch (bind (lift (axios env (log w) r)) f) h (record (EvHttp r) w).
Proof.
  unfold tryCatch, bind, call_axios, lift.
  destruct (axios env (log w) r); reflexivity.
Qed.

(** The search asks the platform once and then only for embeddings. *)
Lemma searchSAPProducts_log env q w :
  exists embeds,
    log (snd (searchSAPProducts env q w)) =
    (log w ++ EvHttp (searchRequest env q) :: embeds)%list /\
    Forall isEmbed embeds.
Proof.
  unfold searchSAPProducts. rewrite call_axios_first.
  match goal with |- context [snd (?m (record ?ev w))] =>
    assert (H : effect (logGrows isEmbed) m) by effects;
    destruct (H (record ev w)) as (evs & Hlog & Hall)
  end.
  exists evs. rewrite Hlog. simpl. rewrite <- app_assoc. auto.
Qed.

(** *** runAgent *)

Example matchTag_first :
  matchTag SEARCH (js "Sure! [SEARCH: red camera] coming up [SEARCH: x]")
  = Some (js "red camera").
Proof. reflexivity. Qed.

Example matchTag_needs_content :
  matchTag SEARCH (js "[SEARCH: ] and [SEARCH:camera] and [SEARCH: open") = None.
Proof. reflexivity. Qed.

Example matchTag_runs_to_bracket :
  matchTag VIEW (js "[VIEW: a[VIEW: 42]") = Some (js "a[VIEW: 42").
Proof. reflexivity. Qed.

Example trim_spaces : trim (10 :: 9 :: js "  300938 " ++ [160])%list = js "300938".
Proof. reflexivity. Qed.

Example runAgent_search_demo :
  fst (runAgent (demoEnv demoCatalog (js "[SEARCH: camera] one moment"))
         (js "I need a camera") initialWorld)
  = Ok (VObj [(js "response", str "[SEARCH: camera] one moment");
              (js "searched", VBool true);
              (js "products", VArr [])]).
Proof. vm_compute. reflexivity. Qed.

Lemma actOnReviews_ok env s code w :
  exists v, fst (actOnReviews env s code w) = Ok v.
Proof.
  unfold actOnReviews, tryCatch, bind, call_axios, lift, ret. cbv zeta.
  destruct (axios env (log w) (reviewsRequest env code)); simpl; eauto.
  destruct (reviewsSummary env _); simpl; eauto.
Qed.

Lemma actOnReviews_log env s code w :
  log (snd (actOnReviews env s code w)) =
  (log w ++ [EvHttp (reviewsRequest env code)])%list.
Proof.
  unfold actOnReviews. rewrite call_axios_first.
  match goal with |- context [snd (?m (record ?ev w))] =>
    assert (H : effect (logGrows (fun _ => False)) m) by effects;
    specialize (H (record ev w))
  end.
  apply logGrows_nothing in H. rewrite H. reflexivity.
Qed.

Lemma actOnView_ok env s code w :
  exists v, fst (actOnView env s code w) = Ok v.
Proof.
  unfold actOnView, tryCatch, bind, call_axios, ret.
  destruct (axios env (log w) (viewRequest env code)); simpl; eauto.
Qed.

Lemma actOnView_log env s code w :
  log (snd (actOnView env s code w)) =
  (log w ++ [EvHttp (viewRequest env code)])%list.
Proof.
  unfold actOnView. rewrite call_axios_first.
  match goal with |- context [snd (?m (record ?ev w))] =>
    assert (H : effect (logGrows (fun _ => False)) m) by effects;
    specialize (H (record ev w))
  end.
  apply logGrows_nothing in H. rewrite H. reflexivity.
Qed.

Lemma tryCatch_ok {A} (m : M A) h w :
  (exists a, fst (m w) = Ok a) -> tryCatch m h w = m w.
Proof.
  intros [a H]. unfold tryCatch.
  destruct (m w) as [[x|e] w']; simpl in H; congruence.
Qed.

Lemma runAgent_branches env userInput w response assistantResponse :
  generateContent env (log w) (fullPrompt userInput) = Ok response ->
  responseText response = Ok (VStr assistantResponse) ->
  runAgent env userInput w =
  tryCatch
    match matchTag REVIEWS assistantResponse with
    | Some code => actOnReviews env assistantResponse (trim code)
    | None =>
        match matchTag VIEW assistantResponse with
        | Some code => actOnView env assistantResponse (trim code)
        | None =>
            match matchTag SEARCH assistantResponse with
            | Some query => actOnSearch env userInput query
            | None =>
                ret (VObj [(js "response", VStr assistantResponse);
                           (js "searched", VBool false);
                           (js "products", VArr [])])
            end
        end
    end
    (fun error =>
       ret (VObj [(js "response", VStr (js "Error: " ++ message error)%list);
                  (js "searched", VBool false);
                  (js "products", VArr []);
                  (js "error", VBool true)]))
    (record (EvGenerate (fullPrompt userInput)) w).
Proof.
  intros Hgen Htext.
  unfold runAgent, tryCatch at 1, bind at 1 2, call_generateContent, lift.
  rewrite Hgen. cbv beta iota. rewrite Htext. cbv beta iota.
  reflexivity.
Qed.

Lemma actOnSearch_log env userInput query h w :
  (forall e, effect (logGrows (fun _ => False)) (h e)) ->
  exists sapResults w1 embeds,
    searchSAPProducts env query w = (Ok sapResults, w1) /\
    log w1 = (log w ++ EvHttp (searchRequest env query) :: embeds)%list /\
    Forall isEmbed embeds /\
    log (snd (tryCatch (actOnSearch env userInput query) h w)) =
    (log w1 ++ [EvGenerate (refinedPrompt userInput sapResults)])%list.
Proof.
  intros Hh.
  destruct (searchSAPProducts_ok env query w) as (sapResults & w1 & Hs).
  destruct (searchSAPProducts_log env query w) as (embeds & Hlog & Hall).
  rewrite Hs in Hlog. simpl in Hlog.
  exists sapResults, w1, embeds. repeat split; auto.
  unfold actOnSearch, tryCatch, bind at 1. rewrite Hs. cbv beta iota.
  unfold bind at 1, call_generateContent.
  set (w2 := record _ w1).
  assert (Hw2 : log w2 = (log w1 ++ [EvGenerate (refinedPrompt userInput sapResults)])%list)
    by reflexivity.
  destruct (generateContent env (log w1) _) as [refined|e]; cbv beta iota.
  - match goal with |- context [?m w2] =>
      assert (H : effect (logGrows (fun _ => False)) m) by effects;
      specialize (H w2); apply logGrows_nothing in H
    end.
    destruct (bind _ _ w2) as [[v|e] w3]; simpl in *.
    + congruence.
    + rewrite (logGrows_nothing _ _ (Hh e w3)). congruence.
  - rewrite (logGrows_nothing _ _ (Hh e w2)). exact Hw2.
Qed.

(** C9. Given the text of the model's answer, [runAgent] acts on one
    directive at most: a [[REVIEWS: code]] tag, when present, leads to
    the reviews request and nothing else; failing that a [[VIEW: code]]
    tag leads to the product request and nothing else; failing both a
    [[SEARCH: query]] tag leads to the product search (with its
    embedding requests) and the second question to the model; with no
    tag nothing more is asked of the outside. *)
Theorem runAgent_precedence env userInput w response assistantResponse :
  generateContent env (log w) (fullPrompt userInput) = Ok response ->
  responseText response = Ok (VStr assistantResponse) ->
  let w0 := record (EvGenerate (fullPrompt userInput)) w in
  let after := log (snd (runAgent env userInput w)) in
  match matchTag REVIEWS assistantResponse with
  | Some code =>
      runAgent env userInput w
        = actOnReviews env assistantResponse (trim code) w0 /\
      after = (log w0 ++ [EvHttp (reviewsRequest env (trim code))])%list
  | None =>
      match matchTag VIEW assistantResponse with
      | Some code =>
          runAgent env userInput w
            = actOnView env assistantResponse (trim code) w0 /\
          after = (log w0 ++ [EvHttp (viewRequest env (trim code))])%list
      | None =>
          match matchTag SEARCH assistantResponse with
          | Some query =>
              exists sapResults w1 embeds,
                searchSAPProducts env query w0 = (Ok sapResults, w1) /\
                log w1 = (log w0 ++ EvHttp (searchRequest env query) :: embeds)%list /\
                Forall isEmbed embeds /\
                after = (log w1 ++
                         [EvGenerate (refinedPrompt userInput sapResults)])%list
          | None =>
              runAgent env userInput w =
              (Ok (VObj [(js "response", VStr assistantResponse);
                         (js "searched", VBool false);
                         (js "products", VArr [])]), w0)
          end
      end
  end.
Proof.
  intros Hgen Htext w0 after. unfold after.
  rewrite (runAgent_branches _ _ _ _ _ Hgen Htext). fold w0.
  destruct (matchTag REVIEWS assistantResponse) as [code|].
  { rewrite tryCatch_ok by apply actOnReviews_ok.
    split; [reflexivity | apply actOnReviews_log]. }
  destruct (matchTag VIEW assistantResponse) as [code|].
  { rewrite tryCatch_ok by apply actOnView_ok.
    split; [reflexivity | apply actOnView_log]. }
  destruct (matchTag SEARCH assistantResponse) as [query|].
  { apply actOnSearch_log. intros e. effects. }
  reflexivity.
Qed.

Lemma runAgent_precedence_witness :
  log (snd (runAgent (demoEnv demoCatalog demoTagged) (js "hello") initialWorld))
  = [EvGenerate (fullPrompt (js "hello"));
     EvHttp (reviewsRequest (demoEnv demoCatalog demoTagged) (js "300938"))].
Proof.
  exact (proj2 (runAgent_precedence (demoEnv demoCatalog demoTagged) (js "hello")
                  initialWorld (demoAnswer demoTagged) demoTagged
                  eq_refl eq_refl)).
Defined.

(** ** The shop's maps *)

Lemma effect_weaken {A} (R R' : world -> world -> Prop) (m : M A) :
  (forall w w', R w w' -> R' w w') -> effect R m -> effect R' m.
Proof. intros H Hm w. apply H, Hm. Qed.

Lemma inside_sameShop w w' : inside w w' -> sameShop w w'.
Proof. unfold inside, sameShop. tauto. Qed.

Lemma sameShop_refl w : sameShop w w.
Proof. unfold sameShop. auto. Qed.

Lemma sameShop_trans w1 w2 w3 : sameShop w1 w2 -> sameShop w2 w3 -> sameShop w1 w3.
Proof. unfold sameShop. intuition congruence. Qed.

#[local] Hint Resolve sameShop_refl sameShop_trans : core.

Lemma sameShop_withUsers f : effect sameShop (modify (withUsers f)).
Proof. intros w. split; reflexivity. Qed.

Lemma sameShop_withSessions f : effect sameShop (modify (withSessions f)).
Proof. intros w. split; reflexivity. Qed.

Lemma sameShop_setSession sid s : effect sameShop (setSession sid s).
Proof. apply sameShop_withSessions. Qed.

Lemma sameShop_destroySession sid : effect sameShop (destroySession sid).
Proof. apply sameShop_withSessions. Qed.

Lemma sameShop_call_axios env r : effect sameShop (call_axios env r).
Proof. intros w. split; reflexivity. Qed.

Lemma sameShop_call_randomUUID env : effect sameShop (call_randomUUID env).
Proof. intros w. split; reflexivity. Qed.

Lemma sameShop_call_newDate env : effect sameShop (call_newDate env).
Proof. intros w. split; reflexivity. Qed.

Lemma sameShop_runAgent env q : effect sameShop (runAgent env q).
Proof. eapply effect_weaken; [apply inside_sameShop | apply inside_runAgent]. Qed.

#[local] Hint Resolve sameShop_withUsers sameShop_withSessions
  sameShop_setSession sameShop_destroySession sameShop_call_axios
  sameShop_call_randomUUID sameShop_call_newDate sameShop_runAgent : effects.

(** With no cart on record the order endpoint answers 400 and changes
    nothing. *)
Lemma postOrdersCreate_empty env req w :
  carts w = [] ->
  truthy (Session.userId (sessionOf (sid req) w)) = true ->
  postOrdersCreate env req w =
  (Ok (statusJson 400 (errorBody "Cart is empty")), w).
Proof.
  intros Hc Hu.
  unfold postOrdersCreate, requireAuth, bind, getSession, gets, ret.
  rewrite Hu. cbv beta iota. cbn [negb]. rewrite Hc. reflexivity.
Qed.

Lemma postOrdersCreate_unauthenticated env req w :
  truthy (Session.userId (sessionOf (sid req) w)) = false ->
  postOrdersCreate env req w =
  (Ok (statusJson 401 (errorBody "Authentication required")), w).
Proof.
  intros Hu.
  unfold postOrdersCreate, requireAuth, bind, getSession, gets, ret.
  rewrite Hu. reflexivity.
Qed.

(** Every endpoint but the order endpoint leaves [carts] and [orders]
    as they are, whatever the state. *)
Lemma handler_sameShop env req :
  route req <> PostOrdersCreate -> effect sameShop (handler env req).
Proof.
  intros Hr. unfold handler.
  destruct (route req); try congruence;
    unfold postAuthRegister, postAuthLogin, getAuthLogout, getAuthMe,
           getProduct, getProductReviews, getCart, postCartAdd,
           postCartRemove, postCartUpdate, postSearch, getOrder, getOrders,
           requireAuth;
    effects.
Qed.

Lemma handle_sameShop env req w :
  carts w = [] /\ orders w = [] ->
  carts (snd (handle env req w)) = [] /\ orders (snd (handle env req w)) = [].
Proof.
  intros [Hc Ho]. unfold handle.
  destruct (endpoint_eq_dec (route req) PostOrdersCreate) as [Hr|Hr].
  - unfold handler. rewrite Hr.
    destruct (truthy (Session.userId (sessionOf (sid req) w))) eqn:Hu.
    + rewrite postOrdersCreate_empty by assumption. simpl. auto.
    + rewrite postOrdersCreate_unauthenticated by assumption. simpl. auto.
  - pose proof (handler_sameShop env req Hr w) as [H1 H2].
    destruct (handler env req w) as [[r|e] w']; simpl in *; split; congruence.
Qed.

Lemma serve_snoc env reqs req w :
  serve env (reqs ++ [req]) w = snd (handle env req (serve env reqs w)).
Proof. unfold serve. now rewrite fold_left_app. Qed.

Lemma serve_shop_empty env reqs :
  carts (serve env reqs initialWorld) = [] /\
  orders (serve env reqs initialWorld) = [].
Proof.
  induction reqs as [|req reqs IH] using rev_ind.
  - split; reflexivity.
  - rewrite serve_snoc. now apply handle_sameShop.
Qed.



(** ** The cart handle in the session *)

Lemma get_delete_other {V} k k' (m : list (jsstring * V)) :
  k' <> k ->
  JsMap.get str_eqb k' (JsMap.delete str_eqb k m) = JsMap.get str_eqb k' m.
Proof.
  intros Hne. induction m as [|[k1 v1] r IH]; simpl; auto.
  destruct (str_eqb k1 k) eqn:E; simpl.
  - apply str_eqb_eq in E. subst k1.
    destruct (str_eqb k k') eqn:E'; auto.
    apply str_eqb_eq in E'. congruence.
  - destruct (str_eqb k1 k'); auto.
Qed.

Lemma sessionOf_set_same sid s w :
  sessionOf sid (withSessions (JsMap.set str_eqb sid s) w) = s.
Proof. unfold sessionOf. simpl. now rewrite get_set_same. Qed.

Lemma sessionOf_set_other sid sid' s w :
  sid <> sid' ->
  sessionOf sid (withSessions (JsMap.set str_eqb sid' s) w) = sessionOf sid w.
Proof. intros H. unfold sessionOf. simpl. now rewrite get_set_other. Qed.

Lemma sessionOf_delete_other sid sid' w :
  sid <> sid' ->
  sessionOf sid (withSessions (JsMap.delete str_eqb sid') w) = sessionOf sid w.
Proof. intros H. unfold sessionOf. simpl. now rewrite get_delete_other. Qed.

Lemma sessionOf_same sid w w' :
  sessions w' = sessions w -> sessionOf sid w' = sessionOf sid w.
Proof. unfold sessionOf. now intros ->. Qed.

Lemma sameSessions_refl w : sameSessions w w.
Proof. reflexivity. Qed.

Lemma sameSessions_trans w1 w2 w3 :
  sameSessions w1 w2 -> sameSessions w2 w3 -> sameSessions w1 w3.
Proof. unfold sameSessions. congruence. Qed.

Lemma keepsCart_refl sid g w : keepsCart sid g w w.
Proof. unfold keepsCart. auto. Qed.

Lemma keepsCart_trans sid g w1 w2 w3 :
  keepsCart sid g w1 w2 -> keepsCart sid g w2 w3 -> keepsCart sid g w1 w3.
Proof. unfold keepsCart. auto. Qed.

#[local] Hint Resolve sameSessions_refl sameSessions_trans
  keepsCart_refl keepsCart_trans : core.

Lemma sameSessions_keepsCart sid g w w' :
  sameSessions w w' -> keepsCart sid g w w'.
Proof.
  unfold sameSessions, keepsCart. intros H Hg.
  now rewrite (sessionOf_same _ _ _ H).
Qed.

Lemma inside_sameSessions w w' : inside w w' -> sameSessions w w'.
Proof. unfold inside, sameSessions. tauto. Qed.

Lemma sameSessions_withCache f : effect sameSessions (modify (withCache f)).
Proof. intros w. reflexivity. Qed.

Lemma sameSessions_withUsers f : effect sameSessions (modify (withUsers f)).
Proof. intros w. reflexivity. Qed.

Lemma sameSessions_withCarts f : effect sameSessions (modify (withCarts f)).
Proof. intros w. reflexivity. Qed.

Lemma sameSessions_withOrders f : effect sameSessions (modify (withOrders f)).
Proof. intros w. reflexivity. Qed.

Lemma sameSessions_withOrderCounter f :
  effect sameSessions (modify (withOrderCounter f)).
Proof. intros w. reflexivity. Qed.

Lemma sameSessions_call_axios env r : effect sameSessions (call_axios env r).
Proof. intros w. reflexivity. Qed.

Lemma sameSessions_call_randomUUID env : effect sameSessions (call_randomUUID env).
Proof. intros w. reflexivity. Qed.

Lemma sameSessions_call_newDate env : effect sameSessions (call_newDate env).
Proof. intros w. reflexivity. Qed.

Lemma sameSessions_runAgent env q : effect sameSessions (runAgent env q).
Proof.
  eapply effect_weaken; [apply inside_sameSessions | apply inside_runAgent].
Qed.

#[local] Hint Resolve sameSessions_withCache sameSessions_withUsers
  sameSessions_withCarts sameSessions_withOrders sameSessions_withOrderCounter
  sameSessions_call_axios sameSessions_call_randomUUID
  sameSessions_call_newDate sameSessions_runAgent : effects.

Lemma handler_sameSessions env req :
  leavesSessions (route req) = true -> effect sameSessions (handler env req).
Proof.
  intros Hr. unfold handler.
  destruct (route req); try discriminate;
    unfold getAuthMe, getProduct, getProductReviews, getCart,
           postCartRemove, postCartUpdate, postSearch, postOrdersCreate,
           getOrder, getOrders, requireAuth;
    effects.
Qed.

(** Stepping through the first action of a computation. *)
Lemma bind_getSession {A} sid (f : session -> M A) w :
  bind (getSession sid) f w = f (sessionOf sid w) w.
Proof. reflexivity. Qed.

Lemma tryCatch_getSession {A} sid (f : session -> M A) h w :
  tryCatch (bind (getSession sid) f) h w = tryCatch (f (sessionOf sid w)) h w.
Proof. reflexivity. Qed.

Lemma tryCatch_bind_assoc {A B C} (m : M A) (f : A -> M B) (g : B -> M C) h w :
  tryCatch (bind (bind m f) g) h w =
  tryCatch (bind m (fun x => bind (f x) g)) h w.
Proof.
  unfold tryCatch, bind. destruct (m w) as [[a|e] w']; reflexivity.
Qed.

Lemma tryCatch_call_axios_ok {A} env r data (f : value -> M A) h w :
  axios env (log w) r = Ok data ->
  tryCatch (bind (call_axios env r) f) h w =
  tryCatch (f data) h (record (EvHttp r) w).
Proof.
  intros H. unfold tryCatch, bind, call_axios. now rewrite H.
Qed.

Lemma tryCatch_lift_ok {A B} (a : A) (f : A -> M B) h w :
  tryCatch (bind (lift (Ok a)) f) h w = tryCatch (f a) h w.
Proof. reflexivity. Qed.

Lemma tryCatch_ret {A B} (a : A) (f : A -> M B) h w :
  tryCatch (bind (ret a) f) h w = tryCatch (f a) h w.
Proof. reflexivity. Qed.

Lemma tryCatch_setSession {B} sid s (f : unit -> M B) h w :
  tryCatch (bind (setSession sid s) f) h w =
  tryCatch (f tt) h (withSessions (JsMap.set str_eqb sid s) w).
Proof. reflexivity. Qed.

Lemma handle_snd env req w : snd (handle env req w) = snd (handler env req w).
Proof. unfold handle. destruct (handler env req w) as [[r|e] w']; reflexivity. Qed.

Lemma logGrows_call_axios (P : event -> Prop) env r :
  P (EvHttp r) -> effect (logGrows P) (call_axios env r).
Proof. intros H w. simpl. now apply logGrows_record. Qed.

Lemma addresses_fetch env g :
  addresses (cartUrl env g) (EvHttp (fetchCartRequest env g)).
Proof. exists []. simpl. now rewrite app_nil_r. Qed.

Lemma addresses_remove env g itemId :
  addresses (cartUrl env g) (EvHttp (removeEntryRequest env g itemId)).
Proof. simpl. eauto. Qed.

Lemma addresses_update env g itemId quantity :
  addresses (cartUrl env g) (EvHttp (updateEntryRequest env g itemId quantity)).
Proof. simpl. eauto. Qed.

Lemma addresses_add env g productCode quantity :
  addresses (cartUrl env g) (EvHttp (addEntryRequest env g productCode quantity)).
Proof. simpl. eauto. Qed.

#[local] Hint Resolve logGrows_call_axios addresses_fetch addresses_remove
  addresses_update addresses_add : effects.

(** With a cart handle [g] in the session, reading the cart, removing
    an entry and changing a quantity call the platform, and every call
    goes to the cart URL of [g]. *)
Lemma cart_operation_addresses env r w g :
  truthy g = true ->
  Session.cartGuid (sessionOf (sid r) w) = g ->
  route r = GetCart \/ route r = PostCartRemove \/ route r = PostCartUpdate ->
  exists evs,
    log (snd (handle env r w)) = (log w ++ evs)%list /\
    evs <> [] /\ Forall (addresses (cartUrl env g)) evs.
Proof.
  intros Hg Hs Hr. rewrite handle_snd. unfold handler.
  assert (Hstep : forall (f : value -> M response) h first,
            addresses (cartUrl env g) (EvHttp first) ->
            effect (logGrows (addresses (cartUrl env g)))
                   (tryCatch (bind (lift (axios env (log w) first)) f) h) ->
            exists evs,
              log (snd (tryCatch (bind (call_axios env first) f) h w))
              = (log w ++ evs)%list /\
              evs <> [] /\ Forall (addresses (cartUrl env g)) evs).
  { intros f h first Ha He. rewrite call_axios_first.
    destruct (He (record (EvHttp first) w)) as (evs & Hlog & Hall).
    exists (EvHttp first :: evs). rewrite Hlog. simpl.
    rewrite <- app_assoc. repeat split; auto. discriminate. }
  destruct Hr as [Hr|[Hr|Hr]]; rewrite Hr.
  - unfold getCart. rewrite tryCatch_getSession, Hs, Hg. cbn [negb].
    apply Hstep; [apply addresses_fetch | effects].
  - unfold postCartRemove. rewrite bind_getSession, Hs, Hg. cbn [negb].
    apply Hstep; [apply addresses_remove | effects].
  - unfold postCartUpdate. rewrite bind_getSession, Hs, Hg. cbn [negb].
    apply Hstep; [apply addresses_update | effects].
Qed.

(** Without a cart handle GET /api/cart answers the empty cart and asks
    nothing of the platform. *)
Lemma getCart_without_handle env r w :
  route r = GetCart ->
  truthy (Session.cartGuid (sessionOf (sid r) w)) = false ->
  handle env r w = (json emptyCart, w).
Proof.
  intros Hr Hs. unfold handle, handler. rewrite Hr.
  unfold getCart. rewrite tryCatch_getSession, Hs. reflexivity.
Qed.

(** POST /api/cart/add without a handle: the cart is created first and
    the guid of the answer goes into the session. *)
Lemma postCartAdd_creates env req w created guid :
  route req = PostCartAdd ->
  truthy (field (js "productCode") (reqBody req)) = true ->
  truthy (field (js "quantity") (reqBody req)) = true ->
  truthy (Session.cartGuid (sessionOf (sid req) w)) = false ->
  axios env (log w) (createCartRequest env) = Ok created ->
  getProp created (js "guid") = Ok guid ->
  (exists evs,
     log (snd (handle env req w)) =
     (log w ++ EvHttp (createCartRequest env) :: evs)%list) /\
  Session.cartGuid (sessionOf (sid req) (snd (handle env req w))) = guid.
Proof.
  intros Hr Hp Hq Hs Hax Hguid. rewrite handle_snd. unfold handler.
  rewrite Hr. unfold postCartAdd. rewrite Hp, Hq. cbn [negb orb].
  rewrite tryCatch_getSession, Hs. cbn [negb].
  rewrite tryCatch_bind_assoc.
  rewrite (tryCatch_call_axios_ok _ _ _ _ _ _ Hax).
  rewrite tryCatch_bind_assoc, Hguid, tryCatch_lift_ok.
  rewrite tryCatch_bind_assoc, tryCatch_setSession, tryCatch_ret.
  set (w1 := withSessions _ _).
  match goal with |- context [snd (?m w1)] => set (rest := m) end.
  assert (Hsess : effect sameSessions rest) by (unfold rest; effects).
  assert (Hlog : effect (logGrows (fun _ => True)) rest)
    by (unfold rest; effects).
  split.
  - destruct (Hlog w1) as (evs & Hl & _). exists evs. rewrite Hl.
    unfold w1. simpl. now rewrite <- app_assoc.
  - rewrite (sessionOf_same _ _ _ (Hsess w1)).
    unfold w1. now rewrite sessionOf_set_same.
Qed.

Lemma keepsCart_sameSessions_effect {A} sid g (m : M A) :
  effect sameSessions m -> effect (keepsCart sid g) m.
Proof. apply effect_weaken. intros w w'. apply sameSessions_keepsCart. Qed.

Lemma keepsCart_setSession_other sid g sid' s :
  sid <> sid' -> effect (keepsCart sid g) (setSession sid' s).
Proof.
  intros Hne w Hg. simpl. now rewrite sessionOf_set_other.
Qed.

Lemma keepsCart_destroySession_other sid g sid' :
  sid <> sid' -> effect (keepsCart sid g) (destroySession sid').
Proof.
  intros Hne w Hg. simpl. now rewrite sessionOf_delete_other.
Qed.

(** Signing in or up rewrites the session but carries the cart handle
    over. *)
Lemma keepsCart_carry sid g sid' u e {A} (k : M A) :
  effect (keepsCart sid g) k ->
  effect (keepsCart sid g)
    (bind (getSession sid')
       (fun s => bind (setSession sid'
                         {| Session.userId := u; Session.email := e;
                            Session.cartGuid := Session.cartGuid s |})
                      (fun _ => k))).
Proof.
  intros Hk w Hg. rewrite bind_getSession.
  unfold bind at 1, setSession, modify.
  apply Hk.
  destruct (jsstring_eq_dec sid sid') as [<-|Hne].
  - now rewrite sessionOf_set_same.
  - now rewrite sessionOf_set_other.
Qed.

Lemma keepsCart_leaf {A} sid g (m : M A) :
  effect sameSessions m -> effect (keepsCart sid g) m.
Proof. apply keepsCart_sameSessions_effect. Qed.

Ltac keeps :=
  repeat first [ intros; apply keepsCart_carry | effect_step ];
  eauto 4 with effects;
  try (apply keepsCart_leaf; eauto 4 with effects).

(** A request other than the logout of session [sid] leaves a truthy
    cart handle of [sid] in place. *)
Lemma handle_keepsCart env req w me g :
  truthy g = true ->
  ~ (route req = GetAuthLogout /\ sid req = me) ->
  Session.cartGuid (sessionOf me w) = g ->
  Session.cartGuid (sessionOf me (snd (handle env req w))) = g.
Proof.
  intros Hg Hnot Hs. rewrite handle_snd. revert Hs.
  change (keepsCart me g w (snd (handler env req w))).
  destruct (leavesSessions (route req)) eqn:Hl.
  { apply sameSessions_keepsCart, handler_sameSessions, Hl. }
  unfold handler.
  destruct (route req) eqn:Hr; try discriminate.
  - (* register *)
    revert w. change (effect (keepsCart me g) (postAuthRegister env req)).
    unfold postAuthRegister. keeps.
  - (* login *)
    revert w. change (effect (keepsCart me g) (postAuthLogin env req)).
    unfold postAuthLogin. keeps.
  - (* logout of another session *)
    revert w. change (effect (keepsCart me g) (getAuthLogout req)).
    unfold getAuthLogout.
    apply effect_bind; [eauto | | intros _; apply effect_ret; auto].
    apply keepsCart_destroySession_other. intros E. apply Hnot. auto.
  - (* add to cart *)
    unfold postCartAdd.
    destruct (negb _ || negb _); [apply keepsCart_refl|].
    rewrite tryCatch_getSession.
    destruct (jsstring_eq_dec me (sid req)) as [->|Hne].
    + intros Hs. rewrite Hs, Hg. cbn [negb]. revert Hs.
      match goal with |- _ -> _ (sessionOf _ (snd (?m w))) = _ =>
        change (keepsCart (sid req) g w (snd (m w)));
        revert w; change (effect (keepsCart (sid req) g) m)
      end.
      apply keepsCart_leaf. effects.
    + generalize (sessionOf (sid req) w). intros s.
      match goal with |- keepsCart _ _ w (snd (?m w)) =>
        revert w; change (effect (keepsCart me g) m)
      end.
      assert (Hset : forall s', effect (keepsCart me g)
                                  (setSession (sid req) s'))
        by (intros s'; now apply keepsCart_setSession_other).
      keeps.
Qed.

Lemma serve_keepsCart env reqs w me g :
  truthy g = true ->
  Forall (fun q => ~ (route q = GetAuthLogout /\ sid q = me)) reqs ->
  Session.cartGuid (sessionOf me w) = g ->
  Session.cartGuid (sessionOf me (serve env reqs w)) = g.
Proof.
  intros Hg. induction reqs as [|q reqs IH] using rev_ind; intros Hall Hs.
  - exact Hs.
  - apply Forall_app in Hall as [Hall Hq]. inversion Hq; subst.
    rewrite serve_snoc. apply handle_keepsCart; auto.
Qed.



(** A platform answer without a guid leaves the session without a
    handle: the next GET /api/cart still sees no cart. *)
Example cart_without_guid :
  let env := demoEnv demoCatalog [] in
  let env' := {| SAP_OCC_BASE_URL := SAP_OCC_BASE_URL env;
                 SAP_SITE_ID := SAP_SITE_ID env;
                 GEMINI_MODEL := GEMINI_MODEL env;
                 axios := fun _ _ => Ok (VObj []);
                 embedContent := embedContent env;
                 generateContent := generateContent env;
                 randomUUID := randomUUID env;
                 newDate := newDate env;
                 charCodeOfBig := charCodeOfBig env;
                 JSON_stringify := JSON_stringify env;
                 JSON_parse := JSON_parse env;
                 toStringOther := toStringOther env;
                 toNumberOther := toNumberOther env;
                 addOther := addOther env;
                 parseFloat := parseFloat env;
                 Math_round := Math_round env;
                 ofLength := ofLength env |} in
  let w1 := snd (handle env' demoAdd initialWorld) in
  Session.cartGuid (sessionOf (js "s1") w1) = VUndefined /\
  fst (handle env' (demoRequest GetCart []) w1) = json emptyCart.
Proof. split; reflexivity. Qed.

(* ================================================================== *)
(** * Part III: further properties of the code                          *)
(* ================================================================== *)

(** ** hashText and the cache *)

Lemma toInt32_range (z : Z) : - 2 ^ 31 <= toInt32 z < 2 ^ 31.
Proof.
  unfold toInt32.
  assert (H : 0 <= z mod 2 ^ 32 < 2 ^ 32) by (apply Z.mod_pos_bound; lia).
  destruct (Z.ltb_spec (z mod 2 ^ 32) (2 ^ 31)); lia.
Qed.

Lemma hashLoop_range (text : jsstring) : - 2 ^ 31 <= hashLoop text < 2 ^ 31.
Proof.
  unfold hashLoop.
  induction text as [|c text IH] using rev_ind.
  - simpl. lia.
  - rewrite fold_left_app. simpl. unfold hashStep, and32.
    apply toInt32_range.
Qed.

(** X1. Whatever the text, the cache key is the decimal form of a
    number between 0 and 2^31: the key space is finite however long
    the texts are. *)
Theorem hashText_range (text : jsstring) :
  exists n, 0 <= n <= 2 ^ 31 /\ hashText text = toStringNat n.
Proof.
  exists (Z.abs (hashLoop text)). split; [|reflexivity].
  pose proof (hashLoop_range text). lia.
Qed.

Lemma firstKey_get_other {V} k (c : list (jsstring * V)) :
  JsMap.firstKey c <> Some k ->
  JsMap.get str_eqb k (tl c) = JsMap.get str_eqb k c.
Proof.
  destruct c as [|[k0 v0] rest]; simpl; auto.
  intros H. destruct (str_eqb k0 k) eqn:E; auto.
  apply str_eqb_eq in E. congruence.
Qed.

(** X2. Storing one text never disturbs what is stored under another
    key, with one exception: the oldest entry of a full cache. *)
Theorem set_keeps_other_keys (t t' : jsstring) (e : embedding) (c : cache) :
  hashText t' <> hashText t ->
  JsMap.size c < MAX_CACHE_SIZE \/ JsMap.firstKey c <> Some (hashText t') ->
  getCachedEmbedding t' (setCachedEmbedding t e c) = getCachedEmbedding t' c.
Proof.
  intros Hne Hroom. unfold getCachedEmbedding.
  destruct (Z_lt_le_dec (JsMap.size c) MAX_CACHE_SIZE) as [Hlt|Hge].
  - rewrite setCachedEmbedding_room by assumption.
    now apply get_set_other.
  - destruct Hroom as [Hlt|Hfirst]; [lia|].
    destruct c as [|[k0 v0] rest].
    + unfold JsMap.size, MAX_CACHE_SIZE in Hge. simpl in Hge. lia.
    + rewrite setCachedEmbedding_full by assumption.
      rewrite get_set_other by assumption.
      apply (firstKey_get_other _ ((k0, v0) :: rest) Hfirst).
Qed.

Lemma set_keeps_other_keys_witness :
  getCachedEmbedding (js "b")
    (setCachedEmbedding (js "a") [1%float]
       (setCachedEmbedding (js "b") [2%float] embeddingCache_init))
  = Some [2%float].
Proof.
  rewrite (set_keeps_other_keys (js "a") (js "b") [1%float]).
  - reflexivity.
  - vm_compute. discriminate.
  - left. vm_compute. reflexivity.
Defined.

Lemma runOps_nodup (ops : list cacheOp) :
  NoDup (JsMap.keys (runOps ops embeddingCache_init)).
Proof.
  rewrite <- erase_grunOps.
  pose proof (ginv_reachable ops) as [_ _ Hn].
  unfold JsMap.keys, erase in *. rewrite map_map. exact Hn.
Qed.

Lemma length_set_present {V} k (v old : V) (m : list (jsstring * V)) :
  JsMap.get str_eqb k m = Some old ->
  length (JsMap.set str_eqb k v m) = length m.
Proof.
  revert old. induction m as [|[k' v'] r IH]; simpl; intros old H.
  - discriminate.
  - destruct (str_eqb k' k); simpl; [reflexivity|].
    f_equal. eapply IH; eauto.
Qed.



(** ** cosineSimilarity: symmetry and vectors of unequal length *)

Section CosineMore.
Import Num.
Local Open Scope float_scope.

Lemma SFmul_comm x y : SF64mul x y = SF64mul y x.
Proof.
  destruct x as [sx|sx| |sx mx ex], y as [sy|sy| |sy my ey]; simpl;
    try reflexivity; try (now rewrite xorb_comm).
  now rewrite xorb_comm, Pos.mul_comm, Z.add_comm.
Qed.

Lemma mul_comm (x y : float) : x * y = y * x.
Proof. apply Prim2SF_inj. rewrite !mul_spec. apply SFmul_comm. Qed.

Lemma Prim2SF_nan : Prim2SF nan = S754_nan.
Proof. reflexivity. Qed.

Lemma add_nan_r (x : float) : x + nan = nan.
Proof.
  apply Prim2SF_inj. rewrite add_spec, Prim2SF_nan.
  destruct (Prim2SF x); reflexivity.
Qed.

Lemma add_nan_l (x : float) : nan + x = nan.
Proof.
  apply Prim2SF_inj. rewrite add_spec, Prim2SF_nan. reflexivity.
Qed.

Lemma dot_from_comm (a b : list float) : forall s,
  fold_left (fun s xy => s + fst xy * snd xy) (combine a b) s =
  fold_left (fun s xy => s + fst xy * snd xy) (combine b a) s.
Proof.
  revert b. induction a as [|x a IH]; intros [|y b] s; simpl; auto.
  rewrite (mul_comm x y). apply IH.
Qed.

(** X4. On vectors of equal length the similarity is symmetric, bit
    for bit. *)
Theorem cosineSimilarity_sym (a b : list float) :
  length a = length b -> cosineSimilarity a b = cosineSimilarity b a.
Proof.
  intros H. unfold cosineSimilarity.
  rewrite (loop_sums a b H), (loop_sums b a (eq_sym H)).
  cbn [normA normB dotProduct]. unfold dot.
  rewrite (dot_from_comm a b).
  rewrite (orb_comm (isEmpty a)), (andb_comm (truthy (sqrt (sumSquares a)))).
  now rewrite (mul_comm (sqrt (sumSquares a))).
Qed.

Lemma cosineSimilarity_sym_witness :
  cosineSimilarity [1; 2; 3] [0.5; 4; -1] = cosineSimilarity [0.5; 4; -1] [1; 2; 3].
Proof. apply (cosineSimilarity_sym [1; 2; 3] [0.5; 4; -1]). reflexivity. Defined.

Lemma normB_nan_stays (a b : list float) (l : list nat) : forall s,
  normB s = nan -> normB (fold_left (loopBody a b) l s) = nan.
Proof.
  induction l as [|i l IH]; intros s H; simpl; auto.
  apply IH. unfold loopBody. simpl. rewrite H. apply add_nan_l.
Qed.

(** X5. A second vector shorter than the first reads [undefined] past
    its end; the sum of its squares becomes NaN and the similarity is
    0, whatever the entries. *)
Theorem cosineSimilarity_shorter (a b : list float) :
  (length b < length a)%nat -> cosineSimilarity a b = 0.
Proof.
  intros Hlt. unfold cosineSimilarity.
  destruct (isEmpty a || isEmpty b) eqn:E; [reflexivity|].
  assert (Hn : normB (loop a b) = nan).
  { unfold loop.
    replace (length a) with (length b + S (length a - S (length b)))%nat by lia.
    rewrite seq_app, fold_left_app. simpl seq. simpl fold_left.
    apply normB_nan_stays.
    unfold loopBody at 1. cbn [normB]. unfold at_.
    rewrite (nth_overflow b nan) by lia.
    apply add_nan_r. }
  rewrite Hn. cbv zeta.
  replace (truthy (sqrt nan)) with false by reflexivity.
  now rewrite andb_false_r.
Qed.

Lemma cosineSimilarity_shorter_witness : cosineSimilarity [3; 4] [3] = 0.
Proof. apply (cosineSimilarity_shorter [3; 4] [3]). simpl. lia. Defined.

Lemma loop_ignores_tail (a b extra : list float) :
  (length a <= length b)%nat -> loop a (b ++ extra) = loop a b.
Proof.
  intros H. unfold loop.
  assert (Hin : forall i, In i (seq 0 (length a)) -> (i < length b)%nat).
  { intros i Hi. apply in_seq in Hi. lia. }
  revert Hin. generalize (seq 0 (length a)).
  generalize {| dotProduct := 0; normA := 0; normB := 0 |}.
  intros s l. revert s. induction l as [|i l IH]; intros s Hin; simpl; auto.
  assert (Hi : (i < length b)%nat) by (apply Hin; now left).
  unfold loopBody at 2 4, at_. rewrite (app_nth1 b extra nan Hi).
  apply IH. intros j Hj. apply Hin. now right.
Qed.

(** X6. Entries of the second vector beyond the length of the first
    are never read: appending to it changes nothing. *)
Theorem cosineSimilarity_ignores_tail (a b extra : list float) :
  length a = length b ->
  cosineSimilarity a (b ++ extra) = cosineSimilarity a b.
Proof.
  intros H. unfold cosineSimilarity.
  rewrite loop_ignores_tail by lia.
  destruct a as [|x a]; [reflexivity|].
  destruct b as [|y b]; [discriminate|]. reflexivity.
Qed.

Lemma cosineSimilarity_ignores_tail_witness :
  cosineSimilarity [3; 4] [4; 3; 100; nan] = cosineSimilarity [3; 4] [4; 3].
Proof.
  apply (cosineSimilarity_ignores_tail [3; 4] [4; 3] [100; nan]). reflexivity.
Defined.

End CosineMore.

(** ** stripHtml *)

Lemma stripTags_in (c : Z) (s : jsstring) : forall inTag,
  In c (stripTags inTag s) -> In c s.
Proof.
  induction s as [|x s IH]; intros inTag H; simpl in *; auto.
  destruct inTag.
  - destruct (x =? 62); right; eauto.
  - destruct ((x =? 60) && existsb (Z.eqb 62) s).
    + right; eauto.
    + destruct H as [H|H]; [now left | right; eauto].
Qed.

Lemma stripTags_tagFree (s : jsstring) : forall inTag,
  tagFree (stripTags inTag s).
Proof.
  induction s as [|x s IH]; intros inTag; simpl.
  - intros [|? ?] ? H; discriminate.
  - destruct inTag.
    + destruct (x =? 62); apply IH.
    + destruct ((x =? 60) && existsb (Z.eqb 62) s) eqn:E; [apply IH|].
      intros before after H Hin.
      destruct before as [|y before]; simpl in H; injection H as Hx Ht.
      * subst x. rewrite Z.eqb_refl in E. simpl in E.
        assert (Hex : existsb (Z.eqb 62) s = true).
        { apply existsb_exists. exists 62. split; [|apply Z.eqb_refl].
          apply (stripTags_in 62 s false). now rewrite Ht. }
        congruence.
      * exact (IH false before after Ht Hin).
Qed.

Lemma stripTags_plain (s : jsstring) : ~ In 60 s -> stripTags false s = s.
Proof.
  induction s as [|x s IH]; simpl; intros H; auto.
  destruct (Z.eqb_spec x 60) as [->|Hne]; [tauto|].
  simpl. f_equal. apply IH. tauto.
Qed.

Lemma startsWith_head p pat x s :
  x <> p -> startsWith (p :: pat) (x :: s) = None.
Proof.
  intros H. simpl. destruct (Z.eqb_spec p x); [congruence | reflexivity].
Qed.

Lemma replaceAll_plain p pat rep (s : jsstring) :
  ~ In p s -> replaceAll (p :: pat) rep 0 s = s.
Proof.
  induction s as [|x s IH]; intros H; auto.
  cbn [replaceAll]. rewrite startsWith_head by (simpl in H; tauto).
  f_equal. apply IH. simpl in H. tauto.
Qed.

Lemma matchEntity_head x s : x <> 38 -> matchEntity (x :: s) = None.
Proof.
  intros H. unfold matchEntity.
  destruct x as [|p|p]; try reflexivity.
  do 6 (destruct p as [p|p|]; try reflexivity).
  congruence.
Qed.

Lemma decodeEntities_plain env (s : jsstring) :
  ~ In 38 s -> decodeEntities env 0 s = s.
Proof.
  induction s as [|x s IH]; intros H; auto.
  cbn [decodeEntities]. rewrite matchEntity_head by (simpl in H; tauto).
  f_equal. apply IH. simpl in H. tauto.
Qed.

Lemma trimStart_suffix (s : jsstring) :
  exists removed, s = (removed ++ trimStart s)%list.
Proof.
  induction s as [|x s [r IH]]; simpl.
  - now exists [].
  - destruct (isSpace x).
    + exists (x :: r). simpl. now f_equal.
    + now exists [].
Qed.

(** What [trim] returns sits inside its argument. *)
Lemma trim_infix (s : jsstring) :
  exists before after, s = (before ++ trim s ++ after)%list.
Proof.
  destruct (trimStart_suffix s) as [before Hb].
  destruct (trimStart_suffix (rev (trimStart s))) as [r Hr].
  exists before, (rev r). unfold trim.
  rewrite <- rev_app_distr, <- Hr, rev_involutive. exact Hb.
Qed.

Lemma trimStart_head (s : jsstring) x r :
  trimStart s = x :: r -> isSpace x = false.
Proof.
  induction s as [|y s IH]; simpl; [discriminate|].
  destruct (isSpace y) eqn:E; auto.
  intros [= <- _]. exact E.
Qed.

Lemma tagFree_infix (s before after : jsstring) :
  tagFree (before ++ s ++ after) -> tagFree s.
Proof.
  intros H b a Hs Hin. subst s.
  apply (H (before ++ b)%list (a ++ after)%list).
  - now rewrite <- !app_assoc.
  - apply in_or_app. now left.
Qed.

(** For text without ['&'] the last five [replace] calls change
    nothing. *)
Lemma stripHtmlText_no_entities env (s : jsstring) :
  ~ In 38 s -> stripHtmlText env s = trim (stripTags false s).
Proof.
  intros H. unfold stripHtmlText.
  assert (H' : ~ In 38 (stripTags false s))
    by (intros Hin; apply H; eapply stripTags_in; eauto).
  change (js "&quot;") with (38 :: js "quot;").
  change (js "&apos;") with (38 :: js "apos;").
  change (js "&amp;") with (38 :: js "amp;").
  change (js "&lt;") with (38 :: js "lt;").
  change (js "&gt;") with (38 :: js "gt;").
  set (t := stripTags false s) in *.
  do 5 rewrite (replaceAll_plain 38 _ _ t) by assumption.
  now rewrite decodeEntities_plain.
Qed.

(** X7. On text without an ampersand [stripHtml] leaves no complete
    tag: in its result no ['<'] is followed by a ['>']. *)
Theorem stripHtml_removes_tags env (s : jsstring) :
  s <> [] -> ~ In 38 s ->
  exists r, stripHtml env (VStr s) = Ok (VStr r) /\ tagFree r.
Proof.
  intros Hne Hamp. exists (stripHtmlText env s). split.
  - unfold stripHtml. destruct s; [congruence | reflexivity].
  - rewrite stripHtmlText_no_entities by assumption.
    destruct (trim_infix (stripTags false s)) as (b & a & H).
    apply (tagFree_infix _ b a). rewrite <- H. apply stripTags_tagFree.
Qed.

Lemma stripHtml_removes_tags_witness :
  exists r,
    stripHtml (demoEnv demoCatalog []) (str "<p>a <b>bold</b> 3 < 4</p> x > y")
    = Ok (VStr r) /\ tagFree r.
Proof.
  apply (stripHtml_removes_tags (demoEnv demoCatalog [])
           (js "<p>a <b>bold</b> 3 < 4</p> x > y")).
  - discriminate.
  - vm_compute. intuition discriminate.
Defined.

(** Entities are decoded after the tags are removed, so a tag written
    with entities comes out as a tag, and [&amp;] is decoded before
    [&lt;], so [&amp;lt;] is decoded twice. *)
Example stripHtml_entities :
  stripHtml (demoEnv demoCatalog []) (str "&lt;b&gt;x&lt;/b&gt; &amp;lt;")
  = Ok (str "<b>x</b> <").
Proof. vm_compute. reflexivity. Qed.

(** X8. Text that holds neither ['<'] nor ['&'] passes through
    [stripHtml] unchanged but for the whitespace trimmed at both ends. *)
Theorem stripHtml_plain_text env (s : jsstring) :
  s <> [] -> ~ In 60 s -> ~ In 38 s ->
  stripHtml env (VStr s) = Ok (VStr (trim s)).
Proof.
  intros Hne Hlt Hamp.
  unfold stripHtml. destruct s as [|x s']; [congruence|].
  cbn [truthy negb]. f_equal. f_equal.
  rewrite stripHtmlText_no_entities by assumption.
  now rewrite stripTags_plain.
Qed.

Lemma stripHtml_plain_text_witness :
  stripHtml (demoEnv demoCatalog []) (str "  Camera body > 24MP ")
  = Ok (str "Camera body > 24MP").
Proof.
  apply (stripHtml_plain_text (demoEnv demoCatalog [])
           (js "  Camera body > 24MP ")).
  - discriminate.
  - vm_compute. intuition discriminate.
  - vm_compute. intuition discriminate.
Defined.

(** X9. What [stripHtml] returns for a string neither starts nor ends
    with whitespace. *)
Theorem stripHtml_trimmed env (s : jsstring) (x : Z) (r : jsstring) :
  stripHtml env (VStr s) = Ok (VStr (x :: r)) ->
  isSpace x = false /\ isSpace (last (x :: r) x) = false.
Proof.
  unfold stripHtml. destruct s as [|c s']; [discriminate|].
  cbn [truthy negb]. intros [= H]. revert H.
  unfold stripHtmlText. generalize (decodeEntities env 0
    (replaceAll (js "&gt;") (js ">") 0
       (replaceAll (js "&lt;") (js "<") 0
          (replaceAll (js "&amp;") (js "&") 0
             (replaceAll (js "&apos;") (js "'") 0
                (replaceAll (js "&quot;") [34] 0
                   (stripTags false (c :: s')))))))).
  intros t H. unfold trim in H.
  set (u := trimStart (rev (trimStart t))) in *.
  split.
  - (* the first unit is the first unit of [trimStart t] *)
    destruct (trimStart_suffix (rev (trimStart t))) as [removed Hrem].
    fold u in Hrem.
    assert (Ht : trimStart t = (rev u ++ rev removed)%list).
    { rewrite <- rev_app_distr, <- Hrem. now rewrite rev_involutive. }
    rewrite H in Ht. simpl in Ht.
    exact (trimStart_head t x _ Ht).
  - (* the last unit is the first unit of [u] *)
    assert (Hu : u = rev (x :: r)) by (rewrite <- H; now rewrite rev_involutive).
    destruct (rev (x :: r)) as [|y u'] eqn:Hrev.
    + apply (f_equal (@length Z)) in Hrev. rewrite length_rev in Hrev.
      discriminate.
    + assert (Hlast : last (x :: r) x = y).
      { rewrite <- (rev_involutive (x :: r)), Hrev. simpl.
        now rewrite last_last. }
      rewrite Hlast.
      exact (trimStart_head (rev (trimStart t)) y u' Hu).
Qed.

Lemma stripHtml_trimmed_witness :
  isSpace 65 = false /\ isSpace (last (js "A b") 65) = false.
Proof.
  exact (stripHtml_trimmed (demoEnv demoCatalog []) (js " <i>A b</i>  ") 65
           (js " b") eq_refl).
Defined.

(** ** getEmbedding and the cache *)

(** X10. Once [getEmbedding] has returned an embedding that is not
    empty, a further call for the same text, or for any text with the
    same hash, returns that embedding from the cache: nothing is asked
    and the state stays as it is. *)
Theorem getEmbedding_second_call env (text text' : jsstring) w e w1 :
  getEmbedding env text w = (Ok e, w1) ->
  e <> [] ->
  hashText text' = hashText text ->
  getEmbedding env text' w1 = (Ok e, w1).
Proof.
  intros H Hne Hh.
  assert (Hc : getCachedEmbedding text' (embeddingCache w1) = Some e).
  { unfold getCachedEmbedding. rewrite Hh.
    revert H. unfold getEmbedding, bind, getEmbedding_request.
    fold (getCachedEmbedding text (embeddingCache w)).
    destruct (getCachedEmbedding text (embeddingCache w)) as [cached|] eqn:E.
    - intros [= <- <-]. exact E.
    - destruct (embedContent env (log w) text) as [[[|x vs]|]|err];
        simpl; intros [= <- <-]; try congruence.
      simpl. unfold setCachedEmbedding. apply get_set_same. }
  unfold getEmbedding, bind, getEmbedding_request. now rewrite Hc.
Qed.

Lemma getEmbedding_second_call_witness :
  let env := demoEnv demoCatalog [] in
  let w1 := snd (getEmbedding env (js "Aa") initialWorld) in
  getEmbedding env (js "BB") w1 = (Ok [2; 1]%float, w1).
Proof.
  intros env w1.
  apply (getEmbedding_second_call env (js "Aa") (js "BB") initialWorld).
  - reflexivity.
  - discriminate.
  - reflexivity.
Defined.

(** A miss whose answer is a failure or holds no values: only the log
    changes. *)
Lemma getEmbedding_miss_empty env (text : jsstring) w :
  getCachedEmbedding text (embeddingCache w) = None ->
  settled (embedContent env (log w) text) = [] ->
  getEmbedding env text w = (Ok [], record (EvEmbed text) w).
Proof.
  intros Hmiss Hs.
  unfold getEmbedding, bind, getEmbedding_request. rewrite Hmiss.
  destruct (embedContent env (log w) text) as [[[|x vs]|]|err];
    simpl in *; try reflexivity; discriminate.
Qed.

(** X11. When the service fails or answers with no values,
    [getEmbedding] returns the empty embedding and caches nothing, so
    the next call for the same text asks the service again. *)
Theorem getEmbedding_failure_not_cached env (text : jsstring) w :
  getCachedEmbedding text (embeddingCache w) = None ->
  settled (embedContent env (log w) text) = [] ->
  let w1 := snd (getEmbedding env text w) in
  fst (getEmbedding env text w) = Ok [] /\
  embeddingCache w1 = embeddingCache w /\
  log w1 = (log w ++ [EvEmbed text])%list /\
  log (snd (getEmbedding env text w1))
  = (log w ++ [EvEmbed text; EvEmbed text])%list.
Proof.
  intros Hmiss Hs.
  assert (H1 : getEmbedding env text w = (Ok [], record (EvEmbed text) w))
    by now apply getEmbedding_miss_empty.
  rewrite H1. cbn [fst snd]. repeat split.
  unfold getEmbedding, bind, getEmbedding_request.
  change (embeddingCache (record (EvEmbed text) w)) with (embeddingCache w).
  rewrite Hmiss.
  match goal with |- context [getEmbedding_settle text ?r ?w0] =>
    assert (Hl : log (snd (getEmbedding_settle text r w0)) = log w0)
      by (destruct r as [[[|x vs]|]|err]; reflexivity)
  end.
  rewrite Hl. simpl. now rewrite <- app_assoc.
Qed.

Lemma getEmbedding_failure_not_cached_witness :
  let env := demoEnv demoCatalog [] in
  let w1 := snd (getEmbedding env (js "broken") initialWorld) in
  fst (getEmbedding env (js "broken") initialWorld) = Ok [] /\
  embeddingCache w1 = embeddingCache initialWorld /\
  log w1 = (log initialWorld ++ [EvEmbed (js "broken")])%list /\
  log (snd (getEmbedding env (js "broken") w1))
  = (log initialWorld ++ [EvEmbed (js "broken"); EvEmbed (js "broken")])%list.
Proof.
  exact (getEmbedding_failure_not_cached (demoEnv demoCatalog [])
           (js "broken") initialWorld eq_refl eq_refl).
Defined.

(** The requests of [Promise.all]: one per text without an entry, in
    the order of the texts; the cache is only read. *)
Lemma requests_log env texts : forall w,
  exists rs w1,
    mapM (getEmbedding_request env) texts w = (Ok rs, w1) /\
    embeddingCache w1 = embeddingCache w /\
    log w1 = (log w ++ map EvEmbed (filter (isMiss (embeddingCache w)) texts))%list.
Proof.
  induction texts as [|t texts IH]; intros w; simpl.
  - exists [], w. rewrite app_nil_r. auto.
  - unfold bind at 1. unfold getEmbedding_request at 1. unfold isMiss at 1.
    destruct (getCachedEmbedding t (embeddingCache w)) as [cached|] eqn:E.
    + destruct (IH w) as (rs & w1 & Hrs & Hc & Hl).
      unfold bind. rewrite Hrs. simpl. eexists _, w1.
      split; [reflexivity | auto].
    + destruct (IH (record (EvEmbed t) w)) as (rs & w1 & Hrs & Hc & Hl).
      unfold bind. rewrite Hrs. simpl.
      eexists _, w1. split; [reflexivity|]. split; [exact Hc|].
      rewrite Hl. simpl. now rewrite <- app_assoc.
Qed.

Lemma settle_keeps_log t r :
  effect (logGrows (fun _ => False)) (getEmbedding_settle t r).
Proof. unfold getEmbedding_settle. effects. Qed.

(** X12. [getEmbeddings] (the [Promise.all] over the candidate texts)
    asks the service exactly for the texts that have no cache entry
    when it starts, in their order and once per occurrence: a text that
    occurs twice without an entry is asked for twice. *)
Theorem getEmbeddings_requests env (texts : list jsstring) w :
  log (snd (getEmbeddings env texts w))
  = (log w ++ map EvEmbed (filter (isMiss (embeddingCache w)) texts))%list.
Proof.
  unfold getEmbeddings, bind.
  destruct (requests_log env texts w) as (rs & w1 & Hrs & _ & Hl).
  rewrite Hrs, <- Hl.
  apply logGrows_nothing.
  apply (effect_mapM _ (logGrows_refl _) (logGrows_trans _)).
  intros [t [c|a]]; simpl.
  - apply effect_ret, logGrows_refl.
  - apply settle_keeps_log.
Qed.

Example getEmbeddings_asks_twice :
  log (snd (getEmbeddings (demoEnv demoCatalog []) [js "a"; js "b"; js "a"]
              initialWorld))
  = [EvEmbed (js "a"); EvEmbed (js "b"); EvEmbed (js "a")].
Proof. vm_compute. reflexivity. Qed.

(** *** The cache of the running server *)

Lemma runOps_app ops1 ops2 c :
  runOps (ops1 ++ ops2) c = runOps ops2 (runOps ops1 c).
Proof. unfold runOps. apply fold_left_app. Qed.

Lemma cacheRuns_refl w : cacheRuns w w.
Proof. exists []. split; [reflexivity | constructor]. Qed.

Lemma cacheRuns_trans w1 w2 w3 :
  cacheRuns w1 w2 -> cacheRuns w2 w3 -> cacheRuns w1 w3.
Proof.
  intros (o1 & H1 & F1) (o2 & H2 & F2). exists (o1 ++ o2)%list.
  rewrite runOps_app, <- H1, H2. split; auto.
  apply Forall_app. auto.
Qed.

Lemma cacheRuns_same w w' :
  embeddingCache w' = embeddingCache w -> cacheRuns w w'.
Proof. intros H. exists []. split; [exact H | constructor]. Qed.

Lemma cacheRuns_withUsers f : effect cacheRuns (modify (withUsers f)).
Proof. intros w. now apply cacheRuns_same. Qed.

Lemma cacheRuns_withCarts f : effect cacheRuns (modify (withCarts f)).
Proof. intros w. now apply cacheRuns_same. Qed.

Lemma cacheRuns_withOrders f : effect cacheRuns (modify (withOrders f)).
Proof. intros w. now apply cacheRuns_same. Qed.

Lemma cacheRuns_withOrderCounter f :
  effect cacheRuns (modify (withOrderCounter f)).
Proof. intros w. now apply cacheRuns_same. Qed.

Lemma cacheRuns_withSessions f : effect cacheRuns (modify (withSessions f)).
Proof. intros w. now apply cacheRuns_same. Qed.

Lemma cacheRuns_setSession sid s : effect cacheRuns (setSession sid s).
Proof. apply cacheRuns_withSessions. Qed.

Lemma cacheRuns_destroySession sid : effect cacheRuns (destroySession sid).
Proof. apply cacheRuns_withSessions. Qed.

Lemma cacheRuns_call_axios env r : effect cacheRuns (call_axios env r).
Proof. intros w. now apply cacheRuns_same. Qed.

Lemma cacheRuns_call_generateContent env p :
  effect cacheRuns (call_generateContent env p).
Proof. intros w. now apply cacheRuns_same. Qed.

Lemma cacheRuns_call_randomUUID env : effect cacheRuns (call_randomUUID env).
Proof. intros w. now apply cacheRuns_same. Qed.

Lemma cacheRuns_call_newDate env : effect cacheRuns (call_newDate env).
Proof. intros w. now apply cacheRuns_same. Qed.

Lemma cacheRuns_getEmbedding_request env t :
  effect cacheRuns (getEmbedding_request env t).
Proof.
  intros w. unfold getEmbedding_request.
  destruct (getCachedEmbedding t (embeddingCache w));
    now apply cacheRuns_same.
Qed.

(** The one place that writes the cache: an answer is stored only when
    it is not empty. *)
Lemma cacheRuns_getEmbedding_settle t r :
  effect cacheRuns (getEmbedding_settle t r).
Proof.
  intros w. destruct r as [[[|x vs]|]|err]; simpl;
    try apply cacheRuns_refl.
  exists [OpSet t (x :: vs)]. split; [reflexivity|].
  constructor; [discriminate | constructor].
Qed.

#[local] Hint Resolve cacheRuns_refl cacheRuns_trans : core.

#[local] Hint Resolve cacheRuns_withUsers cacheRuns_withCarts
  cacheRuns_withOrders cacheRuns_withOrderCounter cacheRuns_withSessions
  cacheRuns_setSession cacheRuns_destroySession cacheRuns_call_axios
  cacheRuns_call_generateContent cacheRuns_call_randomUUID
  cacheRuns_call_newDate cacheRuns_getEmbedding_request
  cacheRuns_getEmbedding_settle : effects.

Lemma cacheRuns_getEmbedding env t : effect cacheRuns (getEmbedding env t).
Proof. unfold getEmbedding. effects. Qed.

Lemma cacheRuns_getEmbeddings env ts : effect cacheRuns (getEmbeddings env ts).
Proof. unfold getEmbeddings. effects. Qed.

#[local] Hint Resolve cacheRuns_getEmbedding cacheRuns_getEmbeddings : effects.

Lemma cacheRuns_searchSAPProducts env q :
  effect cacheRuns (searchSAPProducts env q).
Proof. unfold searchSAPProducts. effects. Qed.

#[local] Hint Resolve cacheRuns_searchSAPProducts : effects.

Lemma cacheRuns_runAgent env input : effect cacheRuns (runAgent env input).
Proof. unfold runAgent, actOnReviews, actOnView, actOnSearch. effects. Qed.

#[local] Hint Resolve cacheRuns_runAgent : effects.

Lemma cacheRuns_handler env req : effect cacheRuns (handler env req).
Proof.
  unfold handler.
  destruct (route req);
    unfold postAuthRegister, postAuthLogin, getAuthLogout, getAuthMe,
           getProduct, getProductReviews, getCart, postCartAdd,
           postCartRemove, postCartUpdate, postSearch, postOrdersCreate,
           getOrder, getOrders, requireAuth;
    effects.
Qed.

Lemma cacheRuns_serve env reqs w : cacheRuns w (serve env reqs w).
Proof.
  induction reqs as [|req reqs IH] using rev_ind.
  - apply cacheRuns_refl.
  - rewrite serve_snoc, handle_snd.
    eapply cacheRuns_trans; [exact IH | apply cacheRuns_handler].
Qed.

Lemma Forall_set {V} (P : V -> Prop) k v (m : list (jsstring * V)) :
  P v -> Forall (fun kv => P (snd kv)) m ->
  Forall (fun kv => P (snd kv)) (JsMap.set str_eqb k v m).
Proof.
  intros Hv. induction 1 as [|[k' v'] r Hh Ht IH]; simpl.
  - repeat constructor. exact Hv.
  - destruct (str_eqb k' k); constructor; auto.
Qed.

Lemma Forall_delete {V} (P : V -> Prop) k (m : list (jsstring * V)) :
  Forall (fun kv => P (snd kv)) m ->
  Forall (fun kv => P (snd kv)) (JsMap.delete str_eqb k m).
Proof.
  induction 1 as [|[k' v'] r Hh Ht IH]; simpl.
  - constructor.
  - destruct (str_eqb k' k); auto.
Qed.

Lemma get_Forall {V} (P : V -> Prop) k v (m : list (jsstring * V)) :
  Forall (fun kv => P (snd kv)) m -> JsMap.get str_eqb k m = Some v -> P v.
Proof.
  induction 1 as [|[k' v'] r Hh Ht IH]; simpl; [discriminate|].
  destruct (str_eqb k' k); auto. now intros [= <-].
Qed.

Lemma runOps_nonempty ops : forall c,
  nonemptySets ops ->
  Forall (fun kv => snd kv <> []) c ->
  Forall (fun kv => snd kv <> []) (runOps ops c).
Proof.
  induction ops as [|op ops IH]; intros c Hops Hc; [exact Hc|].
  inversion Hops as [|? ? Hop Hrest]; subst.
  apply IH; auto.
  destruct op as [t e|t]; simpl; auto.
  unfold setCachedEmbedding.
  apply (Forall_set (fun e : embedding => e <> [])); auto.
  match goal with |- context [if ?b then _ else _] => destruct b end; auto.
  match goal with |- context [match ?k with Some _ => _ | None => _ end] =>
    destruct k end; auto.
  now apply (Forall_delete (fun e : embedding => e <> [])).
Qed.

(** X13. Whatever requests the server has handled since its start, its
    embedding cache holds at most 100 entries under distinct keys, and
    no cached embedding is empty: a cache hit never yields the empty
    embedding. *)
Theorem server_cache_invariant env (reqs : list request) :
  let c := embeddingCache (serve env reqs initialWorld) in
  JsMap.size c <= MAX_CACHE_SIZE /\
  NoDup (JsMap.keys c) /\
  forall text e, getCachedEmbedding text c = Some e -> e <> [].
Proof.
  destruct (cacheRuns_serve env reqs initialWorld) as (ops & Hc & Hops).
  cbv zeta. rewrite Hc. change (embeddingCache initialWorld) with embeddingCache_init.
  split; [apply runOps_bounded|]. split; [apply runOps_nodup|].
  intros text e H.
  apply (get_Forall (fun e : embedding => e <> []) (hashText text) e
           (runOps ops embeddingCache_init)); auto.
  apply runOps_nonempty; [exact Hops | constructor].
Qed.

(** ** searchSAPProducts: the fallback and ties *)

(** X14. With more than two candidates, when the query has no cache
    entry and its embedding cannot be obtained (the service fails or
    answers with no values), the search returns the first three cleaned
    candidates in the platform's order; the query is the only text an
    embedding is asked for, and the cache stays as it is. *)
Theorem search_falls_back env query w data ps cleanedProducts :
  axios env (log w) (searchRequest env query) = Ok data ->
  getProp data (js "products") = Ok (VArr ps) ->
  omap (cleanProduct env) ps = Ok cleanedProducts ->
  (2 < length cleanedProducts)%nat ->
  getCachedEmbedding query (embeddingCache w) = None ->
  settled (embedContent env (log w ++ [EvHttp (searchRequest env query)]) query)
  = [] ->
  let result := searchSAPProducts env query w in
  fst result = Ok (JSON_stringify env (products (firstn 3 cleanedProducts))) /\
  embeddingCache (snd result) = embeddingCache w /\
  log (snd result)
  = (log w ++ [EvHttp (searchRequest env query); EvEmbed query])%list.
Proof.
  intros Hax Hps Hclean Hlen Hmiss Hs.
  pose proof (getEmbedding_miss_empty env query
                (record (EvHttp (searchRequest env query)) w) Hmiss Hs) as Hq.
  assert (Hps_ne : ps <> []).
  { apply (omap_nonempty _ _ _ Hclean). intros ->. simpl in Hlen. lia. }
  search_start. rewrite Hax. cbv beta iota. rewrite Hps. cbv beta iota.
  destruct ps as [|p ps']; [congruence|].
  cbn [truthy lengthIsZero negb orb arrayOf obind].
  rewrite Hclean.
  assert (Hleb : (length cleanedProducts <=? 2)%nat = false)
    by (apply Nat.leb_gt; lia).
  rewrite Hleb, Hq. cbv beta iota zeta. cbn [fst snd].
  repeat split. simpl. now rewrite <- app_assoc.
Qed.

Lemma search_falls_back_witness :
  fst (searchSAPProducts (demoEnv demoCatalog []) (js "broken") initialWorld)
  = Ok (js "[P1;P2;P3;]").
Proof.
  refine (proj1 (search_falls_back (demoEnv demoCatalog []) (js "broken")
                   initialWorld _ _ _ eq_refl eq_refl eq_refl _ eq_refl eq_refl)).
  simpl. lia.
Defined.

(** The value of a ranked search, as the code computes it. *)
Lemma searchSAPProducts_ranked env query w data ps cleanedProducts
    queryEmbedding w1 productEmbeddings w2 :
  axios env (log w) (searchRequest env query) = Ok data ->
  getProp data (js "products") = Ok (VArr ps) ->
  omap (cleanProduct env) ps = Ok cleanedProducts ->
  (2 < length cleanedProducts)%nat ->
  getEmbedding env query (record (EvHttp (searchRequest env query)) w)
    = (Ok queryEmbedding, w1) ->
  queryEmbedding <> [] ->
  getEmbeddings env (map (productText env) cleanedProducts) w1
    = (Ok productEmbeddings, w2) ->
  searchSAPProducts env query w =
  (Ok (JSON_stringify env
         (products
            (map (fun c => dropKey scoreKey (fst c))
               (firstn 3
                  (sort scoreOrder
                     (combine cleanedProducts
                        (map (Num.cosineSimilarity queryEmbedding)
                             productEmbeddings))))))), w2).
Proof.
  intros Hax Hps Hclean Hlen Hq Hqne Hpe.
  set (candidates := combine cleanedProducts
                       (map (Num.cosineSimilarity queryEmbedding) productEmbeddings)).
  set (sorted := sort scoreOrder candidates).
  assert (Hperm : Permutation sorted candidates) by apply sort_perm.
  assert (Hps_ne : ps <> []).
  { apply (omap_nonempty _ _ _ Hclean). intros ->. simpl in Hlen. lia. }
  search_start. rewrite Hax. cbv beta iota. rewrite Hps. cbv beta iota.
  destruct ps as [|p ps']; [congruence|].
  cbn [truthy lengthIsZero negb orb arrayOf obind].
  rewrite Hclean.
  assert (Hleb : (length cleanedProducts <=? 2)%nat = false)
    by (apply Nat.leb_gt; lia).
  rewrite Hleb. rewrite Hq.
  destruct queryEmbedding as [|q0 qs]; [congruence|].
  rewrite Hpe. f_equal. f_equal. f_equal. f_equal.
  unfold rank.
  set (f := fun c : obj * float => withScore (fst c) (snd c)).
  change (map (fun pe => withScore (fst pe)
                           (Num.cosineSimilarity (q0 :: qs) (snd pe)))
              (combine cleanedProducts productEmbeddings))
    with (map (fun pe => f (fst pe, Num.cosineSimilarity (q0 :: qs) (snd pe)))
              (combine cleanedProducts productEmbeddings)).
  assert (Hmap : map (fun pe => f (fst pe, Num.cosineSimilarity (q0 :: qs) (snd pe)))
                     (combine cleanedProducts productEmbeddings)
                 = map f candidates).
  { unfold candidates.
    clear. revert productEmbeddings.
    induction cleanedProducts as [|c cs IH]; intros [|e es]; simpl; auto.
    now rewrite IH. }
  rewrite Hmap.
  rewrite (sort_map f scoreOrder (byScoreDescending env)).
  2:{ intros a b. unfold byScoreDescending, scoreOrder, f.
      now rewrite !similarityScore_withScore. }
  fold sorted. rewrite firstn_map, map_map.
  apply map_ext_in. intros c Hc. unfold f.
  apply withoutScore_withScore.
  assert (Hc' : In c sorted).
  { rewrite <- (firstn_skipn 3 sorted). apply in_or_app. now left. }
  apply (Permutation_in _ Hperm) in Hc'.
  destruct c as [o s]. unfold candidates in Hc'.
  apply in_combine_l in Hc'. simpl.
  pose proof (omap_Forall _ (fun o => NoDup (JsMap.keys o)) _ _
                (cleanProduct_nodup env) Hclean) as Hall.
  rewrite Forall_forall in Hall. auto.
Qed.

Lemma combine_fst {A B} (l : list A) (l' : list B) :
  length l = length l' -> map fst (combine l l') = l.
Proof.
  revert l'. induction l as [|a l IH]; intros [|b l'] H; simpl in *;
    try discriminate; auto.
  f_equal. apply IH. lia.
Qed.

(** X15. When the candidates come from the platform in an order in
    which no candidate scores higher than one before it (in particular
    when all scores are equal), the ranking moves nothing: the search
    returns the first three candidates in the platform's order.  Scores
    are assumed to be numbers (not NaN). *)
Theorem search_keeps_ranked_order env query w data ps cleanedProducts
    queryEmbedding w1 productEmbeddings w2 :
  axios env (log w) (searchRequest env query) = Ok data ->
  getProp data (js "products") = Ok (VArr ps) ->
  omap (cleanProduct env) ps = Ok cleanedProducts ->
  (2 < length cleanedProducts)%nat ->
  getEmbedding env query (record (EvHttp (searchRequest env query)) w)
    = (Ok queryEmbedding, w1) ->
  queryEmbedding <> [] ->
  getEmbeddings env (map (productText env) cleanedProducts) w1
    = (Ok productEmbeddings, w2) ->
  let candidates :=
    combine cleanedProducts
            (map (Num.cosineSimilarity queryEmbedding) productEmbeddings) in
  Forall (fun c => is_nan (snd c) = false) candidates ->
  StronglySorted (fun a b => fge (snd a) (snd b)) candidates ->
  searchSAPProducts env query w =
  (Ok (JSON_stringify env
         (products (map (dropKey scoreKey) (firstn 3 cleanedProducts)))), w2).
Proof.
  intros Hax Hps Hclean Hlen Hq Hqne Hpe candidates Hnum Hsorted.
  rewrite (searchSAPProducts_ranked env query w data ps cleanedProducts
             queryEmbedding w1 productEmbeddings w2) by assumption.
  fold candidates.
  destruct (getEmbeddings_ok env (map (productText env) cleanedProducts) w1)
    as (es & Hes & Hes_len).
  rewrite Hpe in Hes. simpl in Hes. injection Hes as <-.
  rewrite length_map in Hes_len.
  assert (Hid : sort scoreOrder candidates = candidates)
    by exact (sort_ordered snd candidates Hnum Hsorted).
  rewrite Hid. do 4 f_equal.
  rewrite <- (map_map fst (dropKey scoreKey)), <- firstn_map.
  unfold candidates. rewrite combine_fst; [reflexivity|].
  rewrite length_map. unfold embedding in *. lia.
Qed.

Lemma search_keeps_ranked_order_witness :
  fst (searchSAPProducts (demoEnv demoRankedCatalog []) (js "camera") initialWorld)
  = Ok (js "[P4;P2;P1;]").
Proof.
  eapply eq_trans.
  - apply f_equal.
    eapply (search_keeps_ranked_order (demoEnv demoRankedCatalog [])
              (js "camera") initialWorld).
    + vm_compute. reflexivity.
    + vm_compute. reflexivity.
    + vm_compute. reflexivity.
    + vm_compute. lia.
    + vm_compute. reflexivity.
    + discriminate.
    + vm_compute. reflexivity.
    + vm_compute. repeat constructor.
    + vm_compute. repeat constructor.
  - vm_compute. reflexivity.
Defined.

(** ** The directives of runAgent *)

Lemma startsWith_split p : forall s r,
  startsWith p s = Some r -> s = (p ++ r)%list.
Proof.
  induction p as [|a p IH]; intros s r H; simpl in *.
  - now injection H as <-.
  - destruct s as [|b s]; [discriminate|].
    destruct (Z.eqb_spec a b) as [<-|]; [|discriminate].
    f_equal. now apply IH.
Qed.

Lemma startsWith_app p r : startsWith p (p ++ r) = Some r.
Proof.
  induction p as [|a p IH]; simpl; auto.
  now rewrite Z.eqb_refl.
Qed.

Lemma spanNotBracket_split s : forall run rest,
  spanNotBracket s = (run, rest) ->
  s = (run ++ rest)%list /\ ~ In 93 run.
Proof.
  induction s as [|c s IH]; intros run rest H; simpl in H.
  - injection H as <- <-. auto.
  - destruct (Z.eqb_spec c 93) as [->|Hc].
    + injection H as <- <-. auto.
    + destruct (spanNotBracket s) as [run' rest'].
      injection H as <- <-.
      destruct (IH run' rest' eq_refl) as [-> Hn].
      split; [reflexivity|]. simpl. tauto.
Qed.

Lemma spanNotBracket_app g after :
  ~ In 93 g -> spanNotBracket (g ++ 93 :: after) = (g, 93 :: after).
Proof.
  induction g as [|c g IH]; intros H; simpl.
  - reflexivity.
  - destruct (Z.eqb_spec c 93) as [->|Hc]; [simpl in H; tauto|].
    rewrite IH by (simpl in H; tauto). reflexivity.
Qed.

Lemma matchTagHere_sound tag s g :
  matchTagHere tag s = Some g ->
  g <> [] /\ ~ In 93 g /\ exists after, s = (tagged tag g ++ after)%list.
Proof.
  unfold matchTagHere. intros H.
  destruct (startsWith (js "[" ++ tag ++ js ": ") s) as [rest|] eqn:Hp;
    [|discriminate].
  apply startsWith_split in Hp.
  destruct (spanNotBracket rest) as [run rest'] eqn:Hs.
  apply spanNotBracket_split in Hs as [-> Hn].
  destruct run as [|c run]; [discriminate|].
  destruct rest' as [|b after]; [discriminate|].
  destruct (Z.eq_dec b 93) as [->|Hb].
  - injection H as <-. split; [discriminate|]. split; [exact Hn|].
    exists after. rewrite Hp. unfold tagged.
    rewrite <- !app_assoc. reflexivity.
  - exfalso. revert H.
    destruct b as [|p|p]; try discriminate.
    do 7 (destruct p as [p|p|]; try discriminate).
    congruence.
Qed.

(** X16. A directive is found exactly when the text holds [[TAG: g]]
    with a [g] that is not empty and holds no [']']; the group handed
    on is such a [g] from the text. *)
Theorem matchTag_spec (tag s : jsstring) :
  (forall g, matchTag tag s = Some g ->
     g <> [] /\ ~ In 93 g /\
     exists before after, s = (before ++ tagged tag g ++ after)%list) /\
  ((exists before g after,
      g <> [] /\ ~ In 93 g /\ s = (before ++ tagged tag g ++ after)%list) ->
   matchTag tag s <> None).
Proof.
  split.
  - induction s as [|c s IH]; intros g H.
    + cbn [matchTag] in H.
      destruct (matchTagHere tag []) eqn:E; [|discriminate].
      injection H as ->.
      destruct (matchTagHere_sound _ _ _ E) as (H1 & H2 & after & H3).
      repeat split; auto. exists [], after. exact H3.
    + cbn [matchTag] in H.
      destruct (matchTagHere tag (c :: s)) eqn:E.
      * injection H as ->.
        destruct (matchTagHere_sound _ _ _ E) as (H1 & H2 & after & H3).
        repeat split; auto. exists [], after. exact H3.
      * destruct (IH g H) as (H1 & H2 & before & after & H3).
        repeat split; auto. exists (c :: before), after.
        simpl. now f_equal.
  - intros (before & g & after & Hne & Hn & ->).
    induction before as [|c before IH].
    + assert (E : matchTagHere tag (tagged tag g ++ after)%list = Some g).
      { unfold matchTagHere, tagged.
        rewrite <- (app_assoc (js "[" ++ tag ++ js ": ")%list).
        rewrite startsWith_app.
        rewrite <- app_assoc.
        change (js "]" ++ after)%list with (93 :: after).
        rewrite spanNotBracket_app by assumption.
        destruct g; [congruence | reflexivity]. }
      change ([] ++ tagged tag g ++ after)%list with (tagged tag g ++ after)%list.
      destruct (tagged tag g ++ after)%list eqn:E';
        cbn [matchTag]; rewrite E; discriminate.
    + cbn [app matchTag].
      destruct (matchTagHere tag (c :: before ++ tagged tag g ++ after));
        [discriminate | exact IH].
Qed.

Lemma matchTag_spec_witness :
  ~ In 93 (js "camera") /\
  exists before after,
    demoTagged = (before ++ tagged SEARCH (js "camera") ++ after)%list.
Proof.
  destruct (proj1 (matchTag_spec SEARCH demoTagged) (js "camera") eq_refl)
    as (_ & H & H').
  split; assumption.
Defined.

(** X17. A search that finds nothing ends in the error reply: the
    search returns the sentence "No products found.", the model is
    asked again with it, and then [JSON.parse] of that sentence throws
    into the outer [catch].  The reply has [searched: false] although
    the platform and the model were both asked. *)
Theorem runAgent_empty_search_is_error env userInput w response
    assistantResponse query data ps e :
  generateContent env (log w) (fullPrompt userInput) = Ok response ->
  responseText response = Ok (VStr assistantResponse) ->
  matchTag REVIEWS assistantResponse = None ->
  matchTag VIEW assistantResponse = None ->
  matchTag SEARCH assistantResponse = Some query ->
  let w0 := record (EvGenerate (fullPrompt userInput)) w in
  axios env (log w0) (searchRequest env query) = Ok data ->
  getProp data (js "products") = Ok ps ->
  negb (truthy ps) || lengthIsZero ps = true ->
  JSON_parse env noProducts = Throw e ->
  exists e',
    fst (runAgent env userInput w) = Ok (errorReply e') /\
    log (snd (runAgent env userInput w))
    = (log w0 ++ [EvHttp (searchRequest env query);
                  EvGenerate (refinedPrompt userInput noProducts)])%list.
Proof.
  intros Hgen Htext Hr Hv Hs w0 Hax Hps Hempty Hparse.
  set (w1 := record (EvHttp (searchRequest env query)) w0).
  assert (Hrun : exists e',
             runAgent env userInput w
             = (Ok (errorReply e'),
                record (EvGenerate (refinedPrompt userInput noProducts)) w1)).
  { rewrite (runAgent_branches env userInput w response assistantResponse)
      by assumption.
    rewrite Hr, Hv, Hs. fold w0.
    assert (Hsearch : searchSAPProducts env query w0 = (Ok noProducts, w1)).
    { search_start. rewrite Hax. cbv beta iota. rewrite Hps. cbv beta iota.
      rewrite Hempty. reflexivity. }
    unfold tryCatch, actOnSearch, bind at 1. rewrite Hsearch.
    unfold bind at 1, call_generateContent.
    destruct (generateContent env (log w1) (refinedPrompt userInput noProducts))
      as [refined|e1].
    - unfold bind, lift.
      destruct (responseText refined) as [text|e2].
      + rewrite Hparse. now exists e.
      + now exists e2.
    - now exists e1. }
  destruct Hrun as [e' Hrun]. exists e'. rewrite Hrun. split; [reflexivity|].
  simpl. now rewrite <- app_assoc.
Qed.

Lemma runAgent_empty_search_is_error_witness :
  let env := demoEnv (VObj [(js "products", VArr [])])
                     (js "[SEARCH: camera] Let me look.") in
  exists e',
    fst (runAgent env (js "I need a camera") initialWorld) = Ok (errorReply e').
Proof.
  intros env.
  destruct (runAgent_empty_search_is_error env (js "I need a camera")
              initialWorld _ _ (js "camera") _ _ (typeError "Unexpected token")
              eq_refl eq_refl eq_refl eq_refl eq_refl eq_refl eq_refl eq_refl
              eq_refl) as (e' & H & _).
  exists e'. exact H.
Defined.

(** ** The answers of the endpoints *)

Section Answers.
Context {A : Type}.
Variable P : A -> Prop.
Variable onThrow : Prop.

Lemma answers_ret (a : A) : P a -> answers P onThrow (ret a).
Proof. intros H w. exact H. Qed.

Lemma answers_throw (e : jserror) : onThrow -> answers P onThrow (throw e).
Proof. intros H w. exact H. Qed.

Lemma answers_bind {B} (m : M B) (f : B -> M A) :
  answers (fun _ => True) onThrow m ->
  (forall b, answers P onThrow (f b)) ->
  answers P onThrow (bind m f).
Proof.
  intros Hm Hf w. unfold bind. specialize (Hm w).
  destruct (m w) as [[b|e] w1]; simpl in *; auto.
  apply Hf.
Qed.

Lemma answers_tryCatch (m : M A) (h : jserror -> M A) :
  answers P True m ->
  (forall e, answers P onThrow (h e)) ->
  answers P onThrow (tryCatch m h).
Proof.
  intros Hm Hh w. unfold tryCatch. specialize (Hm w).
  destruct (m w) as [[a|e] w1]; simpl in *; auto.
  apply Hh.
Qed.

End Answers.

Lemma answers_any {A} (m : M A) : answers (fun _ => True) True m.
Proof. intros w. destruct (fst (m w)); exact I. Qed.

Lemma answers_gets {A} (f : world -> A) T : answers (fun _ => True) T (gets f).
Proof. intros w. exact I. Qed.

Lemma answers_modify f T : answers (fun _ => True) T (modify f).
Proof. intros w. exact I. Qed.

Lemma answers_getSession sid T : answers (fun _ => True) T (getSession sid).
Proof. intros w. exact I. Qed.

Lemma answers_setSession sid s T : answers (fun _ => True) T (setSession sid s).
Proof. intros w. exact I. Qed.

Lemma answers_destroySession sid T :
  answers (fun _ => True) T (destroySession sid).
Proof. intros w. exact I. Qed.

Lemma answers_call_randomUUID env T :
  answers (fun _ => True) T (call_randomUUID env).
Proof. intros w. exact I. Qed.

Lemma answers_call_newDate env T :
  answers (fun _ => True) T (call_newDate env).
Proof. intros w. exact I. Qed.

(** [runAgent] catches whatever is thrown in it. *)
Lemma answers_runAgent env q T : answers (fun _ => True) T (runAgent env q).
Proof.
  intros w. unfold runAgent, tryCatch.
  match goal with |- context [bind ?m ?f w] => destruct (bind m f w) as [[v|e] w'] end;
    exact I.
Qed.

Create HintDb answers.

#[local] Hint Resolve answers_any answers_gets answers_modify
  answers_getSession answers_setSession answers_destroySession
  answers_call_randomUUID answers_call_newDate answers_runAgent : answers.

Ltac answers_step :=
  intros;
  match goal with
  | |- answers (fun _ => True) True _ => apply answers_any
  | |- answers _ _ (bind _ _) => apply answers_bind
  | |- answers _ _ (tryCatch _ _) => apply answers_tryCatch
  | |- answers _ _ (ret _) => apply answers_ret; simpl; tauto
  | |- answers _ _ (throw _) => apply answers_throw; simpl; tauto
  | |- answers _ _ (if ?b then _ else _) => destruct b
  | |- answers _ _ (match ?x with _ => _ end) => destruct x
  end.

Ltac answering := repeat answers_step; eauto 3 with answers.

Lemma answers_tryCatch_total {A} (P : A -> Prop) T (m : M A) h :
  answers P False m -> answers P T (tryCatch m h).
Proof.
  intros Hm w. unfold tryCatch. specialize (Hm w).
  destruct (m w) as [[a|e] w1]; simpl in *; tauto.
Qed.



(** ** Sessions *)

Lemma keepsSession_refl me w : keepsSession me w w.
Proof. reflexivity. Qed.

Lemma keepsSession_trans me w1 w2 w3 :
  keepsSession me w1 w2 -> keepsSession me w2 w3 -> keepsSession me w1 w3.
Proof. unfold keepsSession. congruence. Qed.

#[local] Hint Resolve keepsSession_refl keepsSession_trans : core.

Lemma keepsSession_leaf {A} me (m : M A) :
  effect sameSessions m -> effect (keepsSession me) m.
Proof.
  apply effect_weaken. intros w w' H. now apply sessionOf_same.
Qed.

Lemma keepsSession_withCache me f :
  effect (keepsSession me) (modify (withCache f)).
Proof. intros w. reflexivity. Qed.

Lemma keepsSession_withUsers me f :
  effect (keepsSession me) (modify (withUsers f)).
Proof. intros w. reflexivity. Qed.

Lemma keepsSession_withCarts me f :
  effect (keepsSession me) (modify (withCarts f)).
Proof. intros w. reflexivity. Qed.

Lemma keepsSession_withOrders me f :
  effect (keepsSession me) (modify (withOrders f)).
Proof. intros w. reflexivity. Qed.

Lemma keepsSession_withOrderCounter me f :
  effect (keepsSession me) (modify (withOrderCounter f)).
Proof. intros w. reflexivity. Qed.

Lemma keepsSession_call_axios me env r :
  effect (keepsSession me) (call_axios env r).
Proof. intros w. reflexivity. Qed.

Lemma keepsSession_call_randomUUID me env :
  effect (keepsSession me) (call_randomUUID env).
Proof. intros w. reflexivity. Qed.

Lemma keepsSession_call_newDate me env :
  effect (keepsSession me) (call_newDate env).
Proof. intros w. reflexivity. Qed.

Lemma keepsSession_runAgent me env q :
  effect (keepsSession me) (runAgent env q).
Proof. apply keepsSession_leaf, sameSessions_runAgent. Qed.

Lemma keepsSession_setSession_other me sid' s :
  me <> sid' -> effect (keepsSession me) (setSession sid' s).
Proof. intros Hne w. simpl. unfold keepsSession. now rewrite sessionOf_set_other. Qed.

Lemma keepsSession_destroySession_other me sid' :
  me <> sid' -> effect (keepsSession me) (destroySession sid').
Proof.
  intros Hne w. simpl. unfold keepsSession. now rewrite sessionOf_delete_other.
Qed.

#[local] Hint Resolve keepsSession_withCache keepsSession_withUsers
  keepsSession_withCarts keepsSession_withOrders
  keepsSession_withOrderCounter keepsSession_call_axios
  keepsSession_call_randomUUID keepsSession_call_newDate
  keepsSession_runAgent keepsSession_setSession_other
  keepsSession_destroySession_other : effects.

(** X19. Sessions are isolated: whatever a request does, and whether
    it succeeds or not, every session other than its own reads
    afterwards as it did before (user, email and cart handle). *)
Theorem sessions_isolated env (req : request) (w : world) (me : jsstring) :
  me <> sid req ->
  sessionOf me (snd (handle env req w)) = sessionOf me w.
Proof.
  intros Hne. rewrite handle_snd.
  assert (H : effect (keepsSession me) (handler env req)); [|exact (H w)].
  unfold handler.
  destruct (route req);
    unfold postAuthRegister, postAuthLogin, getAuthLogout, getAuthMe,
           getProduct, getProductReviews, getCart, postCartAdd,
           postCartRemove, postCartUpdate, postSearch, postOrdersCreate,
           getOrder, getOrders, requireAuth;
    effects.
Qed.

Lemma sessions_isolated_witness :
  sessionOf (js "s1")
    (snd (handle (demoEnv demoCatalog [])
            {| sid := js "s2"; route := GetAuthLogout; reqBody := VObj [] |}
            (serve (demoEnv demoCatalog []) [demoRegister; demoAdd] initialWorld)))
  = sessionOf (js "s1")
      (serve (demoEnv demoCatalog []) [demoRegister; demoAdd] initialWorld).
Proof.
  apply (sessions_isolated (demoEnv demoCatalog [])
           {| sid := js "s2"; route := GetAuthLogout; reqBody := VObj [] |}).
  discriminate.
Defined.

(** ** Accounts *)

Lemma get_set_absent {K V} (keq : K -> K -> bool) k k' (v u : V) m :
  JsMap.get keq k m = Some u ->
  JsMap.has keq k' m = false ->
  JsMap.get keq k (JsMap.set keq k' v m) = Some u.
Proof.
  unfold JsMap.has.
  induction m as [|[k1 v1] r IH]; simpl; [discriminate|].
  intros Hget Hhas.
  destruct (keq k1 k') eqn:E'; [discriminate|].
  simpl. destruct (keq k1 k); auto.
Qed.

Lemma sameUsers_refl w : sameUsers w w.
Proof. reflexivity. Qed.

Lemma sameUsers_trans w1 w2 w3 :
  sameUsers w1 w2 -> sameUsers w2 w3 -> sameUsers w1 w3.
Proof. unfold sameUsers. congruence. Qed.

#[local] Hint Resolve sameUsers_refl sameUsers_trans : core.

Lemma sameUsers_withCarts f : effect sameUsers (modify (withCarts f)).
Proof. intros w. reflexivity. Qed.

Lemma sameUsers_withOrders f : effect sameUsers (modify (withOrders f)).
Proof. intros w. reflexivity. Qed.

Lemma sameUsers_withOrderCounter f :
  effect sameUsers (modify (withOrderCounter f)).
Proof. intros w. reflexivity. Qed.

Lemma sameUsers_setSession sid s : effect sameUsers (setSession sid s).
Proof. intros w. reflexivity. Qed.

Lemma sameUsers_destroySession sid : effect sameUsers (destroySession sid).
Proof. intros w. reflexivity. Qed.

Lemma sameUsers_call_axios env r : effect sameUsers (call_axios env r).
Proof. intros w. reflexivity. Qed.

Lemma sameUsers_call_newDate env : effect sameUsers (call_newDate env).
Proof. intros w. reflexivity. Qed.

Lemma sameUsers_runAgent env q : effect sameUsers (runAgent env q).
Proof.
  eapply effect_weaken; [|apply inside_runAgent].
  intros w w' H. apply H.
Qed.

#[local] Hint Resolve sameUsers_withCarts sameUsers_withOrders
  sameUsers_withOrderCounter sameUsers_setSession sameUsers_destroySession
  sameUsers_call_axios sameUsers_call_newDate sameUsers_runAgent : effects.

(** Only registration writes [users]. *)
Lemma handler_sameUsers env req :
  route req <> PostAuthRegister -> effect sameUsers (handler env req).
Proof.
  intros Hr. unfold handler.
  destruct (route req); try congruence;
    unfold postAuthLogin, getAuthLogout, getAuthMe,
           getProduct, getProductReviews, getCart, postCartAdd,
           postCartRemove, postCartUpdate, postSearch, postOrdersCreate,
           getOrder, getOrders, requireAuth;
    effects.
Qed.

(** Registration adds an account and never replaces one. *)
Lemma postAuthRegister_keepsAccount env req email u w :
  keepsAccount email u w (snd (postAuthRegister env req w)).
Proof.
  intros H. unfold postAuthRegister.
  destruct (negb _ || negb _); [exact H|].
  unfold bind at 1, gets at 1.
  destruct (JsMap.has sameValueZero (field (js "email") (reqBody req)) (users w))
    eqn:E; [exact H|].
  simpl. now apply get_set_absent.
Qed.

Lemma handle_keepsAccount env req email u w :
  keepsAccount email u w (snd (handle env req w)).
Proof.
  rewrite handle_snd.
  destruct (endpoint_eq_dec (route req) PostAuthRegister) as [Hr|Hr].
  - unfold handler. rewrite Hr. apply postAuthRegister_keepsAccount.
  - intros H. now rewrite (handler_sameUsers env req Hr w).
Qed.

Lemma serve_keepsAccount env reqs email u w :
  keepsAccount email u w (serve env reqs w).
Proof.
  induction reqs as [|req reqs IH] using rev_ind.
  - intros H. exact H.
  - rewrite serve_snoc. intros H. apply handle_keepsAccount. auto.
Qed.

(** X20. An account, once on record, stays as it is whatever requests
    follow (nothing removes or rewrites it).  A later login with its
    email and password, from any session, answers 200 and signs that
    session in under the account's id, keeping the session's cart
    handle; a login with another password answers 401 and changes
    nothing. *)
Theorem account_persists env (reqs : list request) (w : world)
    (req : request) (u : user) :
  let email := field (js "email") (reqBody req) in
  let password := field (js "password") (reqBody req) in
  JsMap.get sameValueZero email (users w) = Some u ->
  route req = PostAuthLogin ->
  truthy email = true -> truthy password = true ->
  let w1 := serve env reqs w in
  let r := handle env req w1 in
  (strictEq (User.password u) password = true ->
   status (fst r) = 200 /\
   Session.userId (sessionOf (sid req) (snd r)) = VStr (User.id u) /\
   Session.cartGuid (sessionOf (sid req) (snd r))
   = Session.cartGuid (sessionOf (sid req) w1)) /\
  (strictEq (User.password u) password = false ->
   fst r = statusJson 401 (errorBody "Invalid credentials") /\ snd r = w1).
Proof.
  intros email password Hu Hr He Hp w1 r.
  pose proof (serve_keepsAccount env reqs email u w Hu) as Hu1. fold w1 in Hu1.
  assert (Hrun : handler env req w1 = postAuthLogin env req w1)
    by (unfold handler; now rewrite Hr).
  assert (Hlogin : postAuthLogin env req w1 =
            (if negb (strictEq (User.password u) password)
             then ret (statusJson 401 (errorBody "Invalid credentials"))
             else
               bind (getSession (sid req)) (fun s =>
               bind (setSession (sid req)
                       {| Session.userId := VStr (User.id u);
                          Session.email := email;
                          Session.cartGuid := Session.cartGuid s |}) (fun _ =>
               ret (json (VObj [(js "success", VBool true);
                                (js "message", str "Login successful");
                                (js "userId", VStr (User.id u));
                                (js "user",
                                 VObj [(js "email", User.email u);
                                       (js "firstName", User.firstName u);
                                       (js "lastName", User.lastName u)])])))))
            w1).
  { unfold postAuthLogin. fold email password. rewrite He, Hp. cbn [negb orb].
    unfold bind at 1, gets at 1. now rewrite Hu1. }
  subst r. unfold handle. rewrite Hrun, Hlogin.
  split; intros Hpw; rewrite Hpw; cbn [negb].
  - unfold bind, getSession, gets, setSession, modify, ret.
    cbn [fst snd status json].
    rewrite !sessionOf_set_same. cbn. auto.
  - split; reflexivity.
Qed.

Lemma account_persists_witness :
  let env := demoEnv demoCatalog [] in
  let w1 := serve env [demoAdd; demoLogin "s2" "wrong"]
              (serve env [demoRegister] initialWorld) in
  status (fst (handle env (demoLogin "s3" "secret") w1)) = 200.
Proof.
  intros env w1.
  refine (proj1 (proj1 (account_persists env [demoAdd; demoLogin "s2" "wrong"]
                          (serve env [demoRegister] initialWorld)
                          (demoLogin "s3" "secret") _
                          eq_refl eq_refl eq_refl eq_refl) eq_refl)).
Defined.

(** ** Logging out *)

Lemma keys_delete_nodup {V} k (m : list (jsstring * V)) :
  NoDup (JsMap.keys m) -> NoDup (JsMap.keys (JsMap.delete str_eqb k m)).
Proof.
  unfold JsMap.keys.
  induction m as [|[k1 v1] r IH]; simpl; intros H; auto.
  inversion H as [|? ? Hin Hr]; subst.
  destruct (str_eqb k1 k); auto.
  simpl. constructor; auto.
  intros Hk. apply Hin. clear -Hk.
  induction r as [|[k2 v2] r IH]; simpl in *; auto.
  destruct (str_eqb k2 k); simpl in *; tauto.
Qed.

Lemma keys_set_nodup {V} k (v : V) (m : list (jsstring * V)) :
  NoDup (JsMap.keys m) -> NoDup (JsMap.keys (JsMap.set str_eqb k v m)).
Proof.
  intros H. rewrite keys_set. unfold JsMap.has.
  destruct (JsMap.get str_eqb k m) eqn:E; auto.
  apply get_None_notin in E.
  apply NoDup_app; auto.
  - repeat constructor. intros [].
  - intros x Hx [<-|[]]. contradiction.
Qed.

Lemma get_delete_same {V} k (m : list (jsstring * V)) :
  NoDup (JsMap.keys m) ->
  JsMap.get str_eqb k (JsMap.delete str_eqb k m) = None.
Proof.
  unfold JsMap.keys.
  induction m as [|[k1 v1] r IH]; simpl; intros H; auto.
  inversion H as [|? ? Hin Hr]; subst.
  destruct (str_eqb k1 k) eqn:E.
  - apply str_eqb_eq in E. subst k1. now apply get_None_notin.
  - simpl. rewrite E. auto.
Qed.

Lemma distinctSessions_refl w : distinctSessions w w.
Proof. unfold distinctSessions. auto. Qed.

Lemma distinctSessions_trans w1 w2 w3 :
  distinctSessions w1 w2 -> distinctSessions w2 w3 -> distinctSessions w1 w3.
Proof. unfold distinctSessions. auto. Qed.

#[local] Hint Resolve distinctSessions_refl distinctSessions_trans : core.

Lemma distinctSessions_leaf {A} (m : M A) :
  effect sameSessions m -> effect distinctSessions m.
Proof.
  apply effect_weaken. intros w w' H. unfold distinctSessions. now rewrite H.
Qed.

Lemma distinctSessions_setSession sid s :
  effect distinctSessions (setSession sid s).
Proof. intros w H. simpl. now apply keys_set_nodup. Qed.

Lemma distinctSessions_destroySession sid :
  effect distinctSessions (destroySession sid).
Proof. intros w H. simpl. now apply keys_delete_nodup. Qed.

#[local] Hint Resolve distinctSessions_leaf distinctSessions_setSession
  distinctSessions_destroySession : effects.

Lemma handler_distinctSessions env req :
  effect distinctSessions (handler env req).
Proof.
  unfold handler.
  destruct (route req);
    unfold postAuthRegister, postAuthLogin, getAuthLogout, getAuthMe,
           getProduct, getProductReviews, getCart, postCartAdd,
           postCartRemove, postCartUpdate, postSearch, postOrdersCreate,
           getOrder, getOrders, requireAuth;
    effects.
Qed.

Lemma serve_distinctSessions env reqs :
  NoDup (JsMap.keys (sessions (serve env reqs initialWorld))).
Proof.
  induction reqs as [|req reqs IH] using rev_ind.
  - constructor.
  - rewrite serve_snoc, handle_snd.
    now apply handler_distinctSessions.
Qed.

(** X21. In every state the server reaches, GET /api/auth/logout
    answers 200, asks nothing of the outside and leaves the session
    empty: the user, the email and the cart handle are all gone, so
    the cart built up in the session can no longer be reached. *)
Theorem logout_clears_session env (reqs : list request) (req : request) :
  route req = GetAuthLogout ->
  let w := serve env reqs initialWorld in
  let r := handle env req w in
  status (fst r) = 200 /\
  sessionOf (sid req) (snd r) = Session.empty /\
  log (snd r) = log w.
Proof.
  intros Hr w r.
  assert (Hrun : handler env req w = getAuthLogout req w)
    by (unfold handler; now rewrite Hr).
  subst r. unfold handle. rewrite Hrun.
  unfold getAuthLogout, bind, destroySession, modify, ret.
  cbn [fst snd status json]. repeat split.
  unfold sessionOf. cbn [sessions withSessions].
  rewrite get_delete_same; [reflexivity|].
  apply serve_distinctSessions.
Qed.

Lemma logout_clears_session_witness :
  let env := demoEnv demoCatalog [] in
  let w := serve env [demoRegister; demoAdd] initialWorld in
  truthy (Session.cartGuid (sessionOf (js "s1") w)) = true /\
  sessionOf (js "s1") (snd (handle env demoLogout w)) = Session.empty.
Proof.
  intros env w. split.
  - vm_compute. reflexivity.
  - exact (proj1 (proj2 (logout_clears_session env [demoRegister; demoAdd]
                           demoLogout eq_refl))).
Defined.

(** ** Orders *)

Lemma sameCounter_refl w : sameCounter w w.
Proof. reflexivity. Qed.

Lemma sameCounter_trans w1 w2 w3 :
  sameCounter w1 w2 -> sameCounter w2 w3 -> sameCounter w1 w3.
Proof. unfold sameCounter. congruence. Qed.

#[local] Hint Resolve sameCounter_refl sameCounter_trans : core.

Lemma sameCounter_withUsers f : effect sameCounter (modify (withUsers f)).
Proof. intros w. reflexivity. Qed.

Lemma sameCounter_setSession sid s : effect sameCounter (setSession sid s).
Proof. intros w. reflexivity. Qed.

Lemma sameCounter_destroySession sid : effect sameCounter (destroySession sid).
Proof. intros w. reflexivity. Qed.

Lemma sameCounter_call_axios env r : effect sameCounter (call_axios env r).
Proof. intros w. reflexivity. Qed.

Lemma sameCounter_call_randomUUID env : effect sameCounter (call_randomUUID env).
Proof. intros w. reflexivity. Qed.

Lemma sameCounter_call_newDate env : effect sameCounter (call_newDate env).
Proof. intros w. reflexivity. Qed.

Lemma sameCounter_runAgent env q : effect sameCounter (runAgent env q).
Proof.
  eapply effect_weaken; [|apply inside_runAgent].
  intros w w' H. apply H.
Qed.

#[local] Hint Resolve sameCounter_withUsers sameCounter_setSession
  sameCounter_destroySession sameCounter_call_axios
  sameCounter_call_randomUUID sameCounter_call_newDate
  sameCounter_runAgent : effects.

Lemma handler_sameCounter env req :
  route req <> PostOrdersCreate -> effect sameCounter (handler env req).
Proof.
  intros Hr. unfold handler.
  destruct (route req); try congruence;
    unfold postAuthRegister, postAuthLogin, getAuthLogout, getAuthMe,
           getProduct, getProductReviews, getCart, postCartAdd,
           postCartRemove, postCartUpdate, postSearch, getOrder, getOrders,
           requireAuth;
    effects.
Qed.

Lemma serve_counter env reqs :
  orderCounter (serve env reqs initialWorld) = 1000.
Proof.
  induction reqs as [|req reqs IH] using rev_ind; [reflexivity|].
  rewrite serve_snoc, handle_snd.
  destruct (serve_shop_empty env reqs) as [Hc _].
  set (w := serve env reqs initialWorld) in *.
  destruct (endpoint_eq_dec (route req) PostOrdersCreate) as [Hr|Hr].
  - unfold handler. rewrite Hr.
    destruct (truthy (Session.userId (sessionOf (sid req) w))) eqn:Hu.
    + now rewrite postOrdersCreate_empty.
    + now rewrite postOrdersCreate_unauthenticated.
  - now rewrite (handler_sameCounter env req Hr w).
Qed.

(** X22. In every state the server reaches, no order number has been
    issued (the counter is still 1000) and the order endpoints find
    nothing: GET /api/orders/:orderId answers 401 without a signed-in
    session and 404 with one, and GET /api/orders answers 401 or an
    empty list. *)
Theorem orders_never_found env (reqs : list request) (req : request) :
  let w := serve env reqs initialWorld in
  let signedIn := truthy (Session.userId (sessionOf (sid req) w)) in
  orderCounter w = 1000 /\
  (forall orderId, route req = GetOrder orderId ->
     handle env req w =
     (if signedIn then statusJson 404 (errorBody "Order not found")
      else statusJson 401 (errorBody "Authentication required"), w)) /\
  (route req = GetOrders ->
     handle env req w =
     (if signedIn
      then json (VObj [(js "orders", VArr []);
                       (js "total", VNum (ofLength env 0))])
      else statusJson 401 (errorBody "Authentication required"), w)).
Proof.
  intros w signedIn.
  destruct (serve_shop_empty env reqs) as [_ Ho]. fold w in Ho.
  split; [apply serve_counter|]. split.
  - intros orderId Hr. unfold handle, handler. rewrite Hr.
    unfold getOrder, requireAuth, bind, getSession, gets, ret.
    fold signedIn. destruct signedIn; cbn [negb]; [|reflexivity].
    rewrite Ho. reflexivity.
  - intros Hr. unfold handle, handler. rewrite Hr.
    unfold getOrders, requireAuth, bind, getSession, gets, ret.
    fold signedIn. destruct signedIn; cbn [negb]; [|reflexivity].
    rewrite Ho. reflexivity.
Qed.

Lemma orders_never_found_witness :
  let env := demoEnv demoCatalog [] in
  let w := serve env [demoRegister; demoAdd] initialWorld in
  fst (handle env {| sid := js "s1"; route := GetOrder (js "ORD-1001");
                     reqBody := VObj [] |} w)
  = statusJson 404 (errorBody "Order not found").
Proof.
  intros env w.
  exact (f_equal fst
           (proj1 (proj2 (orders_never_found env [demoRegister; demoAdd]
                            {| sid := js "s1"; route := GetOrder (js "ORD-1001");
                               reqBody := VObj [] |}))
              (js "ORD-1001") eq_refl)).
Defined.

(** ** The command-line agent *)

Lemma record_withLog ev evs w :
  record ev (withLog (fun l => l ++ evs)%list w)
  = withLog (fun l => l ++ evs ++ [ev])%list w.
Proof.
  destruct w. unfold record, withLog. simpl. f_equal.
  now rewrite <- app_assoc.
Qed.

(** The command-line search asks the platform once and always returns
    a string. *)
Lemma agent_search_result env q w :
  exists r,
    Agent.searchSAPProducts env q w
    = (Ok r, record (EvHttp (Agent.searchRequest env q)) w).
Proof.
  search_start.
  destruct (axios env (log w) (Agent.searchRequest env q)) as [data|e];
    [|eauto].
  destruct (getProp data (js "products")) as [ps|e]; [|eauto].
  destruct (negb (truthy ps)); eauto.
Qed.

(** X23. The command-line agent never throws and changes nothing but
    the log of outside calls, which grows either by the one question to
    the model, or by that question, one product search and a second
    question to the model, in this order.  It never asks for reviews,
    product details or embeddings: only the SEARCH directive is acted
    on. *)
Theorem cli_runAgent_calls env (userInput : jsstring) (w : world) :
  exists out evs,
    Cli.runAgent env userInput w = (Ok out, withLog (fun l => l ++ evs)%list w) /\
    (evs = [EvGenerate (fullPrompt userInput)] \/
     exists query sapResults,
       evs = [EvGenerate (fullPrompt userInput);
              EvHttp (Agent.searchRequest env query);
              EvGenerate (refinedPrompt userInput sapResults)]).
Proof.
  unfold Cli.runAgent, tryCatch.
  unfold bind at 1, call_generateContent at 1.
  change (record (EvGenerate (fullPrompt userInput)) w)
    with (withLog (fun l => l ++ [EvGenerate (fullPrompt userInput)])%list w).
  set (w0 := withLog (fun l => l ++ [EvGenerate (fullPrompt userInput)])%list w).
  assert (Hone : forall out : Cli.printed,
            exists out' evs,
              (Ok out, w0) = (Ok out', withLog (fun l => l ++ evs)%list w) /\
              (evs = [EvGenerate (fullPrompt userInput)] \/
               exists query sapResults,
                 evs = [EvGenerate (fullPrompt userInput);
                        EvHttp (Agent.searchRequest env query);
                        EvGenerate (refinedPrompt userInput sapResults)])).
  { intros out. exists out, [EvGenerate (fullPrompt userInput)]. auto. }
  destruct (generateContent env (log w) (fullPrompt userInput)) as [response|e];
    [|apply Hone].
  unfold bind at 1, lift at 1.
  destruct (responseText response) as [text|e]; [|apply Hone].
  destruct text as [| |b|n|assistantResponse|l|o]; try apply Hone.
  destruct (matchTag SEARCH assistantResponse) as [query|]; [|apply Hone].
  clear Hone. unfold bind at 1.
  destruct (agent_search_result env query w0) as [sapResults Hs].
  rewrite Hs. unfold w0. rewrite record_withLog.
  unfold bind at 1, call_generateContent at 1.
  rewrite record_withLog. cbn [app].
  assert (Hthree : forall out : Cli.printed,
            exists out' evs,
              (Ok out,
               withLog (fun l => l ++ [EvGenerate (fullPrompt userInput);
                                       EvHttp (Agent.searchRequest env query);
                                       EvGenerate (refinedPrompt userInput sapResults)])%list w)
              = (Ok out', withLog (fun l => l ++ evs)%list w) /\
              (evs = [EvGenerate (fullPrompt userInput)] \/
               exists query sapResults,
                 evs = [EvGenerate (fullPrompt userInput);
                        EvHttp (Agent.searchRequest env query);
                        EvGenerate (refinedPrompt userInput sapResults)])).
  { intros out. eexists out, _. split; [reflexivity|]. right. eauto. }
  destruct (generateContent env _ (refinedPrompt userInput sapResults))
    as [refined|e]; [|apply Hthree].
  unfold bind, lift, ret.
  destruct (Cli.responseTextRaw refined) as [t|e]; apply Hthree.
Qed.

(** X24. Where the server's agent ends in its error reply, the
    command-line agent carries on: when the platform's answer has no
    product list, the sentence "No products found." goes into the
    second question and the model's second answer is printed, as it is
    and with no default (it may be [undefined]). *)
Theorem cli_answers_after_empty_search env userInput w response
    assistantResponse query data ps refined text :
  generateContent env (log w) (fullPrompt userInput) = Ok response ->
  responseText response = Ok (VStr assistantResponse) ->
  matchTag SEARCH assistantResponse = Some query ->
  let w0 := record (EvGenerate (fullPrompt userInput)) w in
  let w1 := record (EvHttp (Agent.searchRequest env query)) w0 in
  axios env (log w0) (Agent.searchRequest env query) = Ok data ->
  getProp data (js "products") = Ok ps ->
  truthy ps = false ->
  generateContent env (log w1) (refinedPrompt userInput noProducts) = Ok refined ->
  Cli.responseTextRaw refined = Ok text ->
  Cli.runAgent env userInput w
  = (Ok (Cli.AgentSays text),
     record (EvGenerate (refinedPrompt userInput noProducts)) w1).
Proof.
  intros Hgen Htext Hs w0 w1 Hax Hps Hempty Hgen2 Hraw.
  assert (Hsearch : Agent.searchSAPProducts env query w0 = (Ok noProducts, w1)).
  { search_start. fold w0. rewrite Hax. cbv beta iota. rewrite Hps.
    cbv beta iota. rewrite Hempty. reflexivity. }
  unfold Cli.runAgent, tryCatch.
  unfold bind at 1, call_generateContent at 1. rewrite Hgen. fold w0.
  unfold bind at 1, lift at 1. rewrite Htext, Hs.
  unfold bind at 1. rewrite Hsearch.
  unfold bind at 1, call_generateContent at 1. rewrite Hgen2.
  unfold bind, lift, ret. rewrite Hraw. reflexivity.
Qed.

Lemma cli_answers_after_empty_search_witness :
  let env := demoEnv (VObj []) (js "[SEARCH: camera] Let me look.") in
  fst (Cli.runAgent env (js "I need a camera") initialWorld)
  = Ok (Cli.AgentSays (str "[SEARCH: camera] Let me look.")).
Proof.
  intros env.
  refine (f_equal fst
    (cli_answers_after_empty_search env (js "I need a camera") initialWorld
       _ _ (js "camera") _ _ _ _
       eq_refl eq_refl eq_refl eq_refl eq_refl eq_refl eq_refl eq_refl)).
Defined.

(** The two agents on the same answers of the outside. *)
Example agents_differ_on_empty_search :
  let env := demoEnv (VObj []) (js "[SEARCH: camera] Let me look.") in
  fst (Cli.runAgent env (js "I need a camera") initialWorld)
  = Ok (Cli.AgentSays (str "[SEARCH: camera] Let me look.")) /\
  fst (runAgent env (js "I need a camera") initialWorld)
  = Ok (errorReply (typeError "Unexpected token")).
Proof. split; vm_compute; reflexivity. Qed.

(** ** Registration *)

(** X25. An email registers once: while an account is on record under
    it, which it stays whatever requests follow, a registration with
    that email answers 409 and changes nothing, whatever the password
    and from whatever session. *)
Theorem email_registers_once env (reqs : list request) (w : world)
    (req : request) (u : user) :
  let email := field (js "email") (reqBody req) in
  JsMap.get sameValueZero email (users w) = Some u ->
  route req = PostAuthRegister ->
  truthy email = true ->
  truthy (field (js "password") (reqBody req)) = true ->
  let w1 := serve env reqs w in
  handle env req w1 = (statusJson 409 (errorBody "User already exists"), w1).
Proof.
  intros email Hu Hr He Hp w1.
  pose proof (serve_keepsAccount env reqs email u w Hu) as Hu1. fold w1 in Hu1.
  unfold handle, handler. rewrite Hr. unfold postAuthRegister.
  fold email. rewrite He, Hp. cbn [negb orb].
  unfold bind at 1, gets at 1. unfold JsMap.has. rewrite Hu1. reflexivity.
Qed.

Lemma email_registers_once_witness :
  let env := demoEnv demoCatalog [] in
  let w1 := serve env [demoAdd] (serve env [demoRegister] initialWorld) in
  handle env {| sid := js "s2"; route := PostAuthRegister;
                reqBody := VObj [(js "email", str "ada@example.org");
                                 (js "password", str "other")] |} w1
  = (statusJson 409 (errorBody "User already exists"), w1).
Proof.
  intros env w1.
  refine (email_registers_once env [demoAdd] (serve env [demoRegister] initialWorld)
            {| sid := js "s2"; route := PostAuthRegister;
               reqBody := VObj [(js "email", str "ada@example.org");
                                (js "password", str "other")] |}
            _ eq_refl eq_refl eq_refl eq_refl).
Defined.

Lemma set_new {K V} (keq : K -> K -> bool) k (v : V) m :
  JsMap.has keq k m = false -> JsMap.set keq k v m = (m ++ [(k, v)])%list.
Proof.
  unfold JsMap.has.
  induction m as [|[k1 v1] r IH]; simpl; auto.
  destruct (keq k1 k); [discriminate|].
  intros H. now rewrite IH.
Qed.

Lemma find_fresh {A} (f : A -> bool) (l : list A) (x : A) :
  Forall (fun y => f y = false) l -> f x = true -> find f (l ++ [x]) = Some x.
Proof.
  induction 1 as [|y l Hy Hl IH]; simpl; intros Hx.
  - now rewrite Hx.
  - rewrite Hy. auto.
Qed.

(** X26. After a registration with a new email, GET /api/auth/me in
    the same session answers with the account just made.  The new user
    id is assumed not empty and not the id of an account already on
    record: the account is looked up by id, first match wins. *)
Theorem register_then_me env (req : request) (w : world) (anyBody : value) :
  let email := field (js "email") (reqBody req) in
  let firstName := field (js "firstName") (reqBody req) in
  let lastName := field (js "lastName") (reqBody req) in
  let userId := randomUUID env (log w) in
  route req = PostAuthRegister ->
  truthy email = true ->
  truthy (field (js "password") (reqBody req)) = true ->
  JsMap.has sameValueZero email (users w) = false ->
  userId <> [] ->
  Forall (fun u => User.id u <> userId) (JsMap.values (users w)) ->
  let r := handle env req w in
  status (fst r) = 200 /\
  fst (handle env {| sid := sid req; route := GetAuthMe; reqBody := anyBody |}
         (snd r))
  = json (VObj [(js "userId", VStr userId);
                (js "email", email);
                (js "firstName", orElse firstName (str ""));
                (js "lastName", orElse lastName (str ""))]).
Proof.
  intros email firstName lastName userId Hr He Hp Hnew Hid Hfresh r.
  assert (Hreg : exists rec resp,
             User.id rec = userId /\ User.email rec = email /\
             User.firstName rec = orElse firstName (str "") /\
             User.lastName rec = orElse lastName (str "") /\
             status resp = 200 /\
             r = (resp,
                  withSessions
                    (JsMap.set str_eqb (sid req)
                       {| Session.userId := VStr userId;
                          Session.email := email;
                          Session.cartGuid := Session.cartGuid (sessionOf (sid req) w) |})
                    (withUsers (JsMap.set sameValueZero email rec)
                       (record EvDate (record EvUuid w))))).
  { subst r. unfold handle, handler. rewrite Hr. unfold postAuthRegister.
    fold email firstName lastName. rewrite He, Hp. cbn [negb orb].
    unfold bind at 1, gets at 1. rewrite Hnew.
    eexists _, _. repeat split; reflexivity. }
  destruct Hreg as (rec & resp & Hrid & Hrem & Hrfn & Hrln & Hst & Hreq).
  rewrite Hreq. cbn [fst snd]. split; [exact Hst|].
  unfold handle, handler. cbn [route sid].
  unfold getAuthMe, bind, getSession, gets, ret.
  rewrite sessionOf_set_same. cbn [Session.userId truthy].
  destruct userId as [|c rest] eqn:Hu; [congruence|]. cbn [negb].
  cbn [users withSessions withUsers record withLog].
  rewrite (set_new sameValueZero email rec (users w) Hnew).
  unfold findUser, JsMap.values. rewrite map_app. cbn [map snd].
  rewrite find_fresh.
  - cbn [fst]. now rewrite Hrid, Hrem, Hrfn, Hrln.
  - apply Forall_forall. intros u Hin. apply in_map_iff in Hin as (kv & <- & Hkv).
    rewrite Forall_forall in Hfresh.
    assert (Hn : User.id (snd kv) <> c :: rest).
    { apply Hfresh. unfold JsMap.values. now apply in_map. }
    cbn [strictEq]. now apply str_eqb_neq.
  - cbn [strictEq]. rewrite Hrid. apply str_eqb_refl.
Qed.

Lemma register_then_me_witness :
  let env := demoEnv demoCatalog [] in
  status (fst (handle env (demoMe "s1")
                 (snd (handle env demoRegister initialWorld)))) = 200.
Proof.
  intros env.
  pose proof (register_then_me env demoRegister initialWorld (VObj [])
                eq_refl eq_refl eq_refl eq_refl) as H.
  refine (f_equal status (proj2 (H _ _))).
  - discriminate.
  - constructor.
Defined.

(** ** Cleaned products *)

Lemma stripHtml_string env v r :
  stripHtml env v = Ok r -> exists s, r = VStr s.
Proof.
  unfold stripHtml.
  destruct (negb (truthy v)).
  - intros [= <-]. now exists (js "").
  - destruct v; try discriminate. intros [= <-]. eauto.
Qed.

(** X27. A cleaned product has a string under [name] and under
    [description], whatever the platform sent there (markup, nothing at
    all), so the text embedded for it is exactly the name, a space and
    the description. *)
Theorem cleanProduct_strings env (p : value) (o : obj) :
  cleanProduct env p = Ok o ->
  exists name description,
    objGet (js "name") o = VStr name /\
    objGet (js "description") o = VStr description /\
    productText env o = (name ++ js " " ++ description)%list.
Proof.
  unfold cleanProduct, obind. intros H.
  destruct (getProp p (js "name")) as [n|]; try discriminate.
  destruct (stripHtml env n) as [n'|] eqn:Hn; try discriminate.
  destruct (getProp p (js "description")) as [d|]; try discriminate.
  destruct (if truthy d then stripHtml env d else Ok (str "")) as [d'|] eqn:Hd;
    try discriminate.
  injection H as <-.
  apply stripHtml_string in Hn as [name ->].
  assert (Hd' : exists description, d' = VStr description).
  { destruct (truthy d).
    - now apply stripHtml_string in Hd.
    - injection Hd as <-. now exists (js ""). }
  destruct Hd' as [description ->].
  exists name, description.
  assert (H1 : objGet (js "name")
                 (objSet (js "description") (VStr description)
                    (objSet (js "name") (VStr name) (spread p))) = VStr name).
  { unfold objGet, objSet.
    rewrite get_set_other by discriminate. now rewrite get_set_same. }
  assert (H2 : objGet (js "description")
                 (objSet (js "description") (VStr description)
                    (objSet (js "name") (VStr name) (spread p)))
               = VStr description).
  { unfold objGet, objSet. now rewrite get_set_same. }
  repeat split; auto.
  unfold productText. now rewrite H1, H2.
Qed.

Lemma cleanProduct_strings_witness :
  exists o name description,
    cleanProduct (demoEnv demoCatalog [])
      (VObj [(js "code", str "P9"); (js "name", str "<b>Lens</b> 50mm")]) = Ok o /\
    productText (demoEnv demoCatalog []) o = (name ++ js " " ++ description)%list.
Proof.
  eexists.
  edestruct (cleanProduct_strings (demoEnv demoCatalog [])
               (VObj [(js "code", str "P9"); (js "name", str "<b>Lens</b> 50mm")]))
    as (name & description & _ & _ & H).
  - vm_compute. reflexivity.
  - exists name, description. split; [reflexivity | exact H].
Defined.
